(** * Fluentify AI: the practice session, the exercise drill and the phrase library

    A shallow embedding of the logic of the top-level [App] component
    (state handlers [updatePhraseScore], [startRecording], [handleProcessing],
    [handleSavePhrase], [normalizeText], [startExerciseMode], [checkWriting],
    [handleImport]) and of [analyzeSpeech] from [services/geminiService.ts].

    Modelling conventions.
    - A JavaScript string is a sequence of UTF-16 code units.  Module [UTF16]
      holds them as a [list Z] and gives [toLowerCase] (the lower-case
      mappings of the Unicode Character Database, with the Final_Sigma rule
      and the one unconditional special mapping), the class [\s] of regular
      expressions and [trim] for every code unit; [UTF16.normalizeText] is
      [normalizeText] on every string.  Module [JSString] and the top-level
      [normalizeText] are the same functions on the strings of the first 256
      code points, held as a [string]; [normalizeText_units] shows that the
      two agree there.  The handlers are stated over the 8-bit strings.
    - A score is an integer ([Z]).  A practice count is an integer that is
      incremented in IEEE 754 binary64 ([Number.increment]), and the writing
      score [Math.round((correctCount / targetWords.length) * 100)] is
      computed in binary64, both with the operations of [SpecFloat].
    - React state is a record; a handler is a function from the record (and
      the outcome of what it awaits) to the record.  A handler that finishes
      after an [await], or that is kept by [useCallback], reads the state of
      the render that created it: that render is the argument [seen] of
      [updatePhraseScore] and [handleProcessing], and [Page] keeps the
      render memoized by [startRecording] next to the latest one.
    - A [Map] is an association list in insertion order.
    - [Math.random] is an explicit sequence of draws, and
      [Array.prototype.sort] an insertion sort that asks the comparator.
      Which pairs an engine compares, and in which order, is its own
      choice: the statements about such a sort are about what the
      comparator fixes, or name the model. *)

From Stdlib Require Import ZArith Lia Bool Ascii String List.
From Stdlib Require Import Sorting.Sorted Sorting.Permutation.
From Stdlib Require Import Floats.SpecFloat.
From stdpp Require Import base list strings.
Import ListNotations.

Local Open Scope string_scope.
Local Open Scope Z_scope.
Local Open Scope list_scope.

(** ** Strings of the first 256 code points

    A [string] holds one code unit below 256 in each of its characters.
    Module [UTF16] below has the functions on all strings. *)

Module JSString.

(** Code unit of a character. *)
Definition code (c : ascii) : N := N_of_ascii c.

(** The upper-case letters of Latin-1: A-Z, and U+00C0-U+00DE without the
    multiplication sign U+00D7. *)
Definition is_upper (c : ascii) : bool :=
  let n := code c in
  ((65 <=? n) && (n <=? 90) ||
   (192 <=? n) && (n <=? 222) && negb (n =? 215))%N.

Definition lower_char (c : ascii) : ascii :=
  if is_upper c then ascii_of_N (code c + 32) else c.

(** [String.prototype.toLowerCase] on these strings: no code point below 256
    has a lower-case mapping that depends on what is around it. *)
Fixpoint toLowerCase (s : string) : string :=
  match s with
  | EmptyString => EmptyString
  | String c s' => String (lower_char c) (toLowerCase s')
  end.

Fixpoint mem_char (c : ascii) (set : string) : bool :=
  match set with
  | EmptyString => false
  | String d set' => Ascii.eqb c d || mem_char c set'
  end.

(** The character class of the first [replace] of [normalizeText]:
    [[.,/#!$%^&*;:{}=\-_`~()]]. *)
Definition punctuation : string := ".,/#!$%^&*;:{}=-_`~()".

Definition is_punct (c : ascii) : bool := mem_char c punctuation.

(** The class [\s] (white space and line terminators): TAB, LF, VT, FF, CR,
    SPACE and NO-BREAK SPACE. *)
Definition is_space (c : ascii) : bool :=
  let n := code c in
  ((9 <=? n) && (n <=? 13) || (n =? 32) || (n =? 160))%N.

(** [s.replace(/[.,/#!$%^&*;:{}=\-_`~()]/g, "")]. *)
Fixpoint remove_punct (s : string) : string :=
  match s with
  | EmptyString => EmptyString
  | String c s' =>
      if is_punct c then remove_punct s' else String c (remove_punct s')
  end.

(** [s.replace(/\s+/g, " ")]: every maximal run of white space becomes one
    space.  [in_run] tells that the previous character belonged to a run
    that has already been replaced. *)
Fixpoint collapse_from (in_run : bool) (s : string) : string :=
  match s with
  | EmptyString => EmptyString
  | String c s' =>
      if is_space c
      then if in_run then collapse_from true s'
           else String " " (collapse_from true s')
      else String c (collapse_from false s')
  end.

Definition collapse_spaces (s : string) : string := collapse_from false s.

Fixpoint trimStart (s : string) : string :=
  match s with
  | EmptyString => EmptyString
  | String c s' => if is_space c then trimStart s' else s
  end.

Fixpoint trimEnd (s : string) : string :=
  match s with
  | EmptyString => EmptyString
  | String c s' =>
      match trimEnd s' with
      | EmptyString => if is_space c then EmptyString else String c EmptyString
      | t => String c t
      end
  end.

(** [String.prototype.trim]. *)
Definition trim (s : string) : string := trimEnd (trimStart s).

(** [s.split(' ')]: the pieces between the occurrences of the separator;
    there is always at least one piece. *)
Fixpoint split_space (s : string) : list string :=
  match s with
  | EmptyString => [EmptyString]
  | String c s' =>
      if Ascii.eqb c " " then EmptyString :: split_space s'
      else match split_space s' with
           | w :: ws => String c w :: ws
           | [] => [String c EmptyString]
           end
  end.

(** A string is falsy exactly when it is empty. *)
Definition truthy (s : string) : bool :=
  match s with EmptyString => false | _ => true end.

End JSString.

Import JSString.

(** ** [normalizeText] *)

Definition normalizeText (text : string) : string :=
  trim (collapse_spaces (remove_punct (toLowerCase text))).


(** ** Numbers: the binary64 operations of the writing score *)

Module Number.

Definition prec : Z := 53.
Definition emax : Z := 1024.

(** The binary64 value of an integer. *)
Definition of_Z (z : Z) : spec_float := binary_normalize prec emax z 0 false.

(** [x / y] and [x * y] on numbers. *)
Definition div (x y : spec_float) : spec_float := SFdiv prec emax x y.
Definition mul (x y : spec_float) : spec_float := SFmul prec emax x y.

(** [x + y] on numbers. *)
Definition add (x y : spec_float) : spec_float := SFadd prec emax x y.

(** The integer held by a number whose value is integral (0 for NaN and the
    infinities, which no sum of counts below [2^1023] is). *)
Definition to_Z (x : spec_float) : Z :=
  match x with
  | S754_finite s m e =>
      let v := if s then Zneg m else Zpos m in
      if 0 <=? e then v * 2 ^ e else v / 2 ^ (- e)
  | S754_zero _ | S754_infinity _ | S754_nan => 0
  end.

(** [n + 1] for a count [n]: the sum is the binary64 one. *)
Definition increment (n : Z) : Z := to_Z (add (of_Z n) (of_Z 1)).

(** [Math.round]: the integer closest to the argument, ties towards
    positive infinity, that is [floor (x + 1/2)] taken exactly.  There is no
    integer for NaN and the infinities. *)
Definition Math_round (x : spec_float) : option Z :=
  match x with
  | S754_zero _ => Some 0
  | S754_finite s m e =>
      let v := if s then Zneg m else Zpos m in
      Some (if 0 <=? e then v * 2 ^ e
            else (2 * v + 2 ^ (- e)) / 2 ^ (1 - e))
  | S754_infinity _ | S754_nan => None
  end.

End Number.

(** ** The data model of [types.ts] *)

Record SavedPhrase := mkSavedPhrase {
  id : string;
  text : string;
  note : string;
  timestamp : Z;
  lastScore : option Z;
  practiceCount : option Z }.

Inductive AppStatus := IDLE | RECORDING | ANALYZING | RESULT | ERROR | EXERCISE.

(** The values of [ExerciseState.step]. *)
Module Step.
Inductive t := WRITING | SPEAKING | RESULT | FINISHED.
End Step.

Record DiffItem := mkDiffItem { word : string; isCorrect : bool }.

Record WritingResult := mkWritingResult { score : Z; diff : list DiffItem }.

Record ExerciseState := mkExerciseState {
  currentPhraseIndex : nat;
  shuffledPhrases : list SavedPhrase;
  step : Step.t;
  userInput : string;
  writingResult : option WritingResult }.

(** A value produced by [JSON.parse]. *)
#[warnings="-register-all"]
Inductive json :=
| JNull
| JBool (b : bool)
| JNumber (z : Z)   (* the numbers of the model are the integers *)
| JString (s : string)
| JArray (items : list json)
| JObject (fields : list (string * json)).

(** The value bound to a key in a sequence of bindings where a later binding
    overrides an earlier one. *)
Fixpoint last_binding {V : Type} (key : string) (l : list (string * V))
  : option V :=
  match l with
  | [] => None
  | (k, v) :: rest =>
      match last_binding key rest with
      | Some v' => Some v'
      | None => if String.eqb k key then Some v else None
      end
  end.

(** Reading a property of a parsed object: [JSON.parse] keeps the last
    binding of a key; [None] is [undefined]. *)
Definition field (key : string) (fields : list (string * json)) : option json :=
  last_binding key fields.

Definition is_number (v : option json) : bool :=
  match v with Some (JNumber _) => true | _ => false end.
Definition is_string (v : option json) : bool :=
  match v with Some (JString _) => true | _ => false end.
Definition is_boolean (v : option json) : bool :=
  match v with Some (JBool _) => true | _ => false end.
Definition is_string_array (v : option json) : bool :=
  match v with
  | Some (JArray items) => forallb (fun x => is_string (Some x)) items
  | _ => false
  end.

(** The shape of the interface [AnalysisResult]. *)
Definition is_AnalysisResult (v : json) : bool :=
  match v with
  | JObject fs =>
      is_number (field "accuracyScore" fs) &&
      is_string (field "transcription" fs) &&
      is_string_array (field "mispronouncedWords" fs) &&
      is_string (field "feedback" fs) &&
      is_string (field "tips" fs) &&
      is_boolean (field "isPerfect" fs)
  | _ => false
  end.

(** [localStorage.getItem('fluentify_phrases')]: what [JSON.stringify] wrote
    there, or nothing. *)
Definition Storage := option (list SavedPhrase).

(** The state of [App] (the part the handlers below read or write). *)
Record App := mkApp {
  targetText : string;
  status : AppStatus;
  result : option json;
  errorMessage : string;
  savedPhrases : list SavedPhrase;
  phraseNote : string;
  showSaveModal : bool;
  exercise : option ExerciseState;
  fluentify_phrases : Storage }.

Definition setTargetText (v : string) (s : App) : App :=
  mkApp v (status s) (result s) (errorMessage s) (savedPhrases s)
        (phraseNote s) (showSaveModal s) (exercise s) (fluentify_phrases s).
Definition setStatus (v : AppStatus) (s : App) : App :=
  mkApp (targetText s) v (result s) (errorMessage s) (savedPhrases s)
        (phraseNote s) (showSaveModal s) (exercise s) (fluentify_phrases s).
Definition setResult (v : option json) (s : App) : App :=
  mkApp (targetText s) (status s) v (errorMessage s) (savedPhrases s)
        (phraseNote s) (showSaveModal s) (exercise s) (fluentify_phrases s).
Definition setErrorMessage (v : string) (s : App) : App :=
  mkApp (targetText s) (status s) (result s) v (savedPhrases s)
        (phraseNote s) (showSaveModal s) (exercise s) (fluentify_phrases s).
Definition setSavedPhrases (v : list SavedPhrase) (s : App) : App :=
  mkApp (targetText s) (status s) (result s) (errorMessage s) v
        (phraseNote s) (showSaveModal s) (exercise s) (fluentify_phrases s).
Definition setPhraseNote (v : string) (s : App) : App :=
  mkApp (targetText s) (status s) (result s) (errorMessage s) (savedPhrases s)
        v (showSaveModal s) (exercise s) (fluentify_phrases s).
Definition setShowSaveModal (v : bool) (s : App) : App :=
  mkApp (targetText s) (status s) (result s) (errorMessage s) (savedPhrases s)
        (phraseNote s) v (exercise s) (fluentify_phrases s).
Definition setExercise (v : option ExerciseState) (s : App) : App :=
  mkApp (targetText s) (status s) (result s) (errorMessage s) (savedPhrases s)
        (phraseNote s) (showSaveModal s) v (fluentify_phrases s).
(** [localStorage.setItem('fluentify_phrases', JSON.stringify(v))]. *)
Definition storePhrases (v : list SavedPhrase) (s : App) : App :=
  mkApp (targetText s) (status s) (result s) (errorMessage s) (savedPhrases s)
        (phraseNote s) (showSaveModal s) (exercise s) (Some v).

(** ** The phrase library *)

(** The callback of [savedPhrases.map] in [updatePhraseScore].  The score
    handed over is a number or [undefined] ([None]); a [lastScore] that is
    [undefined] is read like an absent one and is not written by
    [JSON.stringify]. *)
Definition scoredWith (id0 : string) (score0 : option Z) (p : SavedPhrase)
  : SavedPhrase :=
  if String.eqb (id p) id0 then
    let newCount := Number.increment (default 0 (practiceCount p)) in
    mkSavedPhrase (id p) (text p) (note p) (timestamp p)
                  score0 (Some newCount)
  else p.

Definition scored (id0 : string) (score0 : Z) (p : SavedPhrase) : SavedPhrase :=
  scoredWith id0 (Some score0) p.

(** [updatePhraseScore] is created anew in every render and maps the
    [savedPhrases] of that render: [seen] is the state of the render the
    callback comes from, [s] the state at the time of the call, which the
    setter and the storage change. *)
Definition updatePhraseScore (seen : App) (id0 : string) (score0 : option Z)
  (s : App) : App :=
  let updated := map (scoredWith id0 score0) (savedPhrases seen) in
  storePhrases updated (setSavedPhrases updated s).

(** [crypto.randomUUID()] and [Date.now()] are inputs of the handler. *)
Definition handleSavePhrase (uuid : string) (now : Z) (s : App) : App :=
  if negb (truthy (trim (targetText s))) then s
  else
    let newPhrase :=
      mkSavedPhrase uuid (trim (targetText s)) (trim (phraseNote s)) now
                    None (Some 0) in
    let updated := newPhrase :: savedPhrases s in
    setShowSaveModal false
      (setPhraseNote "" (storePhrases updated (setSavedPhrases updated s))).

(** A [Map] with string keys: the entries in insertion order.  Setting a key
    that is present replaces its value and keeps its place. *)
Fixpoint Map_set {V : Type} (k : string) (v : V) (m : list (string * V))
  : list (string * V) :=
  match m with
  | [] => [(k, v)]
  | (k', v') :: m' =>
      if String.eqb k' k then (k', v) :: m' else (k', v') :: Map_set k v m'
  end.

Definition Map_add {V : Type} (m : list (string * V)) (kv : string * V)
  : list (string * V) :=
  Map_set (fst kv) (snd kv) m.

(** [new Map(entries)]. *)
Definition Map_new {V : Type} (entries : list (string * V)) : list (string * V) :=
  fold_left Map_add entries [].

(** [Array.from(m.keys())]. *)
Definition Map_keys {V : Type} (m : list (string * V)) : list string := map fst m.

(** [Array.from(m.values())]. *)
Definition Map_values {V : Type} (m : list (string * V)) : list V := map snd m.

(** What the file chooser and [JSON.parse] hand to [reader.onload]. *)
Inductive ImportFile :=
| NoFile
| NotJson
| NotAnArray
| PhraseArray (items : list SavedPhrase).

Definition merge_import (items saved : list SavedPhrase) : list SavedPhrase :=
  let merged := items ++ saved in
  Map_values (Map_new (map (fun item => (text item, item)) merged)).

Definition handleImport (file : ImportFile) (confirmed : bool) (s : App) : App :=
  match file with
  | PhraseArray items =>
      if confirmed then
        let unique := merge_import items (savedPhrases s) in
        storePhrases unique (setSavedPhrases unique s)
      else s
  | NoFile | NotJson | NotAnArray => s
  end.

(** ** The exercise drill *)

(** [Math.random()]: the draws, each scaled by [2^53], and the number of
    draws already made. *)
Record Random := mkRandom { draws : nat -> Z; drawn : nat }.

Definition Math_random (r : Random) : Z * Random :=
  (draws r (drawn r), mkRandom (draws r) (S (drawn r))).

(** [a.lastScore ?? -1]. *)
Definition scoreOf (p : SavedPhrase) : Z := default (-1) (lastScore p).

(** The comparator handed to [sort] in [startExerciseMode].  The value has
    the sign of the JavaScript one: [Math.random() - 0.5] has the sign of
    [2 * draw - 2^53]. *)
Definition compareFn (a b : SavedPhrase) (r : Random) : Z * Random :=
  let scoreA := scoreOf a in
  let scoreB := scoreOf b in
  if negb (scoreA =? scoreB) then (scoreA - scoreB, r)
  else let '(x, r') := Math_random r in (2 * x - 2 ^ 53, r').

(** [Array.prototype.sort] as insertion sort: each element in turn moves
    left past the elements the comparator puts after it.  The sorted prefix is
    kept with its last element first. *)
Fixpoint insert_back {A : Type} (comparefn : A -> A -> Random -> Z * Random)
  (element : A) (prefix_rev : list A) (r : Random) : list A * Random :=
  match prefix_rev with
  | [] => ([element], r)
  | tmp :: rest =>
      let '(order, r1) := comparefn tmp element r in
      if 0 <? order then
        let '(rest', r2) := insert_back comparefn element rest r1 in
        (tmp :: rest', r2)
      else (element :: tmp :: rest, r1)
  end.

Fixpoint sort_from {A : Type} (comparefn : A -> A -> Random -> Z * Random)
  (prefix_rev todo : list A) (r : Random) : list A * Random :=
  match todo with
  | [] => (rev prefix_rev, r)
  | element :: todo' =>
      let '(prefix_rev', r') := insert_back comparefn element prefix_rev r in
      sort_from comparefn prefix_rev' todo' r'
  end.

Definition sort {A : Type} (comparefn : A -> A -> Random -> Z * Random)
  (l : list A) (r : Random) : list A * Random :=
  sort_from comparefn [] l r.

Definition startExerciseMode (r : Random) (s : App) : App * Random :=
  match savedPhrases s with
  | [] => (s, r)
  | _ :: _ =>
      let '(shuffled, r') := sort compareFn (savedPhrases s) r in
      match shuffled with
      | [] => (s, r')   (* [shuffled[0].text] throws; unreachable *)
      | first :: _ =>
          (setResult None
             (setStatus EXERCISE
                (setTargetText (text first)
                   (setExercise
                      (Some (mkExerciseState 0 shuffled Step.WRITING "" None)) s))),
           r')
      end
  end.

(** The body of [targetWords.map] in [checkWriting]: the entry of the diff
    at index [idx]. *)
Definition diffItem (original userWords : list string) (idx : nat) (w : string)
  : DiffItem :=
  let isCorrect :=
    match userWords !! idx with
    | Some u => String.eqb u w
    | None => false
    end in
  let shown :=
    match original !! idx with
    | Some o => if truthy o then o else w
    | None => w
    end in
  mkDiffItem shown isCorrect.

(** [targetWords.map((word, idx) => ...)] together with the counter
    [correctCount] that the callback increments. *)
Fixpoint mapWords (original userWords : list string) (idx : nat)
  (targetWords : list string) (correctCount : nat) : list DiffItem * nat :=
  match targetWords with
  | [] => ([], correctCount)
  | w :: rest =>
      let item := diffItem original userWords idx w in
      let correctCount' :=
        if isCorrect item then S correctCount else correctCount in
      let '(items, n) :=
        mapWords original userWords (S idx) rest correctCount' in
      (item :: items, n)
  end.

(** [Math.round((correctCount / targetWords.length) * 100)]. *)
Definition writing_score (correctCount len : nat) : option Z :=
  Number.Math_round
    (Number.mul
       (Number.div (Number.of_Z (Z.of_nat correctCount))
                   (Number.of_Z (Z.of_nat len)))
       (Number.of_Z 100)).

(** The computation of [checkWriting] on the text of the current phrase and
    the input of the user.  [None]: the score is not an integer. *)
Definition writingCheck (canonical input : string) : option WritingResult :=
  let targetWords := split_space (normalizeText canonical) in
  let userWords := split_space (normalizeText input) in
  let '(d, correctCount) :=
    mapWords (split_space canonical) userWords 0 targetWords 0 in
  match writing_score correctCount (length targetWords) with
  | Some sc => Some (mkWritingResult sc d)
  | None => None
  end.

Definition checkWriting (s : App) : App :=
  match exercise s with
  | None => s
  | Some ex =>
      match shuffledPhrases ex !! currentPhraseIndex ex with
      | None => s
      | Some current =>
          match writingCheck (text current) (userInput ex) with
          | None => s
          | Some wr =>
              updatePhraseScore s (id current) (Some (score wr))
                (setExercise
                   (Some (mkExerciseState (currentPhraseIndex ex)
                            (shuffledPhrases ex) Step.RESULT (userInput ex)
                            (Some wr))) s)
          end
      end
  end.

(** ** The practice session *)

(** [navigator.mediaDevices.getUserMedia] resolves ([true]) or rejects. *)
Definition startRecording (deviceGranted : bool) (s : App) : App :=
  if deviceGranted then
    setErrorMessage "" (setResult None (setStatus RECORDING s))
  else
    setStatus ERROR (setErrorMessage "Không thể truy cập microphone." s).

(** The text of the reply of the model: absent or empty, or a text on which
    [JSON.parse] throws ([None]) or that it turns into a value. *)
Inductive ResponseText :=
| NoText
| Text (parsed : option json).

(** What an awaited call ends with. *)
Inductive Outcome (A : Type) :=
| Rejected
| Resolved (value : A).
Arguments Rejected {A}.
Arguments Resolved {A} value.

(** [analyzeSpeech]: [reply] is what [ai.models.generateContent] ends with;
    the value returned is [JSON.parse(response.text || '{}')]. *)
Definition analyzeSpeech (reply : Outcome ResponseText) : Outcome json :=
  match reply with
  | Rejected => Rejected
  | Resolved NoText => Resolved (JObject [])
  | Resolved (Text None) => Rejected
  | Resolved (Text (Some v)) => Resolved v
  end.

(** [analysis.accuracyScore]: reading a property of [null] throws; a value
    without the property gives [undefined]. *)
Definition accuracyScore (analysis : json) : Outcome (option json) :=
  match analysis with
  | JNull => Rejected
  | JObject fs => Resolved (field "accuracyScore" fs)
  | _ => Resolved None
  end.

(** [setResult(analysis)]: the state holds [null] for the value [null]. *)
Definition nullable (v : json) : option json :=
  match v with JNull => None | _ => Some v end.

(** The argument [analysis.accuracyScore] of the score update as a score:
    a number or [undefined].  A value of another type would make [lastScore]
    something that is not a number, for which the data model of [types.ts]
    has no place: there is no score then ([None]). *)
Definition scoreArgument (v : option json) : option (option Z) :=
  match v with
  | None => Some None
  | Some (JNumber z) => Some (Some z)
  | Some _ => None
  end.

Definition analysisFailed (s : App) : App :=
  setStatus ERROR (setErrorMessage "Phân tích AI thất bại." s).

(** [handleProcessing] up to its first [await]. *)
Definition handleProcessing_begin (s : App) : App := setStatus ANALYZING s.

(** [handleProcessing] from the point where [analyzeSpeech] has ended.  The
    callback reads [exercise] and, through its [updatePhraseScore], the
    [savedPhrases] of the render it was created in ([seen]); the setters act
    on the state at the time ([s]).  [None]: the score read is no score. *)
Definition handleProcessing_end (seen : App) (analysis : Outcome json) (s : App)
  : option App :=
  match analysis with
  | Rejected => Some (analysisFailed s)
  | Resolved a =>
      let s1 := setStatus RESULT (setResult (nullable a) s) in
      match exercise seen with
      | None => Some s1
      | Some ex =>
          match shuffledPhrases ex !! currentPhraseIndex ex with
          | None => Some (analysisFailed s1)   (* reading [.id] throws *)
          | Some current =>
              match accuracyScore a with
              | Rejected => Some (analysisFailed s1)
              | Resolved v =>
                  match scoreArgument v with
                  | Some score0 =>
                      Some (updatePhraseScore seen (id current) score0 s1)
                  | None => None
                  end
              end
          end
      end
  end.

Definition handleProcessing (seen : App) (reply : Outcome ResponseText)
  (s : App) : option App :=
  handleProcessing_end seen (analyzeSpeech reply) (handleProcessing_begin s).

(** The header's [onGoHome]: the way out of the ERROR state that keeps the
    target text. *)
Definition onGoHome (s : App) : App :=
  setResult None (setExercise None (setStatus IDLE s)).

(** ** Predicates of the statements *)

Fixpoint all_chars (p : ascii -> bool) (s : string) : bool :=
  match s with
  | EmptyString => true
  | String c s' => p c && all_chars p s'
  end.

(** Unchanged by [toLowerCase]. *)
Definition is_folded (c : ascii) : bool := Ascii.eqb (lower_char c) c.

(** The only white space is the space character, and no two of them are
    adjacent; [after_space] tells that a space precedes the string. *)
Fixpoint single_spaced (after_space : bool) (s : string) : bool :=
  match s with
  | EmptyString => true
  | String c s' =>
      if is_space c
      then Ascii.eqb c " " && negb after_space && single_spaced true s'
      else single_spaced false s'
  end.

Definition starts_space (s : string) : bool :=
  match s with
  | EmptyString => false
  | String c _ => is_space c
  end.

Fixpoint ends_space (s : string) : bool :=
  match s with
  | EmptyString => false
  | String c EmptyString => is_space c
  | String _ s' => ends_space s'
  end.

(** The distinct elements of a list in the order of their first
    occurrences. *)
Fixpoint first_occurrences (l : list string) : list string :=
  match l with
  | [] => []
  | x :: l' => x :: List.filter (fun y => negb (String.eqb y x)) (first_occurrences l')
  end.

Definition mem_string (k : string) (l : list string) : bool :=
  existsb (String.eqb k) l.

(** [m.get(k)]. *)
Fixpoint Map_get {V : Type} (k : string) (m : list (string * V)) : option V :=
  match m with
  | [] => None
  | (k', v) :: m' => if String.eqb k' k then Some v else Map_get k m'
  end.

(** The entries [[item.text, item]] of a list of phrases. *)
Definition entries (l : list SavedPhrase) : list (string * SavedPhrase) :=
  map (fun item => (text item, item)) l.

Definition score_ge (a b : SavedPhrase) : Prop := scoreOf b <= scoreOf a.
Definition score_le (a b : SavedPhrase) : Prop := scoreOf a <= scoreOf b.

(** The scores never decrease along the list. *)
Definition ascending (l : list SavedPhrase) : Prop :=
  forall (i j : nat) (p q : SavedPhrase),
    (i < j)%nat -> l !! i = Some p -> l !! j = Some q ->
    scoreOf p <= scoreOf q.

(** The number of entries of a diff that are marked correct. *)
Definition correct_count (d : list DiffItem) : nat :=
  length (List.filter isCorrect d).

(** No [c] below [n] has a writing score of 100 out of [n]. *)
Definition below_hundred (n : nat) : bool :=
  forallb (fun c => match writing_score c n with
                    | Some 100 => false
                    | _ => true
                    end) (seq 0 n).

(** ** Sample data *)

Definition phrase_hello : SavedPhrase :=
  mkSavedPhrase "id-1" "Hello world" "" 1 (Some 90) (Some 2).

Definition app_one : App :=
  mkApp "  Good morning " IDLE None "" [phrase_hello] " greeting " true None
        (Some [phrase_hello]).

Definition imported_A : SavedPhrase := mkSavedPhrase "i1" "A" "" 10 None None.
Definition imported_B : SavedPhrase := mkSavedPhrase "i2" "B" "" 11 None None.
Definition stored_B : SavedPhrase := mkSavedPhrase "s1" "B" "" 1 (Some 50) (Some 1).
Definition stored_C : SavedPhrase := mkSavedPhrase "s2" "C" "" 2 None None.

Definition phrase_morning : SavedPhrase :=
  mkSavedPhrase "id-2" "Good morning" "" 2 None None.

Definition app_two : App :=
  mkApp "Fine." IDLE None "" [phrase_hello; phrase_morning] "" false None
        (Some [phrase_hello; phrase_morning]).

Definition constant_draws (x : Z) : Random := mkRandom (fun _ => x) 0.

(** A string of the kind [crypto.randomUUID()] returns. *)
Definition sample_uuid : string := "3b241101-e2bb-4255-8caf-4136c566a962".

Definition app_uuid : App :=
  mkApp "Good morning" IDLE None ""
        [mkSavedPhrase sample_uuid "Hello world" "" 1 (Some 90) (Some 2)]
        "" true None
        (Some [mkSavedPhrase sample_uuid "Hello world" "" 1 (Some 90) (Some 2)]).

(** A phrase with a score below the range, as an imported file or an
    analysis can bring it in. *)
Definition phrase_negative : SavedPhrase :=
  mkSavedPhrase "id-3" "See you" "" 3 (Some (-5)) (Some 1).

Definition app_negative : App :=
  mkApp "Fine." IDLE None "" [phrase_morning; phrase_negative] "" false None
        (Some [phrase_morning; phrase_negative]).

(** An analysis with the score 85. *)
Definition analysis_85 : json :=
  JObject [("accuracyScore", JNumber 85); ("transcription", JString "good morning");
           ("mispronouncedWords", JArray []); ("feedback", JString "");
           ("tips", JString ""); ("isPerfect", JBool false)].



(** [n] times the word "a", then the word [last]. *)
Fixpoint words_then (n : nat) (last : string) : string :=
  match n with
  | O => last
  | S k => String "a" (String " " (words_then k last))
  end.

Definition long_text : string := words_then 200 "a".
Definition long_input : string := words_then 200 "b".

(** ** Further handlers of [App] *)

(** [localStorage.removeItem('fluentify_phrases')]. *)
Definition removePhrases (s : App) : App :=
  mkApp (targetText s) (status s) (result s) (errorMessage s) (savedPhrases s)
        (phraseNote s) (showSaveModal s) (exercise s) None.

(** What the effect run at mount puts in [savedPhrases]: the stored sequence,
    or the initial empty one when nothing is stored. *)
Definition loadPhrases (stored : Storage) : list SavedPhrase :=
  match stored with
  | Some l => l
  | None => []
  end.

(** [confirmed] is the answer to [confirm(...)]. *)
Definition deleteSavedPhrase (id0 : string) (confirmed : bool) (s : App) : App :=
  if negb confirmed then s
  else
    let updated :=
      List.filter (fun p => negb (String.eqb (id p) id0)) (savedPhrases s) in
    storePhrases updated (setSavedPhrases updated s).

(** The button that empties the library. *)
Definition clearLibrary (confirmed : bool) (s : App) : App :=
  if confirmed then removePhrases (setSavedPhrases [] s) else s.

Definition selectSavedPhrase (phrase : SavedPhrase) (s : App) : App :=
  setExercise None
    (setStatus IDLE (setResult None (setTargetText (text phrase) s))).

(** The [onChange] of the text area of the WRITING step. *)
Definition setUserInput (v : string) (s : App) : App :=
  match exercise s with
  | None => s
  | Some ex =>
      setExercise
        (Some (mkExerciseState (currentPhraseIndex ex) (shuffledPhrases ex)
                 (step ex) v (writingResult ex))) s
  end.

Definition nextExercisePhrase (s : App) : App :=
  match exercise s with
  | None => s
  | Some ex =>
      let nextIndex := S (currentPhraseIndex ex) in
      if (nextIndex <? length (shuffledPhrases ex))%nat then
        match shuffledPhrases ex !! nextIndex with
        | None => s   (* [nextPhrase.text] throws; unreachable *)
        | Some nextPhrase =>
            setResult None
              (setTargetText (text nextPhrase)
                 (setExercise
                    (Some (mkExerciseState nextIndex (shuffledPhrases ex)
                             Step.WRITING "" None)) s))
        end
      else
        setExercise
          (Some (mkExerciseState (currentPhraseIndex ex) (shuffledPhrases ex)
                   Step.FINISHED (userInput ex) (writingResult ex))) s
  end.

(** The buttons that leave a drill. *)
Definition quitExercise (s : App) : App := setExercise None (setStatus IDLE s).

(** ** Suggested phrases and playback *)

Definition defaultPhrase : string :=
  "The quick brown fox jumps over the lazy dog.".


(** [textToSpeech]: [reply] is what [ai.models.generateContent] ends with,
    the audio data of the response being absent ([None]) or a string.  Data
    that is missing or empty is an error. *)
Definition textToSpeech (reply : Outcome (option string)) : Outcome string :=
  match reply with
  | Rejected => Rejected
  | Resolved None => Rejected
  | Resolved (Some base64Audio) =>
      if truthy base64Audio then Resolved base64Audio else Rejected
  end.

(** The flags of [App] that guard the asynchronous actions. *)
Record Flags := mkFlags {
  isTtsLoading : bool;
  isGenerating : bool;
  playingWord : option string }.

(** A state value used as a condition: [null] and the empty string are
    falsy. *)
Definition truthy_opt (v : option string) : bool :=
  match v with
  | Some w => truthy w
  | None => false
  end.


(** [handlePlayWord] up to its [await]. *)
Definition handlePlayWord (w : string) (f : Flags) : Flags :=
  if truthy_opt (playingWord f) then f
  else mkFlags (isTtsLoading f) (isGenerating f) (Some w).

(** The callback [() => setPlayingWord(null)], run when the playback ends or
    fails. *)
Definition playbackEnded (f : Flags) : Flags :=
  mkFlags (isTtsLoading f) (isGenerating f) None.

(** Truthiness of a value: [null], [false], 0 and the empty string are
    falsy. *)
Definition json_truthy (v : json) : bool :=
  match v with
  | JNull => false
  | JBool b => b
  | JNumber z => negb (z =? 0)
  | JString s => truthy s
  | JArray _ | JObject _ => true
  end.

(** [result.mispronouncedWords]: [undefined] for a value without the
    property. *)
Definition mispronouncedWords (v : json) : option json :=
  match v with
  | JObject fs => field "mispronouncedWords" fs
  | _ => None
  end.

(** The panel that shows a result, rendered under
    [status === AppStatus.RESULT && result], evaluates
    [result.mispronouncedWords.length].  Reading [length] of [undefined] or
    of [null] throws, and nothing above [App] catches what a render throws:
    [true] when the panel is rendered and that read throws. *)
Definition resultPanel_throws (s : App) : bool :=
  match status s, result s with
  | RESULT, Some v =>
      json_truthy v &&
      match mispronouncedWords v with
      | None | Some JNull => true
      | Some _ => false
      end
  | _, _ => false
  end.

(** ** Sequences of events *)

Inductive Event :=
| EvSave (uuid : string) (now : Z)
| EvDelete (id0 : string) (confirmed : bool)
| EvImport (file : ImportFile) (confirmed : bool)
| EvClear (confirmed : bool)
| EvScore (id0 : string) (score0 : Z)
| EvSelect (phrase : SavedPhrase)
| EvStart (r : Random)
| EvInput (v : string)
| EvCheck
| EvNext
| EvQuit
| EvHome.

Definition handle (s : App) (ev : Event) : App :=
  match ev with
  | EvSave uuid now => handleSavePhrase uuid now s
  | EvDelete id0 confirmed => deleteSavedPhrase id0 confirmed s
  | EvImport file confirmed => handleImport file confirmed s
  | EvClear confirmed => clearLibrary confirmed s
  | EvScore id0 score0 => updatePhraseScore s id0 (Some score0) s
  | EvSelect phrase => selectSavedPhrase phrase s
  | EvStart r => fst (startExerciseMode r s)
  | EvInput v => setUserInput v s
  | EvCheck => checkWriting s
  | EvNext => nextExercisePhrase s
  | EvQuit => quitExercise s
  | EvHome => onGoHome s
  end.

Definition run (events : list Event) (s : App) : App :=
  fold_left handle events s.

(** ** Renders and the callbacks they keep *)

(** [App] as first rendered, with what the browser has stored. *)
Definition initialApp (stored : Storage) : App :=
  mkApp defaultPhrase IDLE None "" [] "" false None stored.

(** The page between two events.  Every handler is created anew in each
    render and is called from the latest one, except [startRecording]:
    [useCallback(..., [targetText])] keeps the function of the render in
    which [targetText] last changed, and with it the [handleProcessing],
    [exercise] and [savedPhrases] of that render.
    - [latest]: the state of the latest render;
    - [memoized]: the state of the render [startRecording] comes from;
    - [recorder]: [mediaRecorderRef.current], given by the render whose
      [handleProcessing] its [onstop] calls;
    - [analysing]: the calls of [handleProcessing] that await
      [analyzeSpeech], each given by its render. *)
Record Page := mkPage {
  latest : App;
  memoized : App;
  recorder : option App;
  analysing : list App }.

(** The render that follows a change of the state to [s']. *)
Definition rendered (s' : App) (pg : Page) : Page :=
  mkPage s'
         (if String.eqb (targetText s') (targetText (memoized pg))
          then memoized pg else s')
         (recorder pg) (analysing pg).

(** The first render and the effect run at mount. *)
Definition mount (stored : Storage) : Page :=
  rendered (setSavedPhrases (loadPhrases stored) (initialApp stored))
           (mkPage (initialApp stored) (initialApp stored) None []).

Inductive PageEvent :=
| PgHandle (ev : Event)          (* a handler of the latest render *)
| PgTarget (v : string)          (* typing in the text area of the target text *)
| PgRecord (deviceGranted : bool)
| PgStop
| PgAnalysed (k : nat) (reply : Outcome ResponseText).

(** [None]: an analysis has handed over a score that is no score. *)
Definition pageStep (pg : Page) (ev : PageEvent) : option Page :=
  match ev with
  | PgHandle e => Some (rendered (handle (latest pg) e) pg)
  | PgTarget v => Some (rendered (setTargetText v (latest pg)) pg)
  | PgRecord deviceGranted =>
      Some (rendered (startRecording deviceGranted (latest pg))
              (mkPage (latest pg) (memoized pg)
                      (if deviceGranted then Some (memoized pg)
                       else recorder pg)
                      (analysing pg)))
  | PgStop =>
      (* [stopRecording]; [onstop] then starts [handleProcessing] *)
      match recorder pg, status (latest pg) with
      | Some seen, RECORDING =>
          Some (rendered (handleProcessing_begin (latest pg))
                  (mkPage (latest pg) (memoized pg) (recorder pg)
                          (analysing pg ++ [seen])))
      | _, _ => Some pg
      end
  | PgAnalysed k reply =>
      match analysing pg !! k with
      | None => Some pg
      | Some seen =>
          match handleProcessing_end seen (analyzeSpeech reply) (latest pg) with
          | Some s' =>
              Some (rendered s'
                      (mkPage (latest pg) (memoized pg) (recorder pg)
                              (delete k (analysing pg))))
          | None => None
          end
      end
  end.

Fixpoint pageRun (events : list PageEvent) (pg : Page) : option Page :=
  match events with
  | [] => Some pg
  | ev :: rest =>
      match pageStep pg ev with
      | Some pg' => pageRun rest pg'
      | None => None
      end
  end.

(** The handlers that leave the target text as it is. *)
Definition keeps_target (ev : Event) : bool :=
  match ev with
  | EvSelect _ | EvStart _ | EvNext => false
  | _ => true
  end.

(** The events that leave a running drill in place. *)
Definition stays_in_drill (ev : Event) : bool :=
  match ev with
  | EvSelect _ | EvStart _ | EvQuit | EvHome => false
  | _ => true
  end.

(** What is stored is what the state holds. *)
Definition persisted (s : App) : Prop :=
  loadPhrases (fluentify_phrases s) = savedPhrases s.

(** The index of a drill points at one of its phrases. *)
Definition drill_in_range (s : App) : Prop :=
  forall ex, exercise s = Some ex ->
    (currentPhraseIndex ex < length (shuffledPhrases ex))%nat.

(** Every score present is an integer from 0 to 100. *)
Definition scores_in_range (l : list SavedPhrase) : Prop :=
  forall p z, In p l -> lastScore p = Some z -> 0 <= z <= 100.

(** The texts are trimmed and not empty. *)
Definition texts_trimmed (l : list SavedPhrase) : Prop :=
  forall p, In p l -> trim (text p) = text p /\ text p <> "".

Definition app_drill : App :=
  mkApp "" IDLE None "" [phrase_hello; phrase_morning] "" false
        (Some (mkExerciseState 0 [phrase_morning; phrase_hello] Step.WRITING
                 "good morning" None))
        (Some [phrase_hello; phrase_morning]).

Definition flags_idle : Flags := mkFlags false false None.

(** ** Strings as sequences of UTF-16 code units *)

Module UTF16.

(** A string is the list of its code units, each from 0 to 65535. *)
Definition is_unit (u : Z) : bool := (0 <=? u) && (u <? 65536).

Definition is_string (s : list Z) : bool := forallb is_unit s.

(** The code units of a string of the first 256 code points. *)
Fixpoint units (s : string) : list Z :=
  match s with
  | EmptyString => []
  | String c s' => Z.of_N (N_of_ascii c) :: units s'
  end.

(** High surrogates are U+D800 to U+DBFF, low surrogates U+DC00 to
    U+DFFF. *)
Definition is_high (u : Z) : bool := (55296 <=? u) && (u <=? 56319).
Definition is_low (u : Z) : bool := (56320 <=? u) && (u <=? 57343).
Definition is_surrogate (u : Z) : bool := (55296 <=? u) && (u <=? 57343).

(** [StringToCodePoints]: a high surrogate followed by a low one is the code
    point of the pair, every other code unit a code point by itself. *)
Fixpoint codePoints (s : list Z) : list Z :=
  match s with
  | [] => []
  | h :: rest =>
      match rest with
      | l :: rest' =>
          if is_high h && is_low l
          then (65536 + (h - 55296) * 1024 + (l - 56320)) :: codePoints rest'
          else h :: codePoints rest
      | [] => [h]
      end
  end.

(** [UTF16EncodeCodePoint] and [CodePointsToString]. *)
Definition encodeCodePoint (c : Z) : list Z :=
  if c <? 65536 then [c]
  else [55296 + (c - 65536) / 1024; 56320 + (c - 65536) mod 1024].

Definition fromCodePoints (cps : list Z) : list Z :=
  flat_map encodeCodePoint cps.

(** What [toLowerCase] takes from the Unicode Character Database, which
    differs from one version of Unicode to the next: the simple lower-case
    mappings, as runs [(first, last, stride, delta)] that map [first],
    [first + stride], ..., up to [last] to themselves plus [delta], and the
    properties Cased and Case_Ignorable, as ranges. *)
Record Unicode := mkUnicode {
  lowercase : list (Z * Z * Z * Z);
  cased : list (Z * Z);
  case_ignorable : list (Z * Z) }.

Definition in_run (r : Z * Z * Z * Z) (c : Z) : bool :=
  let '(first, last, stride, _) := r in
  (first <=? c) && (c <=? last) && ((c - first) mod stride =? 0).

Definition run_delta (r : Z * Z * Z * Z) : Z := snd r.

Definition in_range (r : Z * Z) (c : Z) : bool :=
  (fst r <=? c) && (c <=? snd r).

Definition in_ranges (rs : list (Z * Z)) (c : Z) : bool :=
  existsb (fun r => in_range r c) rs.

Definition simple_lower (table : list (Z * Z * Z * Z)) (c : Z) : Z :=
  match List.find (fun r => in_run r c) table with
  | Some r => c + run_delta r
  | None => c
  end.

(** The condition Final_Sigma of [SpecialCasing.txt]: a cased letter comes
    before, and none comes after, case-ignorable code points being skipped
    on both sides.  [before_rev] holds the code points before the sigma,
    the nearest first. *)
Fixpoint skip_ignorable (u : Unicode) (cps : list Z) : list Z :=
  match cps with
  | [] => []
  | c :: rest =>
      if in_ranges (case_ignorable u) c then skip_ignorable u rest else cps
  end.

Definition cased_next (u : Unicode) (cps : list Z) : bool :=
  match skip_ignorable u cps with
  | c :: _ => in_ranges (cased u) c
  | [] => false
  end.

Definition final_sigma (u : Unicode) (before_rev after : list Z) : bool :=
  cased_next u before_rev && negb (cased_next u after).

(** The lower-case mapping of a code point in its context: U+03A3 (capital
    sigma) gives U+03C2 in the condition Final_Sigma and U+03C3 otherwise,
    U+0130 gives U+0069 U+0307, every other code point its simple
    mapping. *)
Definition lower_codePoint (u : Unicode) (before_rev : list Z) (c : Z)
  (after : list Z) : list Z :=
  if c =? 931 then [if final_sigma u before_rev after then 962 else 963]
  else if c =? 304 then [105; 775]
  else [simple_lower (lowercase u) c].

Fixpoint lower_from (u : Unicode) (before_rev cps : list Z) : list Z :=
  match cps with
  | [] => []
  | c :: after =>
      lower_codePoint u before_rev c after ++ lower_from u (c :: before_rev) after
  end.

(** [String.prototype.toLowerCase]. *)
Definition toLowerCase (u : Unicode) (s : list Z) : list Z :=
  fromCodePoints (lower_from u [] (codePoints s)).

(** The character class of the first [replace] of [normalizeText]. *)
Definition is_punct (c : Z) : bool :=
  existsb (Z.eqb c) (units JSString.punctuation).

(** The class [\s], which is also what [trim] removes: the white space
    (TAB, VT, FF, U+FEFF and the space separators U+0020, U+00A0, U+1680,
    U+2000 to U+200A, U+202F, U+205F, U+3000) and the line terminators (LF,
    CR, U+2028, U+2029). *)
Definition is_space (c : Z) : bool :=
  (9 <=? c) && (c <=? 13) || (c =? 32) || (c =? 160) || (c =? 5760) ||
  (8192 <=? c) && (c <=? 8202) || (c =? 8232) || (c =? 8233) ||
  (c =? 8239) || (c =? 8287) || (c =? 12288) || (c =? 65279).

(** [s.replace(/[.,/#!$%^&*;:{}=\-_`~()]/g, "")]. *)
Definition remove_punct (s : list Z) : list Z :=
  List.filter (fun c => negb (is_punct c)) s.

(** [s.replace(/\s+/g, " ")]. *)
Fixpoint collapse_from (in_run : bool) (s : list Z) : list Z :=
  match s with
  | [] => []
  | c :: s' =>
      if is_space c
      then if in_run then collapse_from true s'
           else 32 :: collapse_from true s'
      else c :: collapse_from false s'
  end.

Definition collapse_spaces (s : list Z) : list Z := collapse_from false s.

Fixpoint trimStart (s : list Z) : list Z :=
  match s with
  | [] => []
  | c :: s' => if is_space c then trimStart s' else s
  end.

Fixpoint trimEnd (s : list Z) : list Z :=
  match s with
  | [] => []
  | c :: s' =>
      match trimEnd s' with
      | [] => if is_space c then [] else [c]
      | t => c :: t
      end
  end.

Definition trim (s : list Z) : list Z := trimEnd (trimStart s).

(** [s.split(' ')]. *)
Fixpoint split_space (s : list Z) : list (list Z) :=
  match s with
  | [] => [[]]
  | c :: s' =>
      if c =? 32 then [] :: split_space s'
      else match split_space s' with
           | w :: ws => (c :: w) :: ws
           | [] => [[c]]
           end
  end.

(** [normalizeText] on the code units of a text. *)
Definition normalizeText (u : Unicode) (text : list Z) : list Z :=
  trim (collapse_spaces (remove_punct (toLowerCase u text))).

(** What has been seen of a high surrogate that the removal of punctuation
    could bring next to a low surrogate. *)
Inductive Seen := Nothing | High | HighPunct.

(** A high surrogate without its low surrogate is followed by punctuation
    marks of the class, one at least, and then by a low surrogate. *)
Fixpoint joins_from (seen : Seen) (cps : list Z) : bool :=
  match cps with
  | [] => false
  | c :: rest =>
      if is_high c then joins_from High rest
      else if is_low c then
        match seen with
        | HighPunct => true
        | _ => joins_from Nothing rest
        end
      else if is_punct c then
        joins_from (match seen with Nothing => Nothing | _ => HighPunct end)
                   rest
      else joins_from Nothing rest
  end.

(** The removal of punctuation does not make a surrogate pair of two
    surrogates that were apart. *)
Definition joins_nothing (s : list Z) : bool :=
  negb (joins_from Nothing (codePoints s)).

(** A code point that [toLowerCase] leaves as it is, whatever is around
    it. *)
Definition stable (u : Unicode) (c : Z) : bool :=
  negb (c =? 931) && negb (c =? 304) && (simple_lower (lowercase u) c =? c).

(** The code points of a run. *)
Definition run_elements (r : Z * Z * Z * Z) : list Z :=
  let '(first, last, stride, _) := r in
  map (fun k => first + stride * Z.of_nat k)
      (seq 0 (Z.to_nat ((last - first) / stride + 1))).

(** What the statements below need of a table of lower-case mappings: the
    runs are made of code points that are not surrogates, and a code point
    mapped to is a code point, not a surrogate, not a punctuation mark of
    the class, and stable; the space, the punctuation marks and the results
    of the special mappings are stable. *)
Definition target_ok (u : Unicode) (c : Z) : bool :=
  (0 <=? c) && (c <? 1114112) && negb (is_surrogate c) &&
  negb (is_punct c) && stable u c.

Definition run_ok (u : Unicode) (r : Z * Z * Z * Z) : bool :=
  let '(first, last, stride, delta) := r in
  (0 <? stride) && (0 <=? first) &&
  ((last <? 55296) || (57343 <? first)) &&
  forallb (fun c => target_ok u (c + delta)) (run_elements r).

Definition unicode_ok (u : Unicode) : bool :=
  forallb (run_ok u) (lowercase u) &&
  forallb (stable u) (32 :: units JSString.punctuation) &&
  forallb (target_ok u) [962; 963; 105; 775].

(** Code points go from 0 to U+10FFFF. *)
Definition is_codePoint (c : Z) : bool := (0 <=? c) && (c <? 1114112).

(** No high surrogate is followed at once by a low surrogate: the list is
    the list of code points of a string.  [after_high] tells that a high
    surrogate precedes the list. *)
Fixpoint paired_from (after_high : bool) (cps : list Z) : bool :=
  match cps with
  | [] => true
  | c :: rest => negb (after_high && is_low c) && paired_from (is_high c) rest
  end.

(** The only white space is the space character, and no two of them are
    adjacent; [after_space] tells that a space precedes the list. *)
Fixpoint single_spaced (after_space : bool) (s : list Z) : bool :=
  match s with
  | [] => true
  | c :: s' =>
      if is_space c
      then (c =? 32) && negb after_space && single_spaced true s'
      else single_spaced false s'
  end.

Definition starts_space (s : list Z) : bool :=
  match s with
  | [] => false
  | c :: _ => is_space c
  end.

Fixpoint ends_space (s : list Z) : bool :=
  match s with
  | [] => false
  | [c] => is_space c
  | _ :: s' => ends_space s'
  end.

(** A high surrogate comes just before; a high surrogate comes before, with
    at most punctuation in between. *)
Definition seen_high (seen : Seen) : bool :=
  match seen with High => true | _ => false end.

Definition seen_any (seen : Seen) : bool :=
  match seen with Nothing => false | _ => true end.

(** The table maps the first 256 code points as [JSString.lower_char]
    does. *)
Definition latin1_ok (u : Unicode) : bool :=
  forallb (fun n => simple_lower (lowercase u) (Z.of_nat n) =?
                    Z.of_N (N_of_ascii
                              (JSString.lower_char (ascii_of_nat n))))
          (seq 0 256).

(** The simple lower-case mappings of the Unicode Character Database,
    version 14.0: [(first, last, stride, delta)] maps the code points
    [first], [first + stride], ..., up to [last] to themselves plus
    [delta]. *)
Definition lowercase_14 : list (Z * Z * Z * Z) :=
  [
   (65, 90, 1, 32); (192, 214, 1, 32); (216, 222, 1, 32); (256, 302, 2, 1);
   (306, 310, 2, 1); (313, 327, 2, 1); (330, 374, 2, 1); (376, 376, 1, -121);
   (377, 381, 2, 1); (385, 385, 1, 210); (386, 388, 2, 1); (390, 390, 1, 206);
   (391, 391, 1, 1); (393, 394, 1, 205); (395, 395, 1, 1); (398, 398, 1, 79);
   (399, 399, 1, 202); (400, 400, 1, 203); (401, 401, 1, 1); (403, 403, 1, 205);
   (404, 404, 1, 207); (406, 406, 1, 211); (407, 407, 1, 209); (408, 408, 1, 1);
   (412, 412, 1, 211); (413, 413, 1, 213); (415, 415, 1, 214); (416, 420, 2, 1);
   (422, 422, 1, 218); (423, 423, 1, 1); (425, 425, 1, 218); (428, 428, 1, 1);
   (430, 430, 1, 218); (431, 431, 1, 1); (433, 434, 1, 217); (435, 437, 2, 1);
   (439, 439, 1, 219); (440, 440, 1, 1); (444, 444, 1, 1); (452, 452, 1, 2);
   (453, 453, 1, 1); (455, 455, 1, 2); (456, 456, 1, 1); (458, 458, 1, 2);
   (459, 475, 2, 1); (478, 494, 2, 1); (497, 497, 1, 2); (498, 500, 2, 1);
   (502, 502, 1, -97); (503, 503, 1, -56); (504, 542, 2, 1); (544, 544, 1, -130);
   (546, 562, 2, 1); (570, 570, 1, 10795); (571, 571, 1, 1); (573, 573, 1, -163);
   (574, 574, 1, 10792); (577, 577, 1, 1); (579, 579, 1, -195); (580, 580, 1, 69);
   (581, 581, 1, 71); (582, 590, 2, 1); (880, 882, 2, 1); (886, 886, 1, 1);
   (895, 895, 1, 116); (902, 902, 1, 38); (904, 906, 1, 37); (908, 908, 1, 64);
   (910, 911, 1, 63); (913, 929, 1, 32); (931, 939, 1, 32); (975, 975, 1, 8);
   (984, 1006, 2, 1); (1012, 1012, 1, -60); (1015, 1015, 1, 1); (1017, 1017, 1, -7);
   (1018, 1018, 1, 1); (1021, 1023, 1, -130); (1024, 1039, 1, 80); (1040, 1071, 1, 32);
   (1120, 1152, 2, 1); (1162, 1214, 2, 1); (1216, 1216, 1, 15); (1217, 1229, 2, 1);
   (1232, 1326, 2, 1); (1329, 1366, 1, 48); (4256, 4293, 1, 7264); (4295, 4295, 1, 7264);
   (4301, 4301, 1, 7264); (5024, 5103, 1, 38864); (5104, 5109, 1, 8); (7312, 7354, 1, -3008);
   (7357, 7359, 1, -3008); (7680, 7828, 2, 1); (7838, 7838, 1, -7615); (7840, 7934, 2, 1);
   (7944, 7951, 1, -8); (7960, 7965, 1, -8); (7976, 7983, 1, -8); (7992, 7999, 1, -8);
   (8008, 8013, 1, -8); (8025, 8031, 2, -8); (8040, 8047, 1, -8); (8072, 8079, 1, -8);
   (8088, 8095, 1, -8); (8104, 8111, 1, -8); (8120, 8121, 1, -8); (8122, 8123, 1, -74);
   (8124, 8124, 1, -9); (8136, 8139, 1, -86); (8140, 8140, 1, -9); (8152, 8153, 1, -8);
   (8154, 8155, 1, -100); (8168, 8169, 1, -8); (8170, 8171, 1, -112); (8172, 8172, 1, -7);
   (8184, 8185, 1, -128); (8186, 8187, 1, -126); (8188, 8188, 1, -9); (8486, 8486, 1, -7517);
   (8490, 8490, 1, -8383); (8491, 8491, 1, -8262); (8498, 8498, 1, 28); (8544, 8559, 1, 16);
   (8579, 8579, 1, 1); (9398, 9423, 1, 26); (11264, 11311, 1, 48); (11360, 11360, 1, 1);
   (11362, 11362, 1, -10743); (11363, 11363, 1, -3814); (11364, 11364, 1, -10727); (11367, 11371, 2, 1);
   (11373, 11373, 1, -10780); (11374, 11374, 1, -10749); (11375, 11375, 1, -10783); (11376, 11376, 1, -10782);
   (11378, 11378, 1, 1); (11381, 11381, 1, 1); (11390, 11391, 1, -10815); (11392, 11490, 2, 1);
   (11499, 11501, 2, 1); (11506, 11506, 1, 1); (42560, 42604, 2, 1); (42624, 42650, 2, 1);
   (42786, 42798, 2, 1); (42802, 42862, 2, 1); (42873, 42875, 2, 1); (42877, 42877, 1, -35332);
   (42878, 42886, 2, 1); (42891, 42891, 1, 1); (42893, 42893, 1, -42280); (42896, 42898, 2, 1);
   (42902, 42920, 2, 1); (42922, 42922, 1, -42308); (42923, 42923, 1, -42319); (42924, 42924, 1, -42315);
   (42925, 42925, 1, -42305); (42926, 42926, 1, -42308); (42928, 42928, 1, -42258); (42929, 42929, 1, -42282);
   (42930, 42930, 1, -42261); (42931, 42931, 1, 928); (42932, 42946, 2, 1); (42948, 42948, 1, -48);
   (42949, 42949, 1, -42307); (42950, 42950, 1, -35384); (42951, 42953, 2, 1); (42960, 42960, 1, 1);
   (42966, 42968, 2, 1); (42997, 42997, 1, 1); (65313, 65338, 1, 32); (66560, 66599, 1, 40);
   (66736, 66771, 1, 40); (66928, 66938, 1, 39); (66940, 66954, 1, 39); (66956, 66962, 1, 39);
   (66964, 66965, 1, 39); (68736, 68786, 1, 64); (71840, 71871, 1, 32); (93760, 93791, 1, 32);
   (125184, 125217, 1, 34) ].

(** The code points with the property Cased, as ranges. *)
Definition cased_14 : list (Z * Z) :=
  [
   (65, 90); (97, 122); (170, 170); (181, 181); (186, 186); (192, 214);
   (216, 246); (248, 442); (444, 447); (452, 659); (661, 696); (704, 705);
   (736, 740); (837, 837); (880, 883); (886, 887); (890, 893); (895, 895);
   (902, 902); (904, 906); (908, 908); (910, 929); (931, 1013); (1015, 1153);
   (1162, 1327); (1329, 1366); (1376, 1416); (4256, 4293); (4295, 4295); (4301, 4301);
   (4304, 4346); (4349, 4351); (5024, 5109); (5112, 5117); (7296, 7304); (7312, 7354);
   (7357, 7359); (7424, 7615); (7680, 7957); (7960, 7965); (7968, 8005); (8008, 8013);
   (8016, 8023); (8025, 8025); (8027, 8027); (8029, 8029); (8031, 8061); (8064, 8116);
   (8118, 8124); (8126, 8126); (8130, 8132); (8134, 8140); (8144, 8147); (8150, 8155);
   (8160, 8172); (8178, 8180); (8182, 8188); (8305, 8305); (8319, 8319); (8336, 8348);
   (8450, 8450); (8455, 8455); (8458, 8467); (8469, 8469); (8473, 8477); (8484, 8484);
   (8486, 8486); (8488, 8488); (8490, 8493); (8495, 8500); (8505, 8505); (8508, 8511);
   (8517, 8521); (8526, 8526); (8544, 8575); (8579, 8580); (9398, 9449); (11264, 11492);
   (11499, 11502); (11506, 11507); (11520, 11557); (11559, 11559); (11565, 11565); (42560, 42605);
   (42624, 42653); (42786, 42887); (42891, 42894); (42896, 42954); (42960, 42961); (42963, 42963);
   (42965, 42969); (42997, 42998); (43000, 43002); (43824, 43866); (43868, 43880); (43888, 43967);
   (64256, 64262); (64275, 64279); (65313, 65338); (65345, 65370); (66560, 66639); (66736, 66771);
   (66776, 66811); (66928, 66938); (66940, 66954); (66956, 66962); (66964, 66965); (66967, 66977);
   (66979, 66993); (66995, 67001); (67003, 67004); (67456, 67456); (67459, 67461); (67463, 67504);
   (67506, 67514); (68736, 68786); (68800, 68850); (71840, 71903); (93760, 93823); (119808, 119892);
   (119894, 119964); (119966, 119967); (119970, 119970); (119973, 119974); (119977, 119980); (119982, 119993);
   (119995, 119995); (119997, 120003); (120005, 120069); (120071, 120074); (120077, 120084); (120086, 120092);
   (120094, 120121); (120123, 120126); (120128, 120132); (120134, 120134); (120138, 120144); (120146, 120485);
   (120488, 120512); (120514, 120538); (120540, 120570); (120572, 120596); (120598, 120628); (120630, 120654);
   (120656, 120686); (120688, 120712); (120714, 120744); (120746, 120770); (120772, 120779); (122624, 122633);
   (122635, 122654); (125184, 125251); (127280, 127305); (127312, 127337); (127344, 127369) ].

(** The code points with the property Case_Ignorable, as ranges. *)
Definition case_ignorable_14 : list (Z * Z) :=
  [
   (39, 39); (46, 46); (58, 58); (94, 94); (96, 96); (168, 168);
   (173, 173); (175, 175); (180, 180); (183, 184); (688, 879); (884, 885);
   (890, 890); (900, 901); (903, 903); (1155, 1161); (1369, 1369); (1375, 1375);
   (1425, 1469); (1471, 1471); (1473, 1474); (1476, 1477); (1479, 1479); (1524, 1524);
   (1536, 1541); (1552, 1562); (1564, 1564); (1600, 1600); (1611, 1631); (1648, 1648);
   (1750, 1757); (1759, 1768); (1770, 1773); (1807, 1807); (1809, 1809); (1840, 1866);
   (1958, 1968); (2027, 2037); (2042, 2042); (2045, 2045); (2070, 2093); (2137, 2139);
   (2184, 2184); (2192, 2193); (2200, 2207); (2249, 2306); (2362, 2362); (2364, 2364);
   (2369, 2376); (2381, 2381); (2385, 2391); (2402, 2403); (2417, 2417); (2433, 2433);
   (2492, 2492); (2497, 2500); (2509, 2509); (2530, 2531); (2558, 2558); (2561, 2562);
   (2620, 2620); (2625, 2626); (2631, 2632); (2635, 2637); (2641, 2641); (2672, 2673);
   (2677, 2677); (2689, 2690); (2748, 2748); (2753, 2757); (2759, 2760); (2765, 2765);
   (2786, 2787); (2810, 2815); (2817, 2817); (2876, 2876); (2879, 2879); (2881, 2884);
   (2893, 2893); (2901, 2902); (2914, 2915); (2946, 2946); (3008, 3008); (3021, 3021);
   (3072, 3072); (3076, 3076); (3132, 3132); (3134, 3136); (3142, 3144); (3146, 3149);
   (3157, 3158); (3170, 3171); (3201, 3201); (3260, 3260); (3263, 3263); (3270, 3270);
   (3276, 3277); (3298, 3299); (3328, 3329); (3387, 3388); (3393, 3396); (3405, 3405);
   (3426, 3427); (3457, 3457); (3530, 3530); (3538, 3540); (3542, 3542); (3633, 3633);
   (3636, 3642); (3654, 3662); (3761, 3761); (3764, 3772); (3782, 3782); (3784, 3789);
   (3864, 3865); (3893, 3893); (3895, 3895); (3897, 3897); (3953, 3966); (3968, 3972);
   (3974, 3975); (3981, 3991); (3993, 4028); (4038, 4038); (4141, 4144); (4146, 4151);
   (4153, 4154); (4157, 4158); (4184, 4185); (4190, 4192); (4209, 4212); (4226, 4226);
   (4229, 4230); (4237, 4237); (4253, 4253); (4348, 4348); (4957, 4959); (5906, 5908);
   (5938, 5939); (5970, 5971); (6002, 6003); (6068, 6069); (6071, 6077); (6086, 6086);
   (6089, 6099); (6103, 6103); (6109, 6109); (6155, 6159); (6211, 6211); (6277, 6278);
   (6313, 6313); (6432, 6434); (6439, 6440); (6450, 6450); (6457, 6459); (6679, 6680);
   (6683, 6683); (6742, 6742); (6744, 6750); (6752, 6752); (6754, 6754); (6757, 6764);
   (6771, 6780); (6783, 6783); (6823, 6823); (6832, 6862); (6912, 6915); (6964, 6964);
   (6966, 6970); (6972, 6972); (6978, 6978); (7019, 7027); (7040, 7041); (7074, 7077);
   (7080, 7081); (7083, 7085); (7142, 7142); (7144, 7145); (7149, 7149); (7151, 7153);
   (7212, 7219); (7222, 7223); (7288, 7293); (7376, 7378); (7380, 7392); (7394, 7400);
   (7405, 7405); (7412, 7412); (7416, 7417); (7468, 7530); (7544, 7544); (7579, 7679);
   (8125, 8125); (8127, 8129); (8141, 8143); (8157, 8159); (8173, 8175); (8189, 8190);
   (8203, 8207); (8216, 8217); (8228, 8228); (8231, 8231); (8234, 8238); (8288, 8292);
   (8294, 8303); (8305, 8305); (8319, 8319); (8336, 8348); (8400, 8432); (11388, 11389);
   (11503, 11505); (11631, 11631); (11647, 11647); (11744, 11775); (11823, 11823); (12293, 12293);
   (12330, 12333); (12337, 12341); (12347, 12347); (12441, 12446); (12540, 12542); (40981, 40981);
   (42232, 42237); (42508, 42508); (42607, 42610); (42612, 42621); (42623, 42623); (42652, 42655);
   (42736, 42737); (42752, 42785); (42864, 42864); (42888, 42890); (42994, 42996); (43000, 43001);
   (43010, 43010); (43014, 43014); (43019, 43019); (43045, 43046); (43052, 43052); (43204, 43205);
   (43232, 43249); (43263, 43263); (43302, 43309); (43335, 43345); (43392, 43394); (43443, 43443);
   (43446, 43449); (43452, 43453); (43471, 43471); (43493, 43494); (43561, 43566); (43569, 43570);
   (43573, 43574); (43587, 43587); (43596, 43596); (43632, 43632); (43644, 43644); (43696, 43696);
   (43698, 43700); (43703, 43704); (43710, 43711); (43713, 43713); (43741, 43741); (43756, 43757);
   (43763, 43764); (43766, 43766); (43867, 43871); (43881, 43883); (44005, 44005); (44008, 44008);
   (44013, 44013); (64286, 64286); (64434, 64450); (65024, 65039); (65043, 65043); (65056, 65071);
   (65106, 65106); (65109, 65109); (65279, 65279); (65287, 65287); (65294, 65294); (65306, 65306);
   (65342, 65342); (65344, 65344); (65392, 65392); (65438, 65439); (65507, 65507); (65529, 65531);
   (66045, 66045); (66272, 66272); (66422, 66426); (67456, 67461); (67463, 67504); (67506, 67514);
   (68097, 68099); (68101, 68102); (68108, 68111); (68152, 68154); (68159, 68159); (68325, 68326);
   (68900, 68903); (69291, 69292); (69446, 69456); (69506, 69509); (69633, 69633); (69688, 69702);
   (69744, 69744); (69747, 69748); (69759, 69761); (69811, 69814); (69817, 69818); (69821, 69821);
   (69826, 69826); (69837, 69837); (69888, 69890); (69927, 69931); (69933, 69940); (70003, 70003);
   (70016, 70017); (70070, 70078); (70089, 70092); (70095, 70095); (70191, 70193); (70196, 70196);
   (70198, 70199); (70206, 70206); (70367, 70367); (70371, 70378); (70400, 70401); (70459, 70460);
   (70464, 70464); (70502, 70508); (70512, 70516); (70712, 70719); (70722, 70724); (70726, 70726);
   (70750, 70750); (70835, 70840); (70842, 70842); (70847, 70848); (70850, 70851); (71090, 71093);
   (71100, 71101); (71103, 71104); (71132, 71133); (71219, 71226); (71229, 71229); (71231, 71232);
   (71339, 71339); (71341, 71341); (71344, 71349); (71351, 71351); (71453, 71455); (71458, 71461);
   (71463, 71467); (71727, 71735); (71737, 71738); (71995, 71996); (71998, 71998); (72003, 72003);
   (72148, 72151); (72154, 72155); (72160, 72160); (72193, 72202); (72243, 72248); (72251, 72254);
   (72263, 72263); (72273, 72278); (72281, 72283); (72330, 72342); (72344, 72345); (72752, 72758);
   (72760, 72765); (72767, 72767); (72850, 72871); (72874, 72880); (72882, 72883); (72885, 72886);
   (73009, 73014); (73018, 73018); (73020, 73021); (73023, 73029); (73031, 73031); (73104, 73105);
   (73109, 73109); (73111, 73111); (73459, 73460); (78896, 78904); (92912, 92916); (92976, 92982);
   (92992, 92995); (94031, 94031); (94095, 94111); (94176, 94177); (94179, 94180); (110576, 110579);
   (110581, 110587); (110589, 110590); (113821, 113822); (113824, 113827); (118528, 118573); (118576, 118598);
   (119143, 119145); (119155, 119170); (119173, 119179); (119210, 119213); (119362, 119364); (121344, 121398);
   (121403, 121452); (121461, 121461); (121476, 121476); (121499, 121503); (121505, 121519); (122880, 122886);
   (122888, 122904); (122907, 122913); (122915, 122916); (122918, 122922); (123184, 123197); (123566, 123566);
   (123628, 123631); (125136, 125142); (125252, 125259); (127995, 127999); (917505, 917505); (917536, 917631);
   (917760, 917999) ].

Definition unicode_14 : Unicode :=
  mkUnicode lowercase_14 cased_14 case_ignorable_14.

(** The text "　Xin CHÀO,<TAB>ΟΔΟΣ! 𐐀-" followed by a high surrogate without
    its partner and a space, and what it is normalized to. *)
Definition sample_units : list Z :=
  [12288; 88; 105; 110; 32; 67; 72; 192; 79; 44; 9; 927; 916; 927; 931; 33; 32; 55297; 56320; 45; 55297; 32].

Definition sample_normalized : list Z :=
  [120; 105; 110; 32; 99; 104; 224; 111; 32; 959; 948; 959; 962; 32; 55297; 56360; 55297].


End UTF16.

(** * Properties *)

(** ** Text normalization *)

Section Normalization.

Lemma lower_char_folded (c : ascii) : is_folded (lower_char c) = true.
Proof. destruct c as [[] [] [] [] [] [] [] []]; reflexivity. Qed.

Lemma toLowerCase_folded (s : string) : all_chars is_folded (toLowerCase s) = true.
Proof.
  induction s as [|c s IH]; simpl; [reflexivity|].
  now rewrite lower_char_folded, IH.
Qed.

Lemma toLowerCase_fixed (s : string) :
  all_chars is_folded s = true -> toLowerCase s = s.
Proof.
  induction s as [|c s IH]; simpl; [reflexivity|].
  intros [Hc Hs]%andb_true_iff. rewrite (IH Hs). f_equal.
  unfold is_folded in Hc. now apply Ascii.eqb_eq.
Qed.

Lemma remove_punct_all (p : ascii -> bool) (s : string) :
  all_chars p s = true -> all_chars p (remove_punct s) = true.
Proof.
  induction s as [|c s IH]; simpl; [reflexivity|].
  intros [Hc Hs]%andb_true_iff.
  destruct (is_punct c); simpl; [auto|]. now rewrite Hc, IH.
Qed.

Lemma remove_punct_clean (s : string) :
  all_chars (fun c => negb (is_punct c)) (remove_punct s) = true.
Proof.
  induction s as [|c s IH]; simpl; [reflexivity|].
  destruct (is_punct c) eqn:E; simpl; [assumption|]. now rewrite E, IH.
Qed.

Lemma remove_punct_fixed (s : string) :
  all_chars (fun c => negb (is_punct c)) s = true -> remove_punct s = s.
Proof.
  induction s as [|c s IH]; simpl; [reflexivity|].
  intros [Hc Hs]%andb_true_iff.
  apply negb_true_iff in Hc. rewrite Hc. now rewrite IH.
Qed.

Lemma collapse_all (p : ascii -> bool) (b : bool) (s : string) :
  p " "%char = true -> all_chars p s = true ->
  all_chars p (collapse_from b s) = true.
Proof.
  intros Hsp. revert b.
  induction s as [|c s IH]; simpl; intros b; [reflexivity|].
  intros [Hc Hs]%andb_true_iff.
  destruct (is_space c); [destruct b|]; simpl; rewrite ?Hsp, ?Hc; simpl; auto.
Qed.

Lemma collapse_single_spaced (b : bool) (s : string) :
  single_spaced b (collapse_from b s) = true.
Proof.
  revert b. induction s as [|c s IH]; simpl; intros b; [reflexivity|].
  destruct (is_space c) eqn:E.
  - destruct b; [apply IH|]. simpl. apply IH.
  - simpl. rewrite E. apply IH.
Qed.

Lemma collapse_fixed (b : bool) (s : string) :
  single_spaced b s = true -> collapse_from b s = s.
Proof.
  revert b. induction s as [|c s IH]; simpl; intros b; [reflexivity|].
  destruct (is_space c) eqn:E.
  - intros [[Hc Hb]%andb_true_iff Hs]%andb_true_iff.
    apply negb_true_iff in Hb. subst b.
    apply Ascii.eqb_eq in Hc. subst c. now rewrite (IH true Hs).
  - intros Hs. now rewrite (IH false Hs).
Qed.

Lemma single_spaced_weaken (s : string) :
  single_spaced true s = true -> single_spaced false s = true.
Proof.
  destruct s as [|c s]; simpl; [reflexivity|].
  destruct (is_space c); [|auto].
  rewrite andb_false_r. simpl. congruence.
Qed.

Lemma trimStart_all (p : ascii -> bool) (s : string) :
  all_chars p s = true -> all_chars p (trimStart s) = true.
Proof.
  induction s as [|c s IH]; simpl; [reflexivity|].
  intros H. destruct (is_space c); [|exact H].
  apply andb_true_iff in H. now apply IH.
Qed.

Lemma trimEnd_all (p : ascii -> bool) (s : string) :
  all_chars p s = true -> all_chars p (trimEnd s) = true.
Proof.
  induction s as [|c s IH]; simpl; [reflexivity|].
  intros [Hc Hs]%andb_true_iff. specialize (IH Hs).
  destruct (trimEnd s) as [|d t].
  - destruct (is_space c); simpl; [reflexivity|]. now rewrite Hc.
  - change (all_chars p (String c (String d t))) with
      (p c && all_chars p (String d t)). now rewrite Hc, IH.
Qed.

Lemma trimStart_single_spaced (s : string) :
  single_spaced false s = true -> single_spaced false (trimStart s) = true.
Proof.
  induction s as [|c s IH]; simpl; [reflexivity|].
  destruct (is_space c) eqn:E; simpl.
  - intros [_ Hs]%andb_true_iff. apply IH. now apply single_spaced_weaken.
  - rewrite E. auto.
Qed.

Lemma trimEnd_single_spaced (b : bool) (s : string) :
  single_spaced b s = true -> single_spaced b (trimEnd s) = true.
Proof.
  revert b. induction s as [|c s IH]; intros b; simpl; [reflexivity|].
  destruct (is_space c) eqn:E.
  - intros [Hcb Hs]%andb_true_iff. specialize (IH true Hs).
    destruct (trimEnd s) as [|d t]; [reflexivity|].
    change (single_spaced b (String c (String d t)) = true).
    cbn [single_spaced]. rewrite E, Hcb. exact IH.
  - intros Hs. specialize (IH false Hs).
    destruct (trimEnd s) as [|d t].
    + simpl. now rewrite E.
    + change (single_spaced b (String c (String d t)) = true).
      cbn [single_spaced]. rewrite E. exact IH.
Qed.

Lemma trimStart_starts (s : string) : starts_space (trimStart s) = false.
Proof.
  induction s as [|c s IH]; simpl; [reflexivity|].
  destruct (is_space c) eqn:E; [exact IH|]. simpl. exact E.
Qed.

Lemma trimStart_fixed (s : string) : starts_space s = false -> trimStart s = s.
Proof. destruct s as [|c s]; simpl; [reflexivity|]. now intros ->. Qed.

Lemma trimEnd_starts (s : string) :
  starts_space s = false -> starts_space (trimEnd s) = false.
Proof.
  destruct s as [|c s]; simpl; [reflexivity|]. intros E.
  destruct (trimEnd s); [rewrite E|]; simpl; exact E.
Qed.

Lemma trimEnd_ends (s : string) : ends_space (trimEnd s) = false.
Proof.
  induction s as [|c s IH]; simpl; [reflexivity|].
  destruct (trimEnd s) as [|d t] eqn:Et.
  - destruct (is_space c) eqn:E; simpl; [reflexivity|exact E].
  - exact IH.
Qed.

Lemma trimEnd_fixed (s : string) : ends_space s = false -> trimEnd s = s.
Proof.
  induction s as [|c s IH]; [reflexivity|].
  destruct s as [|d t].
  - simpl. now intros ->.
  - intros H. change (ends_space (String d t) = false) in H.
    specialize (IH H). cbn [trimEnd] in *. now rewrite IH.
Qed.

Lemma trim_fixed (s : string) :
  starts_space s = false -> ends_space s = false -> trim s = s.
Proof.
  intros H1 H2. unfold trim. rewrite (trimStart_fixed _ H1).
  now apply trimEnd_fixed.
Qed.

(** On the strings of the first 256 code points, which the 8-bit model
    covers, [normalizeText] is idempotent. *)
Lemma normalizeText_idempotent_latin1 (s : string) :
  normalizeText (normalizeText s) = normalizeText s.
Proof.
  set (t := normalizeText s).
  assert (Hfold : all_chars is_folded t = true).
  { apply trimEnd_all, trimStart_all, collapse_all; [reflexivity|].
    apply remove_punct_all, toLowerCase_folded. }
  assert (Hpunct : all_chars (fun c => negb (is_punct c)) t = true).
  { apply trimEnd_all, trimStart_all, collapse_all; [reflexivity|].
    apply remove_punct_clean. }
  assert (Hsp : single_spaced false t = true).
  { apply trimEnd_single_spaced, trimStart_single_spaced,
      collapse_single_spaced. }
  assert (Hst : starts_space t = false).
  { apply trimEnd_starts, trimStart_starts. }
  assert (Hen : ends_space t = false) by apply trimEnd_ends.
  unfold normalizeText at 1.
  rewrite (toLowerCase_fixed _ Hfold), (remove_punct_fixed _ Hpunct).
  unfold collapse_spaces. rewrite (collapse_fixed _ _ Hsp).
  now apply trim_fixed.
Qed.

End Normalization.

(** ** Text normalization on UTF-16 code units *)

Section Unicode16.

Import UTF16.

(** Lists are taken one or two elements at a time, as [codePoints] does. *)
Lemma list_pair_ind {A : Type} (P : list A -> Prop) :
  P [] -> (forall x, P [x]) ->
  (forall x y l, P l -> P (y :: l) -> P (x :: y :: l)) ->
  forall l, P l.
Proof.
  intros H0 H1 H2 l.
  assert (H : P l /\ forall x, P (x :: l)).
  { induction l as [|y l [IH1 IH2]]; [now split|].
    split; [apply IH2|]. intros x. apply H2; [exact IH1|apply IH2]. }
  apply H.
Qed.

Lemma is_punct_small (c : Z) : is_punct c = true -> 33 <= c <= 126.
Proof.
  unfold is_punct. cbn. rewrite !orb_true_iff, !Z.eqb_eq. lia.
Qed.

Lemma is_space_small (c : Z) : is_space c = true -> 9 <= c <= 65279.
Proof.
  unfold is_space.
  rewrite !orb_true_iff, !andb_true_iff, !Z.eqb_eq, !Z.leb_le. lia.
Qed.

Lemma is_space_not_surrogate (c : Z) :
  is_space c = true -> is_surrogate c = false.
Proof.
  unfold is_space, is_surrogate.
  rewrite !orb_true_iff, !andb_true_iff, !Z.eqb_eq, !Z.leb_le.
  intros H. apply andb_false_iff. rewrite !Z.leb_gt. lia.
Qed.

Lemma is_high_surrogate (c : Z) : is_high c = true -> is_surrogate c = true.
Proof.
  unfold is_high, is_surrogate. rewrite !andb_true_iff, !Z.leb_le. lia.
Qed.

Lemma is_low_surrogate (c : Z) : is_low c = true -> is_surrogate c = true.
Proof.
  unfold is_low, is_surrogate. rewrite !andb_true_iff, !Z.leb_le. lia.
Qed.

Lemma is_high_not_low (c : Z) : is_high c = true -> is_low c = false.
Proof.
  unfold is_high, is_low. rewrite !andb_true_iff, !Z.leb_le.
  intros H. apply andb_false_iff. rewrite !Z.leb_gt. lia.
Qed.

(** *** Code units and code points *)

(** A code point, from 0 to U+10FFFF. *)
Lemma encodeCodePoint_pair (h l : Z) :
  is_high h = true -> is_low l = true ->
  encodeCodePoint (65536 + (h - 55296) * 1024 + (l - 56320)) = [h; l].
Proof.
  unfold is_high, is_low, encodeCodePoint.
  rewrite !andb_true_iff, !Z.leb_le. intros [Hh1 Hh2] [Hl1 Hl2].
  destruct (Z.ltb_spec (65536 + (h - 55296) * 1024 + (l - 56320)) 65536);
    [lia|].
  replace (65536 + (h - 55296) * 1024 + (l - 56320) - 65536)
    with ((l - 56320) + (h - 55296) * 1024) by lia.
  rewrite Z.div_add, Z.mod_add, Z.div_small, Z.mod_small by lia.
  f_equal; [lia|f_equal; lia].
Qed.

Lemma codePoints_pair (h l : Z) (rest : list Z) :
  codePoints (h :: l :: rest) =
  if is_high h && is_low l
  then (65536 + (h - 55296) * 1024 + (l - 56320)) :: codePoints rest
  else h :: codePoints (l :: rest).
Proof. reflexivity. Qed.

Lemma fromCodePoints_cons (c : Z) (cps : list Z) :
  fromCodePoints (c :: cps) = encodeCodePoint c ++ fromCodePoints cps.
Proof. reflexivity. Qed.

Lemma fromCodePoints_app (a b : list Z) :
  fromCodePoints (a ++ b) = fromCodePoints a ++ fromCodePoints b.
Proof. apply flat_map_app. Qed.

Lemma encodeCodePoint_unit (c : Z) : c < 65536 -> encodeCodePoint c = [c].
Proof.
  intros H. unfold encodeCodePoint. destruct (Z.ltb_spec c 65536); [reflexivity|lia].
Qed.

Lemma fromCodePoints_codePoints (s : list Z) :
  is_string s = true -> fromCodePoints (codePoints s) = s.
Proof.
  induction s as [| x | h l rest IH1 IH2] using list_pair_ind; intros Hs.
  - reflexivity.
  - cbn in Hs. unfold is_unit in Hs.
    rewrite andb_true_r, andb_true_iff, Z.ltb_lt in Hs.
    cbn [codePoints]. rewrite fromCodePoints_cons, encodeCodePoint_unit by lia.
    reflexivity.
  - rewrite codePoints_pair.
    assert (Hh : is_unit h = true) by (cbn in Hs; now apply andb_true_iff in Hs).
    assert (Hr : is_string (l :: rest) = true)
      by (cbn in Hs; now apply andb_true_iff in Hs).
    assert (Hrr : is_string rest = true)
      by (cbn in Hr; now apply andb_true_iff in Hr).
    destruct (is_high h && is_low l) eqn:E.
    + apply andb_true_iff in E as [E1 E2].
      rewrite fromCodePoints_cons, encodeCodePoint_pair by assumption.
      cbn [app]. f_equal. f_equal. now apply IH1.
    + rewrite fromCodePoints_cons, IH2 by assumption.
      unfold is_unit in Hh. rewrite andb_true_iff, Z.ltb_lt in Hh.
      now rewrite encodeCodePoint_unit by lia.
Qed.

Lemma head_of_codePoints (h : Z) (rest : list Z) :
  exists c cps, codePoints (h :: rest) = c :: cps /\
                (is_low c = true -> is_low h = true).
Proof.
  destruct rest as [|l rest]; [exists h, []; now split|].
  rewrite codePoints_pair. destruct (is_high h && is_low l) eqn:E.
  - eexists _, _. split; [reflexivity|].
    apply andb_true_iff in E as [E1 E2]. unfold is_high, is_low in *.
    rewrite !andb_true_iff, !Z.leb_le in *. lia.
  - eexists _, _. split; [reflexivity|auto].
Qed.

Lemma paired_codePoints (s : list Z) (after_high : bool) :
  match s with
  | l :: _ => after_high && is_low l = false
  | [] => True
  end ->
  paired_from after_high (codePoints s) = true.
Proof.
  revert after_high.
  induction s as [| x | h l rest IH1 IH2] using list_pair_ind;
    intros after_high Hfirst.
  - reflexivity.
  - cbn. now rewrite Hfirst.
  - rewrite codePoints_pair. destruct (is_high h && is_low l) eqn:E.
    + apply andb_true_iff in E as [E1 E2]. cbn [paired_from].
      assert (Hp : is_low (65536 + (h - 55296) * 1024 + (l - 56320)) = false
                   /\ is_high (65536 + (h - 55296) * 1024 + (l - 56320)) = false).
      { unfold is_high, is_low in *.
        rewrite !andb_true_iff, !Z.leb_le in *.
        split; apply andb_false_iff; rewrite !Z.leb_gt; lia. }
      destruct Hp as [-> ->]. rewrite andb_false_r. cbn [negb andb].
      apply IH1. now destruct rest.
    + cbn [paired_from]. rewrite Hfirst. cbn [negb andb].
      apply IH2. exact E.
Qed.

Lemma codePoints_valid (s : list Z) :
  is_string s = true -> forallb is_codePoint (codePoints s) = true.
Proof.
  induction s as [| x | h l rest IH1 IH2] using list_pair_ind; intros Hs.
  - reflexivity.
  - cbn in *. unfold is_unit, is_codePoint in *.
    rewrite !andb_true_iff, ?Z.leb_le, ?Z.ltb_lt in *. lia.
  - rewrite codePoints_pair.
    assert (Hh : is_unit h = true) by (cbn in Hs; now apply andb_true_iff in Hs).
    assert (Hr : is_string (l :: rest) = true)
      by (cbn in Hs; now apply andb_true_iff in Hs).
    assert (Hrr : is_string rest = true)
      by (cbn in Hr; now apply andb_true_iff in Hr).
    destruct (is_high h && is_low l) eqn:E.
    + apply andb_true_iff in E as [E1 E2]. cbn [forallb].
      rewrite IH1 by assumption. rewrite andb_true_r.
      unfold is_high, is_low, is_codePoint in *.
      rewrite !andb_true_iff, !Z.leb_le, ?Z.ltb_lt in *. lia.
    + cbn [forallb]. rewrite IH2 by assumption. rewrite andb_true_r.
      unfold is_unit, is_codePoint in *.
      rewrite !andb_true_iff, !Z.leb_le, ?Z.ltb_lt in *. lia.
Qed.

Lemma encodeCodePoint_head (c : Z) :
  is_codePoint c = true ->
  exists x rest, encodeCodePoint c = x :: rest /\
                 (is_low x = true -> is_low c = true).
Proof.
  intros Hc. unfold encodeCodePoint. destruct (Z.ltb_spec c 65536).
  - eexists _, _. split; [reflexivity|auto].
  - eexists _, _. split; [reflexivity|].
    unfold is_codePoint in Hc. rewrite andb_true_iff, Z.leb_le, Z.ltb_lt in Hc.
    assert (0 <= (c - 65536) / 1024 < 1024).
    { split; [apply Z.div_pos; lia|apply Z.div_lt_upper_bound; lia]. }
    unfold is_low. rewrite andb_true_iff, !Z.leb_le. lia.
Qed.

Lemma encodeCodePoint_supplementary (c : Z) :
  is_codePoint c = true -> 65536 <= c ->
  exists h l, encodeCodePoint c = [h; l] /\
              is_high h = true /\ is_low l = true /\
              65536 + (h - 55296) * 1024 + (l - 56320) = c.
Proof.
  intros Hc Hge. unfold encodeCodePoint.
  destruct (Z.ltb_spec c 65536); [lia|].
  unfold is_codePoint in Hc. rewrite andb_true_iff, Z.leb_le, Z.ltb_lt in Hc.
  assert (0 <= (c - 65536) / 1024 < 1024).
  { split; [apply Z.div_pos; lia|apply Z.div_lt_upper_bound; lia]. }
  pose proof (Z.mod_pos_bound (c - 65536) 1024 ltac:(lia)).
  pose proof (Z.div_mod (c - 65536) 1024 ltac:(lia)).
  eexists _, _. split; [reflexivity|].
  unfold is_high, is_low. rewrite !andb_true_iff, !Z.leb_le. lia.
Qed.

Lemma codePoints_fromCodePoints (cps : list Z) :
  paired_from false cps = true -> forallb is_codePoint cps = true ->
  codePoints (fromCodePoints cps) = cps.
Proof.
  induction cps as [|c cps IH]; intros Hp Hv; [reflexivity|].
  cbn [paired_from andb negb] in Hp. cbn [forallb] in Hv.
  apply andb_true_iff in Hv as [Hc Hv].
  assert (IH' : paired_from false cps = true -> codePoints (fromCodePoints cps) = cps)
    by (intros H; now apply IH).
  rewrite fromCodePoints_cons.
  destruct (Z.lt_ge_cases c 65536) as [Hlt|Hge].
  - rewrite encodeCodePoint_unit by lia. cbn [app].
    destruct cps as [|c' cps']; [reflexivity|].
    cbn [paired_from] in Hp. apply andb_true_iff in Hp as [Hp1 Hp2].
    cbn [forallb] in Hv. apply andb_true_iff in Hv as [Hc' Hv'].
    destruct (encodeCodePoint_head c' Hc') as (x & rest & Ex & Hx).
    assert (Hno : is_high c && is_low x = false).
    { destruct (is_high c) eqn:Eh; [|reflexivity]. cbn.
      destruct (is_low x) eqn:El; [|reflexivity].
      rewrite (Hx eq_refl) in Hp1. discriminate. }
    assert (E : codePoints (c :: fromCodePoints (c' :: cps')) =
                c :: codePoints (fromCodePoints (c' :: cps'))).
    { rewrite fromCodePoints_cons, Ex. cbn [app].
      rewrite codePoints_pair, Hno. reflexivity. }
    rewrite E. f_equal. apply IH'.
    cbn [paired_from]. rewrite andb_false_l. cbn [negb andb].
    exact Hp2.
  - destruct (encodeCodePoint_supplementary c Hc Hge)
      as (h & l & E & Hh & Hl & Ec).
    rewrite E. cbn [app]. rewrite codePoints_pair, Hh, Hl. cbn [andb].
    rewrite Ec. f_equal. apply IH'.
    assert (Eh : is_high c = false).
    { unfold is_high. apply andb_false_iff. rewrite !Z.leb_gt. lia. }
    rewrite Eh in Hp. destruct cps; [reflexivity|].
    cbn [paired_from] in Hp |- *. now rewrite andb_false_l in *.
Qed.

(** *** The table of lower-case mappings *)

Lemma in_run_elements (first last stride delta c : Z) :
  0 < stride -> in_run (first, last, stride, delta) c = true ->
  In c (run_elements (first, last, stride, delta)).
Proof.
  intros Hs. unfold in_run, run_elements.
  rewrite !andb_true_iff, !Z.leb_le, Z.eqb_eq. intros [[H1 H2] H3].
  apply in_map_iff. exists (Z.to_nat ((c - first) / stride)).
  assert (Hk : 0 <= (c - first) / stride) by (apply Z.div_pos; lia).
  split.
  - rewrite Z2Nat.id by lia.
    pose proof (Z.div_mod (c - first) stride ltac:(lia)). lia.
  - apply in_seq. split; [lia|]. cbn.
    assert ((c - first) / stride <= (last - first) / stride)
      by (apply Z.div_le_mono; lia).
    lia.
Qed.

Section Table.

Variable u : Unicode.
Hypothesis Hok : unicode_ok u = true.

Lemma simple_lower_cases (c : Z) :
  simple_lower (lowercase u) c = c \/
  (target_ok u (simple_lower (lowercase u) c) = true /\
   is_surrogate c = false /\ 0 <= c).
Proof.
  unfold simple_lower.
  destruct (List.find (fun r => in_run r c) (lowercase u)) as [r|] eqn:E;
    [|now left].
  right. apply find_some in E as [Hin Hrun].
  unfold unicode_ok in Hok. apply andb_true_iff in Hok as [Hok' _].
  apply andb_true_iff in Hok' as [Hruns _].
  rewrite forallb_forall in Hruns. specialize (Hruns r Hin).
  destruct r as [[[first last] stride] delta].
  unfold run_ok in Hruns.
  rewrite !andb_true_iff, orb_true_iff, !Z.ltb_lt, Z.leb_le in Hruns.
  destruct Hruns as [[[Hs Hf] Hsur] Hall].
  rewrite forallb_forall in Hall. split; [|split].
  - apply Hall. now apply in_run_elements.
  - unfold in_run in Hrun. rewrite !andb_true_iff, !Z.leb_le in Hrun.
    unfold is_surrogate. apply andb_false_iff. rewrite !Z.leb_gt. lia.
  - unfold in_run in Hrun. rewrite !andb_true_iff, !Z.leb_le in Hrun. lia.
Qed.

Lemma stable_space : stable u 32 = true.
Proof.
  unfold unicode_ok in Hok. apply andb_true_iff in Hok as [Hok' _].
  apply andb_true_iff in Hok' as [_ H]. cbn [forallb] in H.
  now apply andb_true_iff in H as [H _].
Qed.

Lemma stable_punct (c : Z) : is_punct c = true -> stable u c = true.
Proof.
  intros Hc. unfold unicode_ok in Hok. apply andb_true_iff in Hok as [Hok' _].
  apply andb_true_iff in Hok' as [_ H]. cbn [forallb] in H.
  apply andb_true_iff in H as [_ H]. rewrite forallb_forall in H.
  apply H. unfold is_punct in Hc. apply existsb_exists in Hc as (x & Hx & E).
  apply Z.eqb_eq in E. now subst.
Qed.

Lemma target_ok_special (c : Z) :
  In c [962; 963; 105; 775] -> target_ok u c = true.
Proof.
  unfold unicode_ok in Hok. apply andb_true_iff in Hok as [_ H].
  rewrite forallb_forall in H. apply H.
Qed.

Lemma stable_fixed (before_rev after : list Z) (c : Z) :
  stable u c = true -> lower_codePoint u before_rev c after = [c].
Proof.
  unfold stable, lower_codePoint.
  rewrite !andb_true_iff, !negb_true_iff, Z.eqb_eq.
  intros [[-> ->] ->]. reflexivity.
Qed.

(** The code points that [toLowerCase] has lower-case mappings for are
    neither surrogates nor punctuation marks of the class, and what they are
    mapped to is neither, is a code point, and is stable. *)
Lemma lower_codePoint_cases (before_rev after : list Z) (c : Z) :
  lower_codePoint u before_rev c after = [c] \/
  (is_surrogate c = false /\ is_punct c = false /\ 0 <= c /\
   lower_codePoint u before_rev c after <> [] /\
   forallb (target_ok u) (lower_codePoint u before_rev c after) = true).
Proof.
  unfold lower_codePoint.
  destruct (Z.eqb_spec c 931) as [->|H1].
  { right. repeat split; try reflexivity; try lia; try discriminate.
    cbn [forallb]. rewrite andb_true_r.
    destruct (final_sigma u before_rev after); apply target_ok_special;
      cbn; tauto. }
  destruct (Z.eqb_spec c 304) as [->|H2].
  { right. repeat split; try reflexivity; try lia; try discriminate.
    cbn [forallb]. rewrite !target_ok_special by (cbn; tauto). reflexivity. }
  destruct (simple_lower_cases c) as [->|(Ht & Hs & Hc)]; [now left|].
  destruct (is_punct c) eqn:Ep.
  { left. pose proof (stable_punct c Ep) as Hst. unfold stable in Hst.
    rewrite !andb_true_iff, Z.eqb_eq in Hst. destruct Hst as [_ ->].
    reflexivity. }
  right. repeat split; try assumption; try discriminate.
  cbn [forallb]. now rewrite Ht.
Qed.

Lemma target_ok_stable (c : Z) : target_ok u c = true -> stable u c = true.
Proof. unfold target_ok. rewrite !andb_true_iff. tauto. Qed.

Lemma target_ok_codePoint (c : Z) :
  target_ok u c = true -> is_codePoint c = true.
Proof. unfold target_ok, is_codePoint. rewrite !andb_true_iff. tauto. Qed.

Lemma target_ok_other (c : Z) :
  target_ok u c = true -> is_surrogate c = false /\ is_punct c = false.
Proof.
  unfold target_ok. rewrite !andb_true_iff, !negb_true_iff. tauto.
Qed.

End Table.

(** *** What [toLowerCase] keeps *)

Section Lowering.

Variable u : Unicode.
Hypothesis Hok : unicode_ok u = true.

Lemma not_surrogate (c : Z) :
  is_surrogate c = false -> is_high c = false /\ is_low c = false.
Proof.
  intros H. split.
  - destruct (is_high c) eqn:E; [|reflexivity].
    apply is_high_surrogate in E. congruence.
  - destruct (is_low c) eqn:E; [|reflexivity].
    apply is_low_surrogate in E. congruence.
Qed.

Lemma fixed_stable (before_rev after : list Z) (c : Z) :
  lower_codePoint u before_rev c after = [c] -> stable u c = true.
Proof.
  unfold lower_codePoint, stable.
  destruct (Z.eqb_spec c 931) as [->|H1].
  { destruct (final_sigma u before_rev after); discriminate. }
  destruct (Z.eqb_spec c 304) as [->|H2]; [discriminate|].
  intros [= E]. rewrite E. cbn. apply Z.eqb_refl.
Qed.

Lemma lower_from_stable (before_rev cps : list Z) :
  forallb (stable u) (lower_from u before_rev cps) = true.
Proof.
  revert before_rev. induction cps as [|c cps IH]; intros before_rev;
    [reflexivity|].
  cbn [lower_from]. rewrite forallb_app, IH, andb_true_r.
  destruct (lower_codePoint_cases u Hok before_rev cps c) as [E|(_ & _ & _ & _ & H)].
  - rewrite E. cbn. now rewrite (fixed_stable _ _ _ E).
  - rewrite forallb_forall in H |- *. intros x Hx.
    apply (target_ok_stable u). now apply H.
Qed.

Lemma lower_from_valid (before_rev cps : list Z) :
  forallb is_codePoint cps = true ->
  forallb is_codePoint (lower_from u before_rev cps) = true.
Proof.
  revert before_rev. induction cps as [|c cps IH]; intros before_rev Hv;
    [reflexivity|].
  cbn [forallb] in Hv. apply andb_true_iff in Hv as [Hc Hv].
  cbn [lower_from]. rewrite forallb_app, IH, andb_true_r by assumption.
  destruct (lower_codePoint_cases u Hok before_rev cps c) as [E|(_ & _ & _ & _ & H)].
  - rewrite E. cbn. now rewrite Hc.
  - rewrite forallb_forall in H |- *. intros x Hx.
    apply (target_ok_codePoint u). now apply H.
Qed.

Lemma lower_from_fixed (before_rev cps : list Z) :
  forallb (stable u) cps = true -> lower_from u before_rev cps = cps.
Proof.
  revert before_rev. induction cps as [|c cps IH]; intros before_rev Hs;
    [reflexivity|].
  cbn [forallb] in Hs. apply andb_true_iff in Hs as [Hc Hs].
  cbn [lower_from]. rewrite (stable_fixed u _ _ _ Hc), IH by assumption.
  reflexivity.
Qed.

Lemma paired_from_others (b : bool) (os rest : list Z) :
  os <> [] -> forallb (target_ok u) os = true ->
  paired_from b (os ++ rest) = paired_from false rest.
Proof.
  revert b. induction os as [|o os IH]; intros b Hne Hos; [congruence|].
  cbn [forallb] in Hos. apply andb_true_iff in Hos as [Ho Hos].
  destruct (target_ok_other u o Ho) as [Hsur _].
  destruct (not_surrogate o Hsur) as [Hh Hl].
  cbn [app paired_from]. rewrite Hh, Hl, andb_false_r. cbn [negb andb].
  destruct os as [|o' os']; [reflexivity|].
  apply IH; [discriminate|exact Hos].
Qed.

Lemma joins_from_others (seen : Seen) (os rest : list Z) :
  os <> [] -> forallb (target_ok u) os = true ->
  joins_from seen (os ++ rest) = joins_from Nothing rest.
Proof.
  revert seen. induction os as [|o os IH]; intros seen Hne Hos; [congruence|].
  cbn [forallb] in Hos. apply andb_true_iff in Hos as [Ho Hos].
  destruct (target_ok_other u o Ho) as [Hsur Hp].
  destruct (not_surrogate o Hsur) as [Hh Hl].
  cbn [app joins_from]. rewrite Hh, Hl, Hp.
  destruct os as [|o' os']; [reflexivity|].
  apply IH; [discriminate|exact Hos].
Qed.

Lemma lower_from_paired (b : bool) (before_rev cps : list Z) :
  paired_from b (lower_from u before_rev cps) = paired_from b cps.
Proof.
  revert b before_rev. induction cps as [|c cps IH]; intros b before_rev;
    [reflexivity|].
  cbn [lower_from].
  destruct (lower_codePoint_cases u Hok before_rev cps c)
    as [E|(Hsur & _ & _ & Hne & H)].
  - rewrite E. cbn [app paired_from]. now rewrite IH.
  - rewrite (paired_from_others _ _ _ Hne H), IH.
    destruct (not_surrogate c Hsur) as [Hh Hl].
    cbn [paired_from]. rewrite Hh, Hl, andb_false_r. reflexivity.
Qed.

Lemma lower_from_joins (seen : Seen) (before_rev cps : list Z) :
  joins_from seen (lower_from u before_rev cps) = joins_from seen cps.
Proof.
  revert seen before_rev. induction cps as [|c cps IH]; intros seen before_rev;
    [reflexivity|].
  cbn [lower_from].
  destruct (lower_codePoint_cases u Hok before_rev cps c)
    as [E|(Hsur & Hp & _ & Hne & H)].
  - rewrite E. cbn [app joins_from]. now rewrite !IH.
  - rewrite (joins_from_others _ _ _ Hne H), IH.
    destruct (not_surrogate c Hsur) as [Hh Hl].
    cbn [joins_from]. rewrite Hh, Hl, Hp. reflexivity.
Qed.

End Lowering.

(** *** The three replacements on lists of code units or code points *)

Lemma remove_punct_cons (c : Z) (s : list Z) :
  remove_punct (c :: s) =
  if is_punct c then remove_punct s else c :: remove_punct s.
Proof. unfold remove_punct. cbn [List.filter]. now destruct (is_punct c). Qed.

Lemma u16_remove_punct_all (p : Z -> bool) (s : list Z) :
  forallb p s = true -> forallb p (remove_punct s) = true.
Proof.
  induction s as [|c s IH]; [reflexivity|]. cbn [forallb].
  intros [Hc Hs]%andb_true_iff. rewrite remove_punct_cons.
  destruct (is_punct c); cbn [forallb]; [auto|]. now rewrite Hc, IH.
Qed.

Lemma u16_remove_punct_clean (s : list Z) :
  forallb (fun c => negb (is_punct c)) (remove_punct s) = true.
Proof.
  induction s as [|c s IH]; [reflexivity|]. rewrite remove_punct_cons.
  destruct (is_punct c) eqn:E; cbn [forallb]; [assumption|]. now rewrite E, IH.
Qed.

Lemma u16_remove_punct_fixed (s : list Z) :
  forallb (fun c => negb (is_punct c)) s = true -> remove_punct s = s.
Proof.
  induction s as [|c s IH]; [reflexivity|]. cbn [forallb].
  intros [Hc Hs]%andb_true_iff. apply negb_true_iff in Hc.
  rewrite remove_punct_cons, Hc. f_equal. now apply IH.
Qed.

Lemma u16_collapse_all (p : Z -> bool) (b : bool) (s : list Z) :
  p 32 = true -> forallb p s = true ->
  forallb p (collapse_from b s) = true.
Proof.
  intros Hsp. revert b.
  induction s as [|c s IH]; cbn; intros b; [reflexivity|].
  intros [Hc Hs]%andb_true_iff.
  destruct (is_space c); [destruct b|]; cbn; rewrite ?Hsp, ?Hc; cbn; auto.
Qed.

Lemma u16_collapse_single_spaced (b : bool) (s : list Z) :
  single_spaced b (collapse_from b s) = true.
Proof.
  revert b. induction s as [|c s IH]; cbn; intros b; [reflexivity|].
  destruct (is_space c) eqn:E.
  - destruct b; [apply IH|]. cbn. apply IH.
  - cbn. rewrite E. apply IH.
Qed.

Lemma u16_collapse_fixed (b : bool) (s : list Z) :
  single_spaced b s = true -> collapse_from b s = s.
Proof.
  revert b. induction s as [|c s IH]; cbn; intros b; [reflexivity|].
  destruct (is_space c) eqn:E.
  - intros [[Hc Hb]%andb_true_iff Hs]%andb_true_iff.
    apply negb_true_iff in Hb. subst b.
    apply Z.eqb_eq in Hc. subst c. now rewrite (IH true Hs).
  - intros Hs. now rewrite (IH false Hs).
Qed.

Lemma u16_single_spaced_weaken (s : list Z) :
  single_spaced true s = true -> single_spaced false s = true.
Proof.
  destruct s as [|c s]; cbn; [reflexivity|].
  destruct (is_space c); [|auto].
  rewrite andb_false_r. cbn. congruence.
Qed.

Lemma u16_trimStart_all (p : Z -> bool) (s : list Z) :
  forallb p s = true -> forallb p (trimStart s) = true.
Proof.
  induction s as [|c s IH]; cbn; [reflexivity|].
  intros H. destruct (is_space c); [|exact H].
  apply andb_true_iff in H. now apply IH.
Qed.

Lemma trimEnd_cons (c : Z) (s : list Z) :
  trimEnd (c :: s) =
  match trimEnd s with
  | [] => if is_space c then [] else [c]
  | t => c :: t
  end.
Proof. reflexivity. Qed.

Lemma trimEnd_keeps (c : Z) (s : list Z) :
  is_space c = false -> trimEnd (c :: s) = c :: trimEnd s.
Proof.
  intros E. rewrite trimEnd_cons, E. now destruct (trimEnd s).
Qed.

Lemma u16_trimEnd_all (p : Z -> bool) (s : list Z) :
  forallb p s = true -> forallb p (trimEnd s) = true.
Proof.
  induction s as [|c s IH]; [reflexivity|].
  cbn [forallb]. intros [Hc Hs]%andb_true_iff. specialize (IH Hs).
  rewrite trimEnd_cons. destruct (trimEnd s) as [|d t].
  - destruct (is_space c); cbn; [reflexivity|]. now rewrite Hc.
  - cbn [forallb] in *. now rewrite Hc, IH.
Qed.

Lemma u16_trimStart_single_spaced (s : list Z) :
  single_spaced false s = true -> single_spaced false (trimStart s) = true.
Proof.
  induction s as [|c s IH]; cbn; [reflexivity|].
  destruct (is_space c) eqn:E; cbn.
  - intros [_ Hs]%andb_true_iff. apply IH. now apply u16_single_spaced_weaken.
  - rewrite E. auto.
Qed.

Lemma u16_trimEnd_single_spaced (b : bool) (s : list Z) :
  single_spaced b s = true -> single_spaced b (trimEnd s) = true.
Proof.
  revert b. induction s as [|c s IH]; intros b; [reflexivity|].
  rewrite trimEnd_cons. cbn [single_spaced]. destruct (is_space c) eqn:E.
  - intros [Hcb Hs]%andb_true_iff. specialize (IH true Hs).
    destruct (trimEnd s) as [|d t]; [reflexivity|].
    cbn [single_spaced]. rewrite E, Hcb. exact IH.
  - intros Hs. specialize (IH false Hs).
    destruct (trimEnd s) as [|d t].
    + cbn. now rewrite E.
    + cbn [single_spaced]. rewrite E. exact IH.
Qed.

Lemma u16_trimStart_starts (s : list Z) : starts_space (trimStart s) = false.
Proof.
  induction s as [|c s IH]; cbn; [reflexivity|].
  destruct (is_space c) eqn:E; [exact IH|]. cbn. exact E.
Qed.

Lemma u16_trimStart_fixed (s : list Z) :
  starts_space s = false -> trimStart s = s.
Proof. destruct s as [|c s]; cbn; [reflexivity|]. now intros ->. Qed.

Lemma u16_trimEnd_starts (s : list Z) :
  starts_space s = false -> starts_space (trimEnd s) = false.
Proof.
  destruct s as [|c s]; [reflexivity|]. cbn [starts_space]. intros E.
  rewrite trimEnd_cons. destruct (trimEnd s); [rewrite E|]; cbn; exact E.
Qed.

Lemma u16_trimEnd_ends (s : list Z) : ends_space (trimEnd s) = false.
Proof.
  induction s as [|c s IH]; [reflexivity|].
  rewrite trimEnd_cons. destruct (trimEnd s) as [|d t] eqn:Et.
  - destruct (is_space c) eqn:E; cbn; [reflexivity|exact E].
  - exact IH.
Qed.

Lemma u16_trimEnd_fixed (s : list Z) : ends_space s = false -> trimEnd s = s.
Proof.
  induction s as [|c s IH]; [reflexivity|].
  destruct s as [|d t].
  - cbn. now intros ->.
  - intros H. change (ends_space (d :: t) = false) in H.
    specialize (IH H). rewrite trimEnd_cons, IH. reflexivity.
Qed.

Lemma u16_trim_fixed (s : list Z) :
  starts_space s = false -> ends_space s = false -> trim s = s.
Proof.
  intros H1 H2. unfold trim. rewrite (u16_trimStart_fixed _ H1).
  now apply u16_trimEnd_fixed.
Qed.

(** The replacements and the trimming, without the change of case. *)
Lemma replacements_fixed (s : list Z) :
  let t := trim (collapse_spaces (remove_punct s)) in
  trim (collapse_spaces (remove_punct t)) = t.
Proof.
  intros t.
  assert (Hpunct : forallb (fun c => negb (is_punct c)) t = true).
  { apply u16_trimEnd_all, u16_trimStart_all, u16_collapse_all;
      [reflexivity|]. apply u16_remove_punct_clean. }
  assert (Hsp : single_spaced false t = true).
  { apply u16_trimEnd_single_spaced, u16_trimStart_single_spaced,
      u16_collapse_single_spaced. }
  assert (Hst : starts_space t = false).
  { apply u16_trimEnd_starts, u16_trimStart_starts. }
  assert (Hen : ends_space t = false) by apply u16_trimEnd_ends.
  rewrite (u16_remove_punct_fixed _ Hpunct).
  unfold collapse_spaces. rewrite (u16_collapse_fixed _ _ Hsp).
  now apply u16_trim_fixed.
Qed.

Lemma replacements_all (p : Z -> bool) (s : list Z) :
  p 32 = true -> forallb p s = true ->
  forallb p (trim (collapse_spaces (remove_punct s))) = true.
Proof.
  intros Hsp H. apply u16_trimEnd_all, u16_trimStart_all, u16_collapse_all;
    [exact Hsp|]. now apply u16_remove_punct_all.
Qed.

(** *** The replacements act on code points *)

(** The code units of a code point beyond U+FFFF are surrogates: the
    replacements leave them alone. *)
Lemma encodeCodePoint_cases (c : Z) :
  is_codePoint c = true ->
  encodeCodePoint c = [c] \/
  exists h l, encodeCodePoint c = [h; l] /\
              is_punct c = false /\ is_space c = false /\
              is_punct h = false /\ is_space h = false /\
              is_punct l = false /\ is_space l = false.
Proof.
  intros Hc. destruct (Z.lt_ge_cases c 65536) as [Hlt|Hge].
  - left. now apply encodeCodePoint_unit.
  - right. destruct (encodeCodePoint_supplementary c Hc Hge)
      as (h & l & E & Hh & Hl & _).
    exists h, l. split; [exact E|].
    assert (Hbig : forall x, 55296 <= x <= 57343 \/ 65536 <= x ->
                             is_punct x = false /\ is_space x = false).
    { intros x Hx. split.
      - destruct (is_punct x) eqn:Ep; [|reflexivity].
        apply is_punct_small in Ep. lia.
      - destruct (is_space x) eqn:Es; [|reflexivity].
        pose proof (is_space_small x Es).
        apply is_space_not_surrogate in Es. unfold is_surrogate in Es.
        apply andb_false_iff in Es. rewrite !Z.leb_gt in Es. lia. }
    unfold is_high, is_low in Hh, Hl. rewrite !andb_true_iff, !Z.leb_le in Hh, Hl.
    destruct (Hbig c) as [-> ->]; [lia|].
    destruct (Hbig h) as [-> ->]; [lia|].
    destruct (Hbig l) as [-> ->]; [lia|].
    repeat split.
Qed.

Lemma remove_punct_fromCodePoints (cps : list Z) :
  forallb is_codePoint cps = true ->
  remove_punct (fromCodePoints cps) = fromCodePoints (remove_punct cps).
Proof.
  induction cps as [|c cps IH]; [reflexivity|]. cbn [forallb].
  intros [Hc Hv]%andb_true_iff. rewrite fromCodePoints_cons, remove_punct_cons.
  destruct (encodeCodePoint_cases c Hc)
    as [E|(h & l & E & Hp & _ & Hph & _ & Hpl & _)]; rewrite E; cbn [app].
  - rewrite remove_punct_cons.
    destruct (is_punct c); [now apply IH|].
    now rewrite fromCodePoints_cons, E, IH.
  - rewrite Hp, !remove_punct_cons, Hph, Hpl.
    now rewrite fromCodePoints_cons, E, IH.
Qed.

Lemma collapse_fromCodePoints (b : bool) (cps : list Z) :
  forallb is_codePoint cps = true ->
  collapse_from b (fromCodePoints cps) = fromCodePoints (collapse_from b cps).
Proof.
  revert b. induction cps as [|c cps IH]; intros b; [reflexivity|].
  cbn [forallb]. intros [Hc Hv]%andb_true_iff. rewrite fromCodePoints_cons.
  destruct (encodeCodePoint_cases c Hc)
    as [E|(h & l & E & _ & Hs & _ & Hsh & _ & Hsl)]; rewrite E; cbn [app].
  - cbn [collapse_from]. destruct (is_space c); [destruct b|].
    + now apply IH.
    + rewrite fromCodePoints_cons, IH by assumption. reflexivity.
    + rewrite fromCodePoints_cons, E, IH by assumption. reflexivity.
  - cbn [collapse_from]. rewrite Hs, Hsh, Hsl.
    rewrite fromCodePoints_cons, E, IH by assumption. reflexivity.
Qed.

Lemma trimStart_fromCodePoints (cps : list Z) :
  forallb is_codePoint cps = true ->
  trimStart (fromCodePoints cps) = fromCodePoints (trimStart cps).
Proof.
  induction cps as [|c cps IH]; [reflexivity|]. cbn [forallb].
  intros [Hc Hv]%andb_true_iff. rewrite fromCodePoints_cons.
  destruct (encodeCodePoint_cases c Hc)
    as [E|(h & l & E & _ & Hs & _ & Hsh & _ & Hsl)]; rewrite E; cbn [app].
  - cbn [trimStart]. destruct (is_space c); [now apply IH|].
    now rewrite fromCodePoints_cons, E.
  - cbn [trimStart]. rewrite Hs, Hsh.
    now rewrite fromCodePoints_cons, E.
Qed.

Lemma fromCodePoints_nil (cps : list Z) :
  forallb is_codePoint cps = true -> fromCodePoints cps = [] -> cps = [].
Proof.
  destruct cps as [|c cps]; [reflexivity|]. cbn [forallb].
  intros [Hc _]%andb_true_iff. rewrite fromCodePoints_cons.
  destruct (encodeCodePoint_cases c Hc) as [E|(h & l & E & _)]; rewrite E;
    discriminate.
Qed.

Lemma trimEnd_fromCodePoints (cps : list Z) :
  forallb is_codePoint cps = true ->
  trimEnd (fromCodePoints cps) = fromCodePoints (trimEnd cps).
Proof.
  induction cps as [|c cps IH]; [reflexivity|]. cbn [forallb].
  intros [Hc Hv]%andb_true_iff. specialize (IH Hv).
  rewrite fromCodePoints_cons.
  destruct (encodeCodePoint_cases c Hc)
    as [E|(h & l & E & _ & Hs & _ & Hsh & _ & Hsl)]; rewrite E; cbn [app].
  - rewrite !trimEnd_cons, IH.
    destruct (trimEnd cps) as [|d t] eqn:Et.
    + cbn [fromCodePoints flat_map]. destruct (is_space c); [reflexivity|].
      rewrite fromCodePoints_cons, E. reflexivity.
    + assert (Hne : fromCodePoints (d :: t) <> []).
      { intros Hnil. apply fromCodePoints_nil in Hnil; [discriminate|].
        rewrite <- Et. now apply u16_trimEnd_all. }
      destruct (fromCodePoints (d :: t)) as [|x y] eqn:Ef; [congruence|].
      rewrite fromCodePoints_cons, E, Ef. reflexivity.
  - rewrite (trimEnd_keeps h) by assumption.
    rewrite (trimEnd_keeps l) by assumption.
    rewrite (trimEnd_keeps c) by assumption.
    now rewrite IH, fromCodePoints_cons, E.
Qed.

Lemma replacements_fromCodePoints (cps : list Z) :
  forallb is_codePoint cps = true ->
  trim (collapse_spaces (remove_punct (fromCodePoints cps))) =
  fromCodePoints (trim (collapse_spaces (remove_punct cps))).
Proof.
  intros Hv. unfold trim, collapse_spaces.
  rewrite remove_punct_fromCodePoints by assumption.
  rewrite collapse_fromCodePoints by now apply u16_remove_punct_all.
  rewrite trimStart_fromCodePoints
    by (apply u16_collapse_all; [reflexivity|now apply u16_remove_punct_all]).
  rewrite trimEnd_fromCodePoints; [reflexivity|].
  apply u16_trimStart_all, u16_collapse_all; [reflexivity|].
  now apply u16_remove_punct_all.
Qed.

(** *** Surrogates stay apart *)

Lemma remove_punct_paired (seen : Seen) (cps : list Z) :
  paired_from (seen_high seen) cps = true ->
  joins_from seen cps = false ->
  paired_from (seen_any seen) (remove_punct cps) = true.
Proof.
  revert seen. induction cps as [|c cps IH]; intros seen Hp Hj; [reflexivity|].
  cbn [paired_from] in Hp. apply andb_true_iff in Hp as [Hp1 Hp2].
  cbn [joins_from] in Hj. rewrite remove_punct_cons.
  destruct (is_high c) eqn:Eh.
  - assert (El : is_low c = false) by now apply is_high_not_low.
    assert (Ep : is_punct c = false).
    { destruct (is_punct c) eqn:E; [|reflexivity].
      apply is_punct_small in E. unfold is_high in Eh.
      rewrite andb_true_iff, !Z.leb_le in Eh. lia. }
    rewrite Ep. cbn [paired_from]. rewrite El, Eh, andb_false_r.
    cbn [negb andb]. apply (IH High); assumption.
  - destruct (is_low c) eqn:El.
    + assert (Ep : is_punct c = false).
      { destruct (is_punct c) eqn:E; [|reflexivity].
        apply is_punct_small in E. unfold is_low in El.
        rewrite andb_true_iff, !Z.leb_le in El. lia. }
      rewrite Ep. cbn [paired_from]. rewrite Eh, El.
      destruct seen; cbn in Hp1; try discriminate.
      cbn [seen_any negb andb]. apply (IH Nothing); assumption.
    + destruct (is_punct c) eqn:Ep.
      * destruct seen; cbn [seen_any].
        -- apply (IH Nothing); assumption.
        -- apply (IH HighPunct); assumption.
        -- apply (IH HighPunct); assumption.
      * cbn [paired_from]. rewrite El, Eh, andb_false_r. cbn [negb andb].
        apply (IH Nothing); assumption.
Qed.

Lemma collapse_paired (after_high b : bool) (cps : list Z) :
  (b = true -> after_high = false) ->
  paired_from after_high cps = true ->
  paired_from after_high (collapse_from b cps) = true.
Proof.
  revert after_high b. induction cps as [|c cps IH]; intros after_high b Hb Hp;
    [reflexivity|].
  cbn [paired_from] in Hp. apply andb_true_iff in Hp as [Hp1 Hp2].
  cbn [collapse_from]. destruct (is_space c) eqn:Es.
  - pose proof (is_space_not_surrogate c Es) as Hsur.
    assert (Eh : is_high c = false).
    { destruct (is_high c) eqn:E; [|reflexivity].
      apply is_high_surrogate in E. congruence. }
    rewrite Eh in Hp2. destruct b.
    + rewrite (Hb eq_refl). now apply IH.
    + cbn [paired_from]. change (is_low 32) with false.
      change (is_high 32) with false. rewrite andb_false_r. cbn [negb andb].
      now apply IH.
  - cbn [paired_from]. rewrite Hp1. cbn [andb].
    apply IH; [discriminate|exact Hp2].
Qed.

Lemma trimStart_paired (cps : list Z) :
  paired_from false cps = true -> paired_from false (trimStart cps) = true.
Proof.
  induction cps as [|c cps IH]; [reflexivity|]. intros Hp.
  cbn [trimStart]. destruct (is_space c) eqn:Es; [|exact Hp].
  cbn [paired_from] in Hp. apply andb_true_iff in Hp as [_ Hp].
  pose proof (is_space_not_surrogate c Es) as Hsur.
  assert (Eh : is_high c = false).
  { destruct (is_high c) eqn:E; [|reflexivity].
    apply is_high_surrogate in E. congruence. }
  rewrite Eh in Hp. now apply IH.
Qed.

Lemma trimEnd_paired (after_high : bool) (cps : list Z) :
  paired_from after_high cps = true ->
  paired_from after_high (trimEnd cps) = true.
Proof.
  revert after_high. induction cps as [|c cps IH]; intros after_high Hp;
    [reflexivity|].
  cbn [paired_from] in Hp. apply andb_true_iff in Hp as [Hp1 Hp2].
  specialize (IH _ Hp2). rewrite trimEnd_cons.
  destruct (trimEnd cps) as [|d t].
  - destruct (is_space c); [reflexivity|]. cbn [paired_from].
    now rewrite Hp1.
  - cbn [paired_from] in IH |- *. now rewrite Hp1, IH.
Qed.

(** *** Idempotence *)

Lemma normalizeText_codePoints (u : Unicode) (s : list Z) :
  unicode_ok u = true -> is_string s = true -> joins_nothing s = true ->
  exists cps,
    normalizeText u s = fromCodePoints cps /\
    cps = trim (collapse_spaces (remove_punct
                  (lower_from u [] (codePoints s)))) /\
    forallb is_codePoint cps = true /\
    forallb (stable u) cps = true /\
    paired_from false cps = true.
Proof.
  intros Hu Hs Hj.
  set (cps1 := lower_from u [] (codePoints s)).
  assert (Hv1 : forallb is_codePoint cps1 = true)
    by now apply lower_from_valid, codePoints_valid.
  assert (Hp1 : paired_from false cps1 = true).
  { unfold cps1. rewrite lower_from_paired by assumption.
    apply paired_codePoints. now destruct s. }
  assert (Hj1 : joins_from Nothing cps1 = false).
  { unfold cps1. rewrite lower_from_joins by assumption.
    unfold joins_nothing in Hj. now apply negb_true_iff in Hj. }
  exists (trim (collapse_spaces (remove_punct cps1))).
  split; [|split; [reflexivity|split; [|split]]].
  - unfold normalizeText, toLowerCase. fold cps1.
    now apply replacements_fromCodePoints.
  - now apply replacements_all.
  - apply replacements_all; [now apply stable_space|].
    now apply lower_from_stable.
  - apply trimEnd_paired, trimStart_paired, collapse_paired; [discriminate|].
    now apply (remove_punct_paired Nothing).
Qed.

(** C9 (as stated) fails: a string is a sequence of UTF-16 code units, and
    the removal of the punctuation can bring two surrogates together.  In the
    string U+D801 "." U+DC00 the two surrogates are no letter; without the
    full stop they are the pair of U+10400, a capital letter, which a second
    normalization turns into the small letter U+10428. *)
Lemma normalizeText_joins_surrogates :
  is_string [55297; 46; 56320] = true /\
  normalizeText unicode_14 [55297; 46; 56320] = [55297; 56320] /\
  normalizeText unicode_14 (normalizeText unicode_14 [55297; 46; 56320]) =
    [55297; 56360] /\
  codePoints [55297; 56320] = [66560] /\
  codePoints [55297; 56360] = [66600].
Proof. vm_compute. repeat split. Qed.

Lemma unicode_14_ok : unicode_ok unicode_14 = true.
Proof. vm_compute. reflexivity. Qed.

Lemma normalizeText_fixed (u : Unicode) (s : list Z) :
  unicode_ok u = true -> is_string s = true -> joins_nothing s = true ->
  normalizeText u (normalizeText u s) = normalizeText u s.
Proof.
  intros Hu Hs Hj.
  destruct (normalizeText_codePoints u s Hu Hs Hj)
    as (cps & E & Ecps & Hv & Hst & Hp).
  rewrite E. unfold normalizeText at 1. unfold toLowerCase.
  rewrite codePoints_fromCodePoints by assumption.
  rewrite lower_from_fixed by assumption.
  rewrite replacements_fromCodePoints by assumption.
  f_equal. rewrite Ecps. apply replacements_fixed.
Qed.

(** A string in which every surrogate has its partner has nothing to
    join. *)
Lemma paired_joins_nothing (s : list Z) :
  forallb (fun c => negb (is_surrogate c)) (codePoints s) = true ->
  joins_nothing s = true.
Proof.
  unfold joins_nothing. generalize (codePoints s) as cps. intros cps H.
  apply negb_true_iff. generalize Nothing as seen.
  induction cps as [|c cps IH]; intros seen; [reflexivity|].
  cbn [forallb] in H. apply andb_true_iff in H as [Hc H].
  apply negb_true_iff in Hc. cbn [joins_from].
  destruct (is_high c) eqn:Eh.
  { apply is_high_surrogate in Eh. congruence. }
  destruct (is_low c) eqn:El.
  { apply is_low_surrogate in El. congruence. }
  destruct (is_punct c); now apply IH.
Qed.

(** C9 (as amended): [normalizeText] is idempotent on every string in which
    the removal of the punctuation marks does not bring a high surrogate
    that is without its low surrogate next to a low surrogate.  This is so
    with the lower-case mappings of Unicode 14, and with every table of
    mappings ([unicode_ok]) that leaves the surrogates, the space and the
    punctuation marks of the class as they are and whose results are code
    points that are neither surrogates nor punctuation marks of the class
    and that it leaves as they are.  Every string in which each surrogate
    has its partner is such a string. *)
Theorem normalizeText_utf16_idempotent (s : list Z)
  (Hs : is_string s = true) :
  (joins_nothing s = true ->
   normalizeText unicode_14 (normalizeText unicode_14 s) =
     normalizeText unicode_14 s /\
   forall u, unicode_ok u = true ->
     normalizeText u (normalizeText u s) = normalizeText u s) /\
  (forallb (fun c => negb (is_surrogate c)) (codePoints s) = true ->
   joins_nothing s = true).
Proof.
  split; [|apply paired_joins_nothing].
  intros Hj. split.
  - apply normalizeText_fixed; [apply unicode_14_ok|exact Hs|exact Hj].
  - intros u Hu. now apply normalizeText_fixed.
Qed.

Lemma normalizeText_utf16_idempotent_witness :
  is_string sample_units = true /\
  joins_nothing sample_units = true /\
  normalizeText unicode_14 sample_units = sample_normalized /\
  normalizeText unicode_14 sample_normalized = sample_normalized.
Proof.
  assert (Hs : is_string sample_units = true) by (vm_compute; reflexivity).
  assert (Hj : joins_nothing sample_units = true) by (vm_compute; reflexivity).
  assert (E : normalizeText unicode_14 sample_units = sample_normalized)
    by (vm_compute; reflexivity).
  split; [exact Hs|]. split; [exact Hj|]. split; [exact E|].
  destruct (normalizeText_utf16_idempotent sample_units Hs) as [H _].
  destruct (H Hj) as [H14 _]. rewrite E in H14. exact H14.
Defined.

(** *** The words of a normalized text *)

Lemma split_space_cons (c : Z) (s : list Z) :
  split_space (c :: s) =
  if c =? 32 then [] :: split_space s
  else match split_space s with
       | w :: ws => (c :: w) :: ws
       | [] => [[c]]
       end.
Proof. reflexivity. Qed.

Lemma split_space_nonempty (s : list Z) : split_space s <> [].
Proof.
  destruct s as [|c s]; [discriminate|]. rewrite split_space_cons.
  destruct (c =? 32); [discriminate|]. destruct (split_space s); discriminate.
Qed.

Lemma u16_split_space_all (p : Z -> bool) (t : list Z) :
  forallb p t = true ->
  forall w, In w (split_space t) ->
    forallb (fun c => p c && negb (c =? 32)) w = true.
Proof.
  induction t as [|c t IH]; [intros _ w [<-|[]]; reflexivity|].
  cbn [forallb]. intros [Hc Ht]%andb_true_iff w Hw. specialize (IH Ht).
  rewrite split_space_cons in Hw. destruct (c =? 32) eqn:Ec.
  - destruct Hw as [<-|Hw]; [reflexivity|now apply IH].
  - destruct (split_space t) as [|w0 ws].
    + destruct Hw as [<-|[]]. cbn. now rewrite Hc, Ec.
    + destruct Hw as [<-|Hw]; [|apply IH; now right].
      cbn [forallb]. rewrite Hc, Ec. cbn. apply IH. now left.
Qed.

Lemma u16_single_spaced_all (b : bool) (t : list Z) :
  single_spaced b t = true ->
  forallb (fun c => negb (is_space c) || (c =? 32)) t = true.
Proof.
  revert b. induction t as [|c t IH]; intros b; cbn; [reflexivity|].
  destruct (is_space c).
  - intros [[-> _]%andb_true_iff H]%andb_true_iff. cbn. now apply (IH true).
  - intros H. cbn. now apply (IH false).
Qed.

Lemma forallb_and (p q : Z -> bool) (t : list Z) :
  forallb p t = true -> forallb q t = true ->
  forallb (fun c => p c && q c) t = true.
Proof.
  induction t as [|c t IH]; cbn; [reflexivity|].
  intros [-> Hp]%andb_true_iff [-> Hq]%andb_true_iff. cbn. now apply IH.
Qed.

Lemma forallb_impl (p q : Z -> bool) (t : list Z) :
  (forall c, p c = true -> q c = true) ->
  forallb p t = true -> forallb q t = true.
Proof.
  intros Hpq. induction t as [|c t IH]; cbn; [reflexivity|].
  intros [Hc Ht]%andb_true_iff. now rewrite (Hpq c Hc), IH.
Qed.

Lemma u16_split_space_words (t : list Z) :
  single_spaced false t = true -> ends_space t = false ->
  match split_space t with
  | [] => False
  | w :: ws =>
      (forall w', In w' ws -> w' <> []) /\
      (w = [] -> t = [] \/ starts_space t = true)
  end.
Proof.
  induction t as [|c t IH]; [cbn; intros _ _; split; [intros ? []|auto]|].
  intros Hs He.
  assert (Hs' : single_spaced false t = true).
  { cbn [single_spaced] in Hs. destruct (is_space c); [|exact Hs].
    apply andb_true_iff in Hs as [_ Hs]. now apply u16_single_spaced_weaken. }
  destruct t as [|d t'].
  - cbn [ends_space] in He. rewrite split_space_cons.
    destruct (Z.eqb_spec c 32) as [->|Hc]; [discriminate|].
    cbn. split; [intros ? []|discriminate].
  - assert (He' : ends_space (d :: t') = false) by exact He.
    specialize (IH Hs' He'). rewrite split_space_cons.
    destruct (split_space (d :: t')) as [|w ws] eqn:Esp; [contradiction|].
    destruct IH as [Hws Hw].
    destruct (Z.eqb_spec c 32) as [->|Hc].
    + split; [|intros _; right; reflexivity].
      intros w' [<-|Hw']; [|now apply Hws].
      intros E. destruct (Hw E) as [Hemp|Hst]; [discriminate Hemp|].
      cbn [single_spaced starts_space] in Hs, Hst.
      change (is_space 32) with true in Hs. cbv iota in Hs.
      rewrite Hst in Hs. cbn in Hs.
      destruct (d =? 32); discriminate.
    + split; [exact Hws|discriminate].
Qed.

Lemma split_space_fromCodePoints (cps : list Z) :
  forallb is_codePoint cps = true ->
  split_space (fromCodePoints cps) = map fromCodePoints (split_space cps).
Proof.
  induction cps as [|c cps IH]; [reflexivity|]. cbn [forallb].
  intros [Hc Hv]%andb_true_iff. specialize (IH Hv).
  rewrite fromCodePoints_cons, (split_space_cons c).
  destruct (encodeCodePoint_cases c Hc)
    as [E|(h & l & E & _ & Hs & _ & Hsh & _ & Hsl)]; rewrite E; cbn [app].
  - rewrite split_space_cons, IH. destruct (c =? 32); [reflexivity|].
    pose proof (split_space_nonempty cps) as Hne.
    destruct (split_space cps) as [|w ws]; [congruence|].
    cbn [map]. now rewrite fromCodePoints_cons, E.
  - assert (Hn : forall x, is_space x = false -> (x =? 32) = false).
    { intros x Hx. destruct (Z.eqb_spec x 32) as [->|]; [discriminate|reflexivity]. }
    rewrite !split_space_cons, IH, (Hn c Hs), (Hn h Hsh), (Hn l Hsl).
    pose proof (split_space_nonempty cps) as Hne.
    destruct (split_space cps) as [|w ws]; [congruence|].
    cbn [map]. now rewrite fromCodePoints_cons, E.
Qed.

Lemma split_space_paired (b : bool) (cps : list Z) :
  paired_from b cps = true ->
  match split_space cps with
  | [] => False
  | w :: ws =>
      paired_from b w = true /\
      forall w', In w' ws -> paired_from false w' = true
  end.
Proof.
  revert b. induction cps as [|c cps IH]; intros b Hp;
    [split; [reflexivity|intros ? []]|].
  cbn [paired_from] in Hp. apply andb_true_iff in Hp as [Hp1 Hp2].
  specialize (IH _ Hp2). rewrite split_space_cons.
  destruct (split_space cps) as [|w ws]; [contradiction|].
  destruct IH as [Hw Hws].
  destruct (Z.eqb_spec c 32) as [->|Hc].
  - split; [reflexivity|]. intros w' [<-|Hw']; [exact Hw|now apply Hws].
  - split; [|exact Hws]. cbn [paired_from]. now rewrite Hp1, Hw.
Qed.

(** X16: the words that the writing check compares are clean.  Unless the
    whole text normalizes to the empty string (and then the only word is the
    empty one), no word of a normalized text is empty, and none holds a
    white-space character or a punctuation mark of the class removed.  When
    the removal of the punctuation has joined no surrogates, every word is in
    lower case: [toLowerCase] leaves it as it is.  The last holds for every
    table of lower-case mappings that passes [unicode_ok], as the table of
    Unicode 14 does. *)
Theorem normalized_words (u : Unicode) (s : list Z) :
  let t := normalizeText u s in
  (t = [] -> split_space t = [[]]) /\
  (t <> [] ->
   forall w, In w (split_space t) ->
     w <> [] /\
     forallb (fun c => negb (is_space c) && negb (is_punct c)) w = true) /\
  (unicode_ok u = true -> is_string s = true -> joins_nothing s = true ->
   forall w, In w (split_space t) -> toLowerCase u w = w) /\
  unicode_ok unicode_14 = true.
Proof.
  intros t. split; [now intros ->|]. split; [|split; [|apply unicode_14_ok]].
  - intros Hne w Hw.
    assert (Hpunct : forallb (fun c => negb (is_punct c)) t = true).
    { apply u16_trimEnd_all, u16_trimStart_all, u16_collapse_all;
        [reflexivity|]. apply u16_remove_punct_clean. }
    assert (Hsp : single_spaced false t = true).
    { apply u16_trimEnd_single_spaced, u16_trimStart_single_spaced,
        u16_collapse_single_spaced. }
    assert (Hst : starts_space t = false).
    { apply u16_trimEnd_starts, u16_trimStart_starts. }
    assert (Hen : ends_space t = false) by apply u16_trimEnd_ends.
    split.
    + pose proof (u16_split_space_words t Hsp Hen) as Hwords.
      destruct (split_space t) as [|w0 ws]; [contradiction|].
      destruct Hwords as [Hws Hw0]. destruct Hw as [<-|Hw]; [|now apply Hws].
      intros E. destruct (Hw0 E) as [|H]; [contradiction|congruence].
    + pose proof (forallb_and _ _ t (u16_single_spaced_all _ _ Hsp) Hpunct)
        as Hall.
      pose proof (u16_split_space_all _ t Hall w Hw) as Hclean.
      revert Hclean. apply forallb_impl. intros c.
      destruct (is_space c), (is_punct c), (c =? 32); cbn; congruence.
  - intros Hu Hs Hj w Hw.
    destruct (normalizeText_codePoints u s Hu Hs Hj)
      as (cps & E & _ & Hv & Hst & Hp).
    unfold t in Hw. rewrite E, split_space_fromCodePoints in Hw by assumption.
    apply in_map_iff in Hw as (wc & <- & Hwc).
    assert (Hwst : forallb (fun c => stable u c && is_codePoint c) wc = true).
    { pose proof (u16_split_space_all _ cps (forallb_and _ _ cps Hst Hv) wc Hwc)
        as H.
      revert H. apply forallb_impl. intros c. now rewrite andb_true_iff. }
    assert (Hwp : paired_from false wc = true).
    { pose proof (split_space_paired false cps Hp) as H.
      destruct (split_space cps) as [|w0 ws]; [contradiction|].
      destruct H as [H0 Hws]. destruct Hwc as [<-|Hwc]; [exact H0|now apply Hws]. }
    unfold toLowerCase.
    rewrite codePoints_fromCodePoints;
      [|exact Hwp|revert Hwst; apply forallb_impl; intros c;
                  now rewrite andb_true_iff].
    rewrite lower_from_fixed; [reflexivity|].
    revert Hwst. apply forallb_impl. intros c. now rewrite andb_true_iff.
Qed.

End Unicode16.

(** ** The 8-bit model and the UTF-16 model *)

Section Latin1.

(** *** Strings of the first 256 code points *)

Lemma units_code (a : ascii) : 0 <= Z.of_N (N_of_ascii a) < 256.
Proof.
  pose proof (N_ascii_bounded a). lia.
Qed.

Lemma is_punct_units (a : ascii) :
  UTF16.is_punct (Z.of_N (N_of_ascii a)) = JSString.is_punct a.
Proof. destruct a as [[] [] [] [] [] [] [] []]; reflexivity. Qed.

Lemma is_space_units (a : ascii) :
  UTF16.is_space (Z.of_N (N_of_ascii a)) = JSString.is_space a.
Proof. destruct a as [[] [] [] [] [] [] [] []]; reflexivity. Qed.

Lemma codePoints_units (s : string) :
  UTF16.codePoints (UTF16.units s) = UTF16.units s.
Proof.
  induction s as [|a s IH]; [reflexivity|]. cbn [UTF16.units] in *.
  destruct s as [|b s']; [reflexivity|]. cbn [UTF16.units] in *.
  rewrite codePoints_pair.
  assert (E : UTF16.is_high (Z.of_N (N_of_ascii a)) = false).
  { pose proof (units_code a). unfold UTF16.is_high. apply andb_false_iff.
    rewrite !Z.leb_gt. lia. }
  rewrite E. cbn [andb]. now rewrite IH.
Qed.

Lemma fromCodePoints_units (s : string) :
  UTF16.fromCodePoints (UTF16.units s) = UTF16.units s.
Proof.
  induction s as [|a s IH]; [reflexivity|]. cbn [UTF16.units].
  rewrite fromCodePoints_cons, IH, encodeCodePoint_unit; [reflexivity|].
  pose proof (units_code a). lia.
Qed.

Lemma lower_from_units (u : UTF16.Unicode) (before_rev : list Z) (s : string) :
  UTF16.latin1_ok u = true ->
  UTF16.lower_from u before_rev (UTF16.units s) =
    UTF16.units (JSString.toLowerCase s).
Proof.
  intros Hu. revert before_rev. induction s as [|a s IH]; intros before_rev;
    [reflexivity|].
  cbn [UTF16.units JSString.toLowerCase UTF16.lower_from]. rewrite IH.
  unfold UTF16.lower_codePoint. pose proof (units_code a) as Ha.
  destruct (Z.eqb_spec (Z.of_N (N_of_ascii a)) 931); [lia|].
  destruct (Z.eqb_spec (Z.of_N (N_of_ascii a)) 304); [lia|].
  cbn [app]. f_equal.
  unfold UTF16.latin1_ok in Hu. rewrite forallb_forall in Hu.
  specialize (Hu (nat_of_ascii a)).
  rewrite ascii_nat_embedding in Hu. unfold nat_of_ascii in Hu.
  rewrite N_nat_Z in Hu. apply Z.eqb_eq, Hu.
  apply in_seq. pose proof (N_ascii_bounded a). lia.
Qed.

Lemma remove_punct_units (s : string) :
  UTF16.remove_punct (UTF16.units s) = UTF16.units (JSString.remove_punct s).
Proof.
  induction s as [|a s IH]; [reflexivity|].
  cbn [UTF16.units JSString.remove_punct]. rewrite remove_punct_cons, is_punct_units.
  destruct (JSString.is_punct a); [exact IH|]. cbn [UTF16.units]. now rewrite IH.
Qed.

Lemma collapse_units (b : bool) (s : string) :
  UTF16.collapse_from b (UTF16.units s) =
    UTF16.units (JSString.collapse_from b s).
Proof.
  revert b. induction s as [|a s IH]; intros b; [reflexivity|].
  cbn [UTF16.units JSString.collapse_from UTF16.collapse_from]. rewrite is_space_units.
  destruct (JSString.is_space a); [destruct b|]; cbn [UTF16.units]; now rewrite IH.
Qed.

Lemma trimStart_units (s : string) :
  UTF16.trimStart (UTF16.units s) = UTF16.units (JSString.trimStart s).
Proof.
  induction s as [|a s IH]; [reflexivity|].
  cbn [UTF16.units JSString.trimStart UTF16.trimStart]. rewrite is_space_units.
  now destruct (JSString.is_space a).
Qed.

Lemma trimEnd_units (s : string) :
  UTF16.trimEnd (UTF16.units s) = UTF16.units (JSString.trimEnd s).
Proof.
  induction s as [|a s IH]; [reflexivity|].
  cbn [UTF16.units JSString.trimEnd]. rewrite trimEnd_cons, IH, is_space_units.
  destruct (JSString.trimEnd s) as [|d t]; cbn [UTF16.units].
  - now destruct (JSString.is_space a).
  - reflexivity.
Qed.

Lemma split_space_units (s : string) :
  UTF16.split_space (UTF16.units s) = map UTF16.units (JSString.split_space s).
Proof.
  induction s as [|a s IH]; [reflexivity|].
  cbn [UTF16.units JSString.split_space]. rewrite split_space_cons, IH.
  assert (E : (Z.of_N (N_of_ascii a) =? 32) = Ascii.eqb a " ").
  { destruct a as [[] [] [] [] [] [] [] []]; reflexivity. }
  rewrite E. destruct (Ascii.eqb a " "); [reflexivity|].
  destruct (JSString.split_space s); reflexivity.
Qed.

Lemma units_inj (s t : string) : UTF16.units s = UTF16.units t -> s = t.
Proof.
  revert t. induction s as [|a s IH]; intros [|b t]; cbn [UTF16.units];
    try discriminate; [reflexivity|].
  intros [= E1 E2]. f_equal; [|now apply IH].
  apply N2Z.inj in E1. rewrite <- (ascii_N_embedding a), <- (ascii_N_embedding b).
  now rewrite E1.
Qed.

(** X19: on the strings of the first 256 code points the functions on
    8-bit strings compute what the functions on code units do: the text
    normalized and its words are the same, for every table of lower-case
    mappings that agrees with Unicode on these code points. *)
Theorem normalizeText_units (u : UTF16.Unicode) (s : string)
  (Hu : UTF16.latin1_ok u = true) :
  UTF16.normalizeText u (UTF16.units s) = UTF16.units (normalizeText s) /\
  UTF16.split_space (UTF16.normalizeText u (UTF16.units s)) =
    map UTF16.units (JSString.split_space (normalizeText s)) /\
  UTF16.is_string (UTF16.units s) = true /\
  UTF16.joins_nothing (UTF16.units s) = true.
Proof.
  assert (Hsmall : forallb (fun c => (0 <=? c) && (c <? 256)) (UTF16.units s)
                   = true).
  { induction s as [|a s IH]; [reflexivity|]. cbn [UTF16.units forallb].
    rewrite IH, andb_true_r. pose proof (units_code a).
    apply andb_true_iff. rewrite Z.leb_le, Z.ltb_lt. lia. }
  assert (E : UTF16.normalizeText u (UTF16.units s) =
              UTF16.units (normalizeText s)).
  { unfold UTF16.normalizeText, normalizeText, UTF16.toLowerCase,
      UTF16.trim, JSString.trim, UTF16.collapse_spaces, JSString.collapse_spaces.
    rewrite codePoints_units. rewrite (lower_from_units u [] s Hu).
    rewrite fromCodePoints_units, remove_punct_units, collapse_units.
    rewrite trimStart_units, trimEnd_units. reflexivity. }
  split; [exact E|]. split; [rewrite E; apply split_space_units|].
  split.
  - revert Hsmall. apply forallb_impl. intros c. unfold UTF16.is_unit.
    rewrite !andb_true_iff, !Z.leb_le, !Z.ltb_lt. lia.
  - apply paired_joins_nothing. rewrite codePoints_units.
    revert Hsmall. apply forallb_impl. intros c. unfold UTF16.is_surrogate.
    rewrite !andb_true_iff, !Z.leb_le, !Z.ltb_lt. intros H.
    apply negb_true_iff, andb_false_iff. rewrite !Z.leb_gt. lia.
Qed.

Lemma normalizeText_units_witness :
  UTF16.latin1_ok UTF16.unicode_14 = true /\
  UTF16.normalizeText UTF16.unicode_14 (UTF16.units "The cat  SAT.") =
    UTF16.units "the cat sat".
Proof.
  assert (Hu : UTF16.latin1_ok UTF16.unicode_14 = true)
    by (vm_compute; reflexivity).
  split; [exact Hu|].
  destruct (normalizeText_units UTF16.unicode_14 "The cat  SAT." Hu) as [E _].
  rewrite E. reflexivity.
Defined.

End Latin1.

(** ** The phrase library *)

Section Library.



Lemma NoDup_ids_cons (p : SavedPhrase) (l : list SavedPhrase) :
  NoDup (map id (p :: l)) <->
  NoDup (map id l) /\ (forall q, In q l -> id q <> id p).
Proof.
  cbn [map]. rewrite NoDup_cons, list_elem_of_fmap. split.
  - intros [Hnot Hnd]. split; [exact Hnd|]. intros q Hq E. apply Hnot.
    exists q. split; [now symmetry|now apply list_elem_of_In].
  - intros [Hnd Hne]. split; [|exact Hnd]. intros (q & E & Hq).
    apply (Hne q); [now apply list_elem_of_In|now symmetry].
Qed.

(** C6 (as stated) fails: the identifier is the string that
    [crypto.randomUUID()] returns, and nothing compares it with the
    identifiers in the library.  When the string returned is the identifier
    of a stored phrase, the new phrase is stored with that identifier a
    second time. *)
Lemma saved_id_not_unique :
  savedPhrases (handleSavePhrase sample_uuid 7 app_uuid) =
    [mkSavedPhrase sample_uuid "Good morning" "" 7 None (Some 0);
     mkSavedPhrase sample_uuid "Hello world" "" 1 (Some 90) (Some 2)] /\
  trim (targetText app_uuid) <> "" /\
  NoDup (map id (savedPhrases app_uuid)) /\
  ~ NoDup (map id (savedPhrases (handleSavePhrase sample_uuid 7 app_uuid))).
Proof.
  split; [reflexivity|]. split; [discriminate|]. split.
  - repeat constructor. rewrite list_elem_of_In. intros [].
  - intros H. apply NoDup_cons in H as [H _]. apply H. now left.
Qed.

(** C6 (as amended): [handleSavePhrase] does nothing when the target text
    trims to the empty string; otherwise it puts in front of the stored
    sequence a phrase with the trimmed text and note, [practiceCount = 0], no
    [lastScore] and, as identifier, the string [crypto.randomUUID()] returned.
    The identifiers of the library are pairwise different afterwards exactly
    when they were before and the string returned is none of them. *)
Theorem handleSavePhrase_spec (uuid : string) (now : Z) (s : App) :
  let s' := handleSavePhrase uuid now s in
  (trim (targetText s) = "" -> s' = s) /\
  (trim (targetText s) <> "" ->
   exists p,
     savedPhrases s' = p :: savedPhrases s /\
     fluentify_phrases s' = Some (p :: savedPhrases s) /\
     id p = uuid /\ text p = trim (targetText s) /\
     note p = trim (phraseNote s) /\ timestamp p = now /\
     practiceCount p = Some 0 /\ lastScore p = None /\
     (NoDup (map id (savedPhrases s')) <->
      NoDup (map id (savedPhrases s)) /\
      forall q, In q (savedPhrases s) -> id q <> uuid)).
Proof.
  cbn zeta. unfold handleSavePhrase. split.
  - intros ->. reflexivity.
  - intros Hne. destruct (trim (targetText s)) as [|c t] eqn:E; [congruence|].
    cbn [truthy negb]. eexists. split; [reflexivity|].
    split; [reflexivity|]. cbn [id text note timestamp practiceCount lastScore].
    repeat (split; [reflexivity|]).
    cbn [savedPhrases setShowSaveModal setPhraseNote storePhrases
           setSavedPhrases].
    apply (NoDup_ids_cons (mkSavedPhrase uuid (String c t)
                             (trim (phraseNote s)) now None (Some 0))).
Qed.

End Library.

(** ** Import: the [Map] keyed by the text *)

Section ImportMerge.

Context {V : Type}.

Lemma mem_string_In (k : string) (l : list string) :
  mem_string k l = true <-> In k l.
Proof.
  unfold mem_string. rewrite existsb_exists. split.
  - intros (x & Hx & E). apply String.eqb_eq in E. now subst.
  - intros H. exists k. split; [exact H|apply String.eqb_refl].
Qed.

Lemma Map_keys_Map_set (k : string) (v : V) (m : list (string * V)) :
  Map_keys (Map_set k v m) =
  if mem_string k (Map_keys m) then Map_keys m else Map_keys m ++ [k].
Proof.
  induction m as [|[k' v'] m IH]; [reflexivity|].
  cbn [Map_set Map_keys map fst mem_string existsb].
  rewrite (String.eqb_sym k k').
  destruct (String.eqb k' k) eqn:E; [reflexivity|].
  cbn [map fst orb]. fold (Map_keys (Map_set k v m)). rewrite IH.
  fold (Map_keys m). fold (mem_string k (Map_keys m)).
  now destruct (mem_string k (Map_keys m)).
Qed.

Lemma Map_get_set_eq (k : string) (v : V) (m : list (string * V)) :
  Map_get k (Map_set k v m) = Some v.
Proof.
  induction m as [|[k' v'] m IH]; cbn.
  - now rewrite String.eqb_refl.
  - destruct (String.eqb k' k) eqn:E; cbn; rewrite E; [reflexivity|exact IH].
Qed.

Lemma Map_get_set_ne (k k' : string) (v : V) (m : list (string * V)) :
  k <> k' -> Map_get k' (Map_set k v m) = Map_get k' m.
Proof.
  intros Hne. induction m as [|[k1 v1] m IH]; cbn.
  - destruct (String.eqb_spec k k'); [contradiction|reflexivity].
  - destruct (String.eqb_spec k1 k) as [->|Hk]; cbn.
    + destruct (String.eqb_spec k k'); [contradiction|reflexivity].
    + now rewrite IH.
Qed.

Lemma filter_absent_cons (k : string) (K l : list string) :
  In k K ->
  List.filter (fun y => negb (mem_string y K))
              (List.filter (fun y => negb (String.eqb y k)) l) =
  List.filter (fun y => negb (mem_string y K)) l.
Proof.
  intros Hk. induction l as [|y l IH]; [reflexivity|]. cbn.
  destruct (String.eqb_spec y k) as [->|Hy]; cbn.
  - apply mem_string_In in Hk. now rewrite Hk.
  - now rewrite IH.
Qed.

Lemma filter_absent_snoc (k : string) (K l : list string) :
  List.filter (fun y => negb (mem_string y (K ++ [k]))) l =
  List.filter (fun y => negb (mem_string y K))
              (List.filter (fun y => negb (String.eqb y k)) l).
Proof.
  induction l as [|y l IH]; [reflexivity|]. cbn.
  unfold mem_string at 1. rewrite existsb_app. cbn. rewrite orb_false_r.
  fold (mem_string y K).
  destruct (String.eqb y k); cbn.
  - rewrite orb_true_r. cbn. exact IH.
  - rewrite orb_false_r. now rewrite IH.
Qed.

Lemma Map_keys_fold (l m0 : list (string * V)) :
  Map_keys (fold_left Map_add l m0) =
  Map_keys m0 ++ List.filter (fun y => negb (mem_string y (Map_keys m0)))
                         (first_occurrences (map fst l)).
Proof.
  revert m0. induction l as [|[k v] l IH]; intros m0;
    cbn [fold_left map fst first_occurrences List.filter].
  - now rewrite app_nil_r.
  - rewrite IH. unfold Map_add. cbn [fst snd]. rewrite Map_keys_Map_set.
    destruct (mem_string k (Map_keys m0)) eqn:E; cbn [negb].
    + f_equal. symmetry. apply filter_absent_cons. now apply mem_string_In.
    + rewrite <- app_assoc. cbn. now rewrite filter_absent_snoc.
Qed.

Lemma Map_get_fold (k : string) (l m0 : list (string * V)) :
  Map_get k (fold_left Map_add l m0) =
  match last_binding k l with
  | Some v => Some v
  | None => Map_get k m0
  end.
Proof.
  revert m0. induction l as [|[k1 v1] l IH]; intros m0; cbn; [reflexivity|].
  rewrite IH. destruct (last_binding k l); [reflexivity|].
  unfold Map_add. cbn [fst snd].
  destruct (String.eqb_spec k1 k) as [->|Hne].
  - apply Map_get_set_eq.
  - now apply Map_get_set_ne.
Qed.

Lemma Map_get_In (k : string) (v : V) (m : list (string * V)) :
  NoDup (Map_keys m) -> In (k, v) m -> Map_get k m = Some v.
Proof.
  induction m as [|[k1 v1] m IH]; cbn; [tauto|].
  intros Hnd [E|Hin].
  - injection E as -> ->. now rewrite String.eqb_refl.
  - apply NoDup_cons in Hnd as [Hk1 Hnd].
    destruct (String.eqb_spec k1 k) as [->|Hne].
    + exfalso. apply Hk1. apply list_elem_of_In.
      change k with (fst (k, v)). now apply in_map.
    + now apply IH.
Qed.

Lemma last_binding_app (k : string) (l1 l2 : list (string * V)) :
  last_binding k (l1 ++ l2) =
  match last_binding k l2 with
  | Some v => Some v
  | None => last_binding k l1
  end.
Proof.
  induction l1 as [|[k1 v1] l1 IH]; cbn.
  - now destruct (last_binding k l2).
  - rewrite IH. now destruct (last_binding k l2).
Qed.

End ImportMerge.

Lemma first_occurrences_NoDup (l : list string) : NoDup (first_occurrences l).
Proof.
  induction l as [|x l IH]; cbn; constructor.
  - rewrite list_elem_of_In, filter_In. intros [_ H].
    now rewrite String.eqb_refl in H.
  - clear -IH. induction (first_occurrences l) as [|y r IHr]; cbn.
    + constructor.
    + apply NoDup_cons in IH as [Hy Hr].
      destruct (negb (String.eqb y x)); [|auto].
      constructor; [|auto].
      rewrite list_elem_of_In, filter_In, <- list_elem_of_In. tauto.
Qed.

Lemma last_binding_entries_In (k : string) (p : SavedPhrase)
  (l : list SavedPhrase) :
  last_binding k (entries l) = Some p -> In p l /\ text p = k.
Proof.
  induction l as [|q l IH]; [discriminate|].
  change (entries (q :: l)) with ((text q, q) :: entries l).
  cbn [last_binding].
  destruct (last_binding k (entries l)) as [p'|].
  - intros E. destruct (IH E). split; [now right|assumption].
  - destruct (String.eqb_spec (text q) k); [|discriminate].
    intros [= ->]. split; [now left|assumption].
Qed.

Lemma last_binding_entries_Some (q : SavedPhrase) (l : list SavedPhrase) :
  In q l -> last_binding (text q) (entries l) <> None.
Proof.
  induction l as [|q' l IH]; [intros []|].
  change (entries (q' :: l)) with ((text q', q') :: entries l).
  cbn [last_binding].
  intros [->|Hin].
  - destruct (last_binding (text q) (entries l)); [discriminate|].
    now rewrite String.eqb_refl.
  - specialize (IH Hin).
    destruct (last_binding (text q) (entries l)); [discriminate|congruence].
Qed.

Lemma Map_new_entries_text (l : list SavedPhrase) (k : string)
  (p : SavedPhrase) :
  In (k, p) (Map_new (entries l)) -> k = text p.
Proof.
  unfold Map_new.
  assert (G : forall m0,
             (forall k p, In (k, p) m0 -> k = text p) ->
             forall k p, In (k, p) (fold_left Map_add (entries l) m0) ->
                         k = text p).
  { induction l as [|q l IH]; cbn; intros m0 H0; [exact H0|].
    apply IH. unfold Map_add; cbn [fst snd].
    clear -H0. induction m0 as [|[k1 p1] m0 IHm]; cbn.
    - intros k p [[= <- <-]|[]]. reflexivity.
    - destruct (String.eqb_spec k1 (text q)) as [->|Hne]; cbn.
      + intros k p [[= <- <-]|Hin]; [reflexivity|]. apply H0. now right.
      + intros k p [[= <- <-]|Hin].
        * apply H0. now left.
        * apply IHm; [|exact Hin]. intros. apply H0. now right. }
  apply G. intros ? ? [].
Qed.

(** C1 (as amended): the merged sequence holds each text once; its texts are
    the texts of the imported records followed by those of the stored phrases,
    in the order of their first occurrences; and the entity kept for a text is
    the last one with that text in imported-then-stored order, so that a
    stored phrase is kept whenever the text is in the library, and an
    imported record only for a text the library does not have. *)
Theorem merge_import_spec (items saved : list SavedPhrase) :
  let merged := merge_import items saved in
  NoDup (map text merged) /\
  map text merged = first_occurrences (map text (items ++ saved)) /\
  (forall p, In p merged ->
     last_binding (text p) (entries (items ++ saved)) = Some p) /\
  (forall p, In p merged ->
     (exists q, In q saved /\ text q = text p) ->
     last_binding (text p) (entries saved) = Some p /\ In p saved) /\
  (forall p, In p merged ->
     (forall q, In q saved -> text q <> text p) ->
     last_binding (text p) (entries items) = Some p /\ In p items).
Proof.
  cbn zeta. unfold merge_import, Map_values.
  fold (entries (items ++ saved)).
  set (m := Map_new (entries (items ++ saved))).
  assert (Hkeys : map fst m = first_occurrences (map text (items ++ saved))).
  { unfold m, Map_new.
    pose proof (Map_keys_fold (entries (items ++ saved)) []) as H.
    unfold Map_keys in H. rewrite H. cbn [map app].
    unfold entries. rewrite map_map. cbn [fst].
    change (map (fun x : SavedPhrase => text x) (items ++ saved))
      with (map text (items ++ saved)).
    clear. induction (first_occurrences _) as [|x r IH]; [reflexivity|].
    cbn in *. congruence. }
  assert (Htext : map text (map snd m) = map fst m).
  { rewrite map_map. apply map_ext_in. intros [k p] Hin. cbn.
    symmetry. now apply (Map_new_entries_text (items ++ saved)). }
  assert (Hget : forall p, In p (map snd m) ->
            last_binding (text p) (entries (items ++ saved)) = Some p).
  { intros p Hin. apply in_map_iff in Hin as ([k q] & E & Hin). cbn in E.
    subst q. pose proof (Map_new_entries_text _ _ _ Hin) as ->.
    pose proof (Map_get_fold (text p) (entries (items ++ saved)) []) as H.
    cbn [Map_get] in H.
    assert (Hm : Map_get (text p) m = Some p).
    { apply Map_get_In; [|exact Hin]. unfold Map_keys. rewrite Hkeys.
      apply first_occurrences_NoDup. }
    unfold m, Map_new in Hm.
    rewrite Hm in H. now destruct (last_binding _ _). }
  split; [|split; [|split; [|split]]].
  - rewrite Htext, Hkeys. apply first_occurrences_NoDup.
  - now rewrite Htext.
  - exact Hget.
  - intros p Hin (q & Hq & Et). specialize (Hget p Hin).
    unfold entries in Hget. rewrite map_app in Hget.
    fold (entries items) in Hget. fold (entries saved) in Hget.
    rewrite last_binding_app in Hget.
    pose proof (last_binding_entries_Some q saved Hq) as Hs.
    rewrite Et in Hs.
    destruct (last_binding (text p) (entries saved)) as [p'|] eqn:E;
      [|congruence].
    injection Hget as ->. split; [reflexivity|].
    now apply (last_binding_entries_In _ _ _ E).
  - intros p Hin Hno. specialize (Hget p Hin).
    unfold entries in Hget. rewrite map_app in Hget.
    fold (entries items) in Hget. fold (entries saved) in Hget.
    rewrite last_binding_app in Hget.
    destruct (last_binding (text p) (entries saved)) as [p'|] eqn:E.
    + apply last_binding_entries_In in E as [Hp' Et]. now elim (Hno p').
    + split; [exact Hget|]. now apply (last_binding_entries_In _ _ _ Hget).
Qed.

(** C1 (as stated) fails: importing [A; B] into a library [B (score 50); C]
    keeps the stored [B], not the imported one. *)
Lemma merge_import_keeps_stored :
  merge_import [imported_A; imported_B] [stored_B; stored_C] =
    [imported_A; stored_B; stored_C] /\
  merge_import [imported_A; imported_B] [stored_B; stored_C] <>
    [imported_A; imported_B; stored_C].
Proof. split; [reflexivity|discriminate]. Qed.

(** ** The practice session *)

Section Session.

Lemma analyzeSpeech_rejected (reply : Outcome ResponseText) :
  analyzeSpeech reply = Rejected <->
  reply = Rejected \/ reply = Resolved (Text None).
Proof.
  destruct reply as [|[|[v|]]]; cbn; split; try tauto; try discriminate;
    intros [H|H]; discriminate.
Qed.

(** C7: when the analysis of a recording fails, the session, which is
    ANALYZING while it waits, ends in ERROR with no result and no score
    written (the library and what is stored are as before); going home from
    there gives IDLE with the target text the session started with.  This
    holds whatever render the callback of the recorder comes from. *)
Theorem analysis_failure_then_reset (seen : App) (reply : Outcome ResponseText)
  (s : App) (Hfail : analyzeSpeech reply = Rejected) :
  let recording := startRecording true s in
  let analyzing := handleProcessing_begin recording in
  exists failed,
    handleProcessing seen reply recording = Some failed /\
    status recording = RECORDING /\
    status analyzing = ANALYZING /\
    status failed = ERROR /\
    result failed = None /\
    savedPhrases failed = savedPhrases s /\
    fluentify_phrases failed = fluentify_phrases s /\
    exercise failed = exercise s /\
    errorMessage failed = "Phân tích AI thất bại." /\
    targetText failed = targetText s /\
    status (onGoHome failed) = IDLE /\
    result (onGoHome failed) = None /\
    targetText (onGoHome failed) = targetText s.
Proof.
  cbn zeta. unfold handleProcessing. rewrite Hfail. cbn.
  eexists. split; [reflexivity|]. cbn. repeat split.
Qed.

Lemma analysis_failure_then_reset_witness :
  analyzeSpeech (Resolved (Text None)) = Rejected /\
  exists failed,
    handleProcessing app_drill (Resolved (Text None))
      (startRecording true app_one) = Some failed /\
    status failed = ERROR /\
    result failed = None /\
    savedPhrases failed = savedPhrases app_one /\
    targetText (onGoHome failed) = "  Good morning ".
Proof.
  destruct (analysis_failure_then_reset app_drill (Resolved (Text None))
              app_one eq_refl)
    as (failed & H & _ & _ & H1 & H2 & H3 & _ & _ & _ & _ & _ & _ & H4).
  split; [reflexivity|]. exists failed. repeat split; assumption.
Defined.

(** C8 (as stated) fails, and the fault is in the code.  The empty object
    has none of the fields of [AnalysisResult]; a reply with this text, or
    with no text at all, is returned by [analyzeSpeech] as the analysis, and
    the session stores it and ends in RESULT, not in ERROR.  The panel that
    shows the result then reads [length] of a [mispronouncedWords] that is
    [undefined], which throws in the render.  With a phrase of a drill linked
    the library gets a score that is [undefined].  The sibling [textToSpeech]
    does check its reply: missing data is an error. *)
Theorem malformed_response_is_a_result :
  is_AnalysisResult (JObject []) = false /\
  analyzeSpeech (Resolved (Text (Some (JObject [])))) = Resolved (JObject []) /\
  analyzeSpeech (Resolved NoText) = Resolved (JObject []) /\
  (exists s',
     handleProcessing app_one (Resolved (Text (Some (JObject []))))
       (startRecording true app_one) = Some s' /\
     status s' = RESULT /\
     result s' = Some (JObject []) /\
     resultPanel_throws s' = true) /\
  (exists s',
     handleProcessing app_drill (Resolved NoText)
       (startRecording true app_drill) = Some s' /\
     status s' = RESULT /\
     resultPanel_throws s' = true /\
     savedPhrases s' =
       [phrase_hello; mkSavedPhrase "id-2" "Good morning" "" 2 None (Some 1)]) /\
  textToSpeech (Resolved None) = Rejected.
Proof.
  split; [reflexivity|]. split; [reflexivity|]. split; [reflexivity|].
  split; [|split].
  - eexists. split; [reflexivity|]. repeat split.
  - eexists. split; [reflexivity|]. repeat split.
  - reflexivity.
Qed.

End Session.

(** ** The order of a drill *)

Section Drill.

Lemma compareFn_sign (a b : SavedPhrase) (r : Random) :
  (0 < fst (compareFn a b r) -> score_ge a b) /\
  (fst (compareFn a b r) <= 0 -> score_le a b).
Proof.
  unfold compareFn, score_ge, score_le.
  destruct (Z.eqb_spec (scoreOf a) (scoreOf b)) as [E|E]; cbn; lia.
Qed.

Lemma insert_back_sorted (element : SavedPhrase) (prefix_rev : list SavedPhrase)
  (r : Random) :
  StronglySorted score_ge prefix_rev ->
  StronglySorted score_ge (fst (insert_back compareFn element prefix_rev r)) /\
  Permutation (fst (insert_back compareFn element prefix_rev r))
              (element :: prefix_rev).
Proof.
  revert r. induction prefix_rev as [|tmp rest IH]; intros r Hs; cbn.
  - split; [repeat constructor|reflexivity].
  - apply StronglySorted_inv in Hs as [Hrest Htmp].
    pose proof (compareFn_sign tmp element r) as [Hpos Hneg].
    destruct (compareFn tmp element r) as [order r1]. cbn in Hpos, Hneg.
    destruct (Z.ltb_spec 0 order) as [Ho|Ho].
    + specialize (IH r1 Hrest).
      destruct (insert_back compareFn element rest r1) as [rest' r2].
      cbn in *. destruct IH as [IHs IHp]. split.
      * constructor; [exact IHs|].
        rewrite List.Forall_forall. intros x Hx.
        apply (Permutation_in _ IHp) in Hx as [<-|Hx]; [now apply Hpos|].
        rewrite List.Forall_forall in Htmp. now apply Htmp.
      * rewrite IHp. apply perm_swap.
    + cbn. split; [|reflexivity].
      constructor; [now constructor|].
      constructor; [now apply Hneg|].
      rewrite List.Forall_forall in Htmp |- *. intros x Hx.
      specialize (Htmp x Hx). specialize (Hneg Ho).
      unfold score_ge, score_le in *. lia.
Qed.

Lemma StronglySorted_rev_le (l : list SavedPhrase) :
  StronglySorted score_ge l -> StronglySorted score_le (rev l).
Proof.
  induction l as [|x l IH]; cbn; intros Hs; [constructor|].
  apply StronglySorted_inv in Hs as [Hl Hx]. specialize (IH Hl).
  clear Hl. revert IH. rewrite List.Forall_forall in Hx.
  assert (Hx' : forall y, In y (rev l) -> score_le y x).
  { intros y Hy. apply Hx. now apply in_rev. }
  clear Hx. induction (rev l) as [|y t IHt]; cbn; intros Hs.
  - repeat constructor.
  - apply StronglySorted_inv in Hs as [Ht Hy]. constructor.
    + apply IHt; [|exact Ht]. intros z Hz. apply Hx'. now right.
    + rewrite List.Forall_forall in Hy |- *. intros z Hz.
      apply in_app_iff in Hz as [Hz|[<-|[]]]; [now apply Hy|].
      apply Hx'. now left.
Qed.

Lemma sort_from_sorted (prefix_rev todo : list SavedPhrase) (r : Random) :
  StronglySorted score_ge prefix_rev ->
  StronglySorted score_le (fst (sort_from compareFn prefix_rev todo r)) /\
  Permutation (fst (sort_from compareFn prefix_rev todo r))
              (rev prefix_rev ++ todo).
Proof.
  revert prefix_rev r. induction todo as [|element todo IH];
    intros prefix_rev r Hs; cbn.
  - split; [now apply StronglySorted_rev_le|now rewrite app_nil_r].
  - pose proof (insert_back_sorted element prefix_rev r Hs) as [Hs' Hp].
    destruct (insert_back compareFn element prefix_rev r) as [prefix' r'].
    cbn in Hs', Hp. destruct (IH prefix' r' Hs') as [IHs IHp].
    split; [exact IHs|]. rewrite IHp.
    apply Permutation_rev' in Hp. rewrite Hp. cbn.
    now rewrite <- app_assoc.
Qed.

Lemma StronglySorted_ascending (l : list SavedPhrase) :
  StronglySorted score_le l -> ascending l.
Proof.
  induction l as [|x l IH]; intros Hs i j p q Hij Hi Hj.
  - discriminate.
  - apply StronglySorted_inv in Hs as [Hl Hx].
    destruct j as [|j]; [lia|]. cbn in Hj.
    destruct i as [|i]; cbn in Hi.
    + injection Hi as ->. rewrite List.Forall_forall in Hx. apply Hx.
      apply list_elem_of_In. now apply list_elem_of_lookup_2 in Hj.
    + apply (IH Hl i j); [lia|assumption|assumption].
Qed.

Lemma sort_ascending (l : list SavedPhrase) (r : Random) :
  ascending (fst (sort compareFn l r)) /\
  Permutation (fst (sort compareFn l r)) l.
Proof.
  unfold sort.
  destruct (sort_from_sorted [] l r) as [Hs Hp]; [constructor|].
  split; [now apply StronglySorted_ascending|exact Hp].
Qed.

(** C4 (as stated) fails: nothing keeps a [lastScore] within 0 and 100, and
    an absent score is compared as -1.  A phrase with the score -5 is put
    before a phrase without a score, whatever [Math.random] yields. *)
Lemma negative_score_before_unscored :
  lastScore phrase_negative = Some (-5) /\
  lastScore phrase_morning = None /\
  savedPhrases app_negative = [phrase_morning; phrase_negative] /\
  (forall r,
     exercise (fst (startExerciseMode r app_negative)) =
       Some (mkExerciseState 0 [phrase_negative; phrase_morning]
               Step.WRITING "" None)).
Proof. repeat split. Qed.

(** C4 (as amended): for a library that is not empty and whose scores,
    where present, are not negative, [startExerciseMode] starts a drill at
    index 0 in the WRITING step whose [shuffledPhrases] is a permutation of
    the library with scores that never decrease, absent counting as -1:
    whatever [Math.random] yields, no phrase without a [lastScore] comes
    after a phrase that has one.
    For the library [Hello world (90); Good morning (absent)] the sequence is
    [Good morning; Hello world]. *)
Theorem startExerciseMode_unscored_first (r : Random) (s : App)
  (Hlib : savedPhrases s <> [])
  (Hscores : forall p z, In p (savedPhrases s) -> lastScore p = Some z -> 0 <= z) :
  (exists ex,
     exercise (fst (startExerciseMode r s)) = Some ex /\
     status (fst (startExerciseMode r s)) = EXERCISE /\
     currentPhraseIndex ex = 0%nat /\ step ex = Step.WRITING /\
     Permutation (shuffledPhrases ex) (savedPhrases s) /\
     ascending (shuffledPhrases ex) /\
     forall (i j : nat) (p q : SavedPhrase),
       (i < j)%nat ->
       shuffledPhrases ex !! i = Some p -> shuffledPhrases ex !! j = Some q ->
       ~ (lastScore p <> None /\ lastScore q = None)) /\
  (forall r0,
     fst (sort compareFn [phrase_hello; phrase_morning] r0) =
       [phrase_morning; phrase_hello]).
Proof.
  split; [|reflexivity].
  unfold startExerciseMode.
  destruct (savedPhrases s) as [|p0 l0] eqn:El; [congruence|].
  pose proof (sort_ascending (p0 :: l0) r) as [Hasc Hperm].
  destruct (sort compareFn (p0 :: l0) r) as [shuffled r'] eqn:Es.
  cbn [fst] in Hasc, Hperm.
  destruct shuffled as [|first rest].
  { apply Permutation_nil in Hperm. discriminate. }
  cbn. eexists. repeat split; try reflexivity; try assumption.
  intros i j p q Hij Hi Hj [Hp Hq].
  pose proof (Hasc i j p q Hij Hi Hj) as Hle.
  unfold scoreOf in Hle. rewrite Hq in Hle.
  destruct (lastScore p) as [z|] eqn:Ez; [|congruence].
  assert (Hin : In p (p0 :: l0)).
  { apply (Permutation_in _ Hperm). apply list_elem_of_In.
    now apply list_elem_of_lookup_2 in Hi. }
  specialize (Hscores p z Hin Ez). cbn in Hle. lia.
Qed.

Lemma startExerciseMode_unscored_first_witness :
  savedPhrases app_two <> [] /\
  (forall p z, In p (savedPhrases app_two) -> lastScore p = Some z -> 0 <= z) /\
  exists ex,
    exercise (fst (startExerciseMode (constant_draws 0) app_two)) = Some ex /\
    forall (i j : nat) (p q : SavedPhrase),
      (i < j)%nat ->
      shuffledPhrases ex !! i = Some p -> shuffledPhrases ex !! j = Some q ->
      ~ (lastScore p <> None /\ lastScore q = None).
Proof.
  assert (H1 : savedPhrases app_two <> []) by discriminate.
  assert (H2 : forall p z, In p (savedPhrases app_two) ->
                           lastScore p = Some z -> 0 <= z).
  { intros p z [<-|[<-|[]]]; cbn; intros [= <-]. lia. }
  split; [exact H1|]. split; [exact H2|].
  destruct (startExerciseMode_unscored_first (constant_draws 0) app_two H1 H2)
    as [(ex & He & _ & _ & _ & _ & _ & Hord) _].
  exists ex. split; [exact He|exact Hord].
Defined.

End Drill.

(** ** Binary64 arithmetic of the writing score *)

Section Binary64.

Lemma digits2_pos_bounds (p : positive) :
  2 ^ (Zpos (digits2_pos p) - 1) <= Zpos p < 2 ^ Zpos (digits2_pos p).
Proof.
  induction p as [p IH|p IH|]; cbn [digits2_pos].
  - rewrite Pos2Z.inj_succ.
    replace (Z.succ (Zpos (digits2_pos p)) - 1) with (Z.succ (Zpos (digits2_pos p) - 1)) by lia.
    rewrite !Z.pow_succ_r by lia. lia.
  - rewrite Pos2Z.inj_succ.
    replace (Z.succ (Zpos (digits2_pos p)) - 1) with (Z.succ (Zpos (digits2_pos p) - 1)) by lia.
    rewrite !Z.pow_succ_r by lia. lia.
  - cbn. lia.
Qed.

Lemma Zdigits2_unique (m d : Z) :
  2 ^ (d - 1) <= m < 2 ^ d -> 0 < d -> Zdigits2 m = d.
Proof.
  intros [Hlo Hhi] Hd.
  assert (0 < m) by (pose proof (Z.pow_pos_nonneg 2 (d - 1)); lia).
  destruct m as [|p|p]; try lia. cbn [Zdigits2].
  pose proof (digits2_pos_bounds p) as [Hlo' Hhi'].
  set (d' := Zpos (digits2_pos p)) in *.
  assert (d' - 1 < d).
  { apply (Z.pow_lt_mono_r_iff 2); lia. }
  assert (d - 1 < d').
  { apply (Z.pow_lt_mono_r_iff 2); lia. }
  lia.
Qed.

Lemma shr_1_m (mrs : shr_record) :
  0 <= shr_m mrs -> shr_m (shr_1 mrs) = shr_m mrs / 2.
Proof.
  destruct mrs as [m r s]. cbn [shr_m]. intros Hm.
  destruct m as [|[p|p|]|p]; cbn [shr_1 shr_m]; try lia.
  - reflexivity.
  - rewrite Pos2Z.inj_xI. apply Z.div_unique with 1; lia.
  - rewrite Pos2Z.inj_xO. apply Z.div_unique with 0; lia.
  - reflexivity.
Qed.

Lemma div_pow2_pow2 (m a b : Z) :
  0 <= a -> 0 <= b -> m / 2 ^ a / 2 ^ b = m / 2 ^ (a + b).
Proof.
  intros Ha Hb.
  assert (0 < 2 ^ a) by (apply Z.pow_pos_nonneg; lia).
  assert (0 < 2 ^ b) by (apply Z.pow_pos_nonneg; lia).
  rewrite Z.div_div by lia. now rewrite Z.pow_add_r.
Qed.

Lemma iter_shr_1_m (p : positive) (mrs : shr_record) :
  0 <= shr_m mrs ->
  shr_m (SpecFloat.iter_pos shr_1 p mrs) = shr_m mrs / 2 ^ Zpos p /\
  0 <= shr_m (SpecFloat.iter_pos shr_1 p mrs).
Proof.
  revert mrs. induction p as [p IH|p IH|]; intros mrs Hm; cbn [SpecFloat.iter_pos].
  - assert (H1 : 0 <= shr_m (shr_1 mrs)).
    { rewrite shr_1_m by assumption. apply Z.div_pos; lia. }
    destruct (IH _ H1) as [E1 P1]. destruct (IH _ P1) as [E2 P2].
    split; [|exact P2]. rewrite E2, E1, shr_1_m by assumption.
    change (shr_m mrs / 2) with (shr_m mrs / 2 ^ 1).
    rewrite !div_pow2_pow2 by lia. f_equal. f_equal. lia.
  - destruct (IH _ Hm) as [E1 P1]. destruct (IH _ P1) as [E2 P2].
    split; [|exact P2]. rewrite E2, E1.
    rewrite !div_pow2_pow2 by lia. f_equal. f_equal. lia.
  - rewrite shr_1_m by assumption. split; [reflexivity|].
    apply Z.div_pos; lia.
Qed.

Lemma shr_record_of_loc_m (m : Z) (l : location) :
  shr_m (shr_record_of_loc m l) = m.
Proof. destruct l as [|[]]; reflexivity. Qed.

Lemma loc_of_shr_record_of_loc (m : Z) (l : location) :
  loc_of_shr_record (shr_record_of_loc m l) = l.
Proof. destruct l as [|[]]; reflexivity. Qed.

Lemma shr_fexp_normal (mx ex : Z) (lx : location) :
  0 < mx -> 53 <= Zdigits2 mx -> -1074 <= ex + Zdigits2 mx - 53 ->
  exists mrs,
    shr_fexp 53 1024 mx ex lx = (mrs, ex + (Zdigits2 mx - 53)) /\
    shr_m mrs = mx / 2 ^ (Zdigits2 mx - 53) /\
    (Zdigits2 mx = 53 -> mrs = shr_record_of_loc mx lx).
Proof.
  intros Hm Hd He. unfold shr_fexp, fexp, emin, shr.
  replace (Z.max (Zdigits2 mx + ex - 53) (3 - 1024 - 53) - ex)
    with (Zdigits2 mx - 53) by lia.
  destruct (Zdigits2 mx - 53) as [|p|p] eqn:Ek; [| |lia].
  - eexists. split; [f_equal; lia|]. split; [|reflexivity].
    rewrite shr_record_of_loc_m. cbn. now rewrite Z.div_1_r.
  - eexists. split; [reflexivity|]. split; [|lia].
    pose proof (iter_shr_1_m p (shr_record_of_loc mx lx)) as H.
    rewrite shr_record_of_loc_m in H. apply H. lia.
Qed.

Lemma round_nearest_even_bounds (m : Z) (l : location) :
  m <= round_nearest_even m l <= m + 1.
Proof.
  destruct l as [|[]]; cbn; try lia. destruct (Z.even m); lia.
Qed.

Lemma mantissa_bounds (mx : Z) :
  0 < mx -> 53 <= Zdigits2 mx ->
  2 ^ 52 <= mx / 2 ^ (Zdigits2 mx - 53) < 2 ^ 53.
Proof.
  intros Hm Hd. destruct mx as [|p|p]; try lia.
  pose proof (digits2_pos_bounds p) as [Hlo Hhi].
  cbn [Zdigits2] in *. set (d := Zpos (digits2_pos p)) in *.
  assert (Hk : 0 < 2 ^ (d - 53)) by (apply Z.pow_pos_nonneg; lia).
  assert (E1 : 2 ^ (d - 1) = 2 ^ (d - 53) * 2 ^ 52).
  { rewrite <- Z.pow_add_r by lia. f_equal. lia. }
  assert (E2 : 2 ^ d = 2 ^ (d - 53) * 2 ^ 53).
  { rewrite <- Z.pow_add_r by lia. f_equal. lia. }
  split.
  - apply Z.div_le_lower_bound; lia.
  - apply Z.div_lt_upper_bound; lia.
Qed.

Lemma binary_round_aux_normal (mx ex : Z) (lx : location) :
  0 < mx -> 53 <= Zdigits2 mx ->
  -1074 <= ex + Zdigits2 mx - 53 -> ex + Zdigits2 mx - 53 < 971 ->
  exists m e,
    binary_round_aux 53 1024 false mx ex lx = S754_finite false m e /\
    2 ^ 52 <= Zpos m < 2 ^ 53 /\
    ((e = ex + (Zdigits2 mx - 53) /\
      mx / 2 ^ (Zdigits2 mx - 53) <= Zpos m <= mx / 2 ^ (Zdigits2 mx - 53) + 1)
     \/
     (e = ex + (Zdigits2 mx - 53) + 1 /\ Zpos m = 2 ^ 52 /\
      mx / 2 ^ (Zdigits2 mx - 53) + 1 = 2 ^ 53)) /\
    (lx = loc_Exact -> Zdigits2 mx = 53 -> e = ex /\ Zpos m = mx).
Proof.
  intros Hm Hd Hlo Hhi. unfold binary_round_aux.
  destruct (shr_fexp_normal mx ex lx Hm Hd Hlo) as (mrs & E & Em & Ex).
  rewrite E.
  pose proof (mantissa_bounds mx Hm Hd) as Hb. rewrite <- Em in Hb.
  pose proof (round_nearest_even_bounds (shr_m mrs) (loc_of_shr_record mrs))
    as Hr.
  remember (round_nearest_even (shr_m mrs) (loc_of_shr_record mrs)) as m2
    eqn:Edef.
  set (e1 := ex + (Zdigits2 mx - 53)) in *.
  destruct (Z.eq_dec m2 (2 ^ 53)) as [Etop|Hne].
  - assert (Hd2 : Zdigits2 m2 = 54) by (rewrite Etop; reflexivity).
    destruct (shr_fexp_normal m2 e1 loc_Exact) as (mrs2 & E2 & Em2 & _);
      [lia|lia|lia|].
    rewrite E2, Em2, Hd2, Etop. cbn -[Z.pow Z.leb].
    change (2 ^ 53 / 2 ^ 1) with (Zpos (2 ^ 52)).
    cbv iota beta.
    match goal with
    | |- context [Z.leb ?a ?b] => destruct (Z.leb_spec a b); [|lia]
    end.
    eexists _, _. split; [reflexivity|].
    split; [cbn; lia|]. split.
    + right. rewrite <- Em. split; [lia|]. split; [reflexivity|]. lia.
    + intros -> Hd53. specialize (Ex Hd53). subst mrs.
      rewrite loc_of_shr_record_of_loc in Edef. cbn in Edef, Hb. lia.
  - assert (Hd2 : Zdigits2 m2 = 53) by (apply Zdigits2_unique; lia).
    destruct (shr_fexp_normal m2 e1 loc_Exact) as (mrs2 & E2 & Em2 & Ex2);
      [lia|lia|lia|].
    rewrite E2, (Ex2 Hd2), Hd2. cbn [shr_record_of_loc shr_m].
    destruct m2 as [|p2|p2]; [lia| |lia].
    match goal with
    | |- context [Z.leb ?a ?b] => destruct (Z.leb_spec a b); [|lia]
    end.
    eexists _, _. split; [reflexivity|].
    split; [lia|]. split.
    + left. rewrite <- Em. lia.
    + intros -> Hd53. specialize (Ex Hd53). subst mrs.
      rewrite loc_of_shr_record_of_loc in Edef. cbn in Edef. unfold e1. lia.
Qed.

Lemma iter_xO_pow2 (p sh : positive) :
  Zpos (Pos.iter xO p sh) = Zpos p * 2 ^ Zpos sh.
Proof.
  induction sh as [|sh IH] using Pos.peano_ind.
  - cbn. lia.
  - rewrite Pos.iter_succ, Pos2Z.inj_xO, IH, Pos2Z.inj_succ.
    rewrite Z.pow_succ_r by lia. lia.
Qed.

Lemma of_Z_normal (n : Z) :
  1 <= n <= 2 ^ 53 ->
  exists m e,
    binary_normalize 53 1024 n 0 false = S754_finite false m e /\
    2 ^ 52 <= Zpos m < 2 ^ 53 /\ -52 <= e <= 1 /\
    Zpos m * 2 ^ (e + 52) = n * 2 ^ 52.
Proof.
  intros [Hlo Hhi].
  destruct (Z.eq_dec n (2 ^ 53)) as [->|Hne].
  { exists (2 ^ 52)%positive, 1. repeat split; try reflexivity; lia. }
  destruct n as [|p|p]; try lia.
  unfold binary_normalize, binary_round, shl_align, fexp, emin.
  pose proof (digits2_pos_bounds p) as [Hdlo Hdhi].
  set (d := Zpos (digits2_pos p)) in *.
  assert (Hd : d <= 53).
  { destruct (Z.le_gt_cases d 53) as [H|H]; [exact H|].
    assert (2 ^ 53 <= 2 ^ (d - 1)) by (apply Z.pow_le_mono_r; lia). lia. }
  replace (Z.max (d + 0 - 53) (3 - 1024 - 53) - 0) with (d - 53) by lia.
  replace (Z.max (d + 0 - 53) (3 - 1024 - 53)) with (d - 53) by lia.
  destruct (d - 53) as [|sh|sh] eqn:Esh; [| lia |].
  - assert (Hdig : Zdigits2 (Zpos p) = 53) by (cbn; fold d; lia).
    destruct (binary_round_aux_normal (Zpos p) 0 loc_Exact)
      as (m & e & E & Hm & _ & Hex); try (rewrite ?Hdig; lia).
    destruct (Hex eq_refl Hdig) as [-> Em].
    exists m, 0. split; [exact E|]. split; [exact Hm|]. split; [lia|].
    rewrite Em. reflexivity.
  - pose proof (iter_xO_pow2 p sh) as Hsh.
    assert (Hpow : 2 ^ Zpos sh * 2 ^ (d - 1) = 2 ^ 52).
    { rewrite <- Z.pow_add_r by lia. f_equal. lia. }
    assert (Hpow' : 2 ^ Zpos sh * 2 ^ d = 2 ^ 53).
    { rewrite <- Z.pow_add_r by lia. f_equal. lia. }
    assert (H0 : 0 < 2 ^ Zpos sh) by (apply Z.pow_pos_nonneg; lia).
    assert (Hdig : Zdigits2 (Zpos (Pos.iter xO p sh)) = 53).
    { apply Zdigits2_unique; [|lia]. rewrite Hsh. nia. }
    destruct (binary_round_aux_normal (Zpos (Pos.iter xO p sh)) (Zneg sh)
                loc_Exact)
      as (m & e & E & Hm & _ & Hex); try (rewrite ?Hdig; lia).
    destruct (Hex eq_refl Hdig) as [-> Em].
    exists m, (Zneg sh). split; [exact E|]. split; [exact Hm|].
    split; [lia|]. rewrite Em, Hsh.
    replace (Zneg sh + 52) with (d - 1) by lia. nia.
Qed.

Lemma SFdiv_core_normal (m1 m2 : positive) (e1 e2 : Z) :
  2 ^ 52 <= Zpos m1 < 2 ^ 53 -> 2 ^ 52 <= Zpos m2 < 2 ^ 53 ->
  -1000 <= e1 - e2 ->
  SFdiv_core_binary 53 1024 (Zpos m1) e1 (Zpos m2) e2 =
  (Zpos m1 * 2 ^ 53 / Zpos m2, e1 - e2 - 53,
   new_location (Zpos m2) ((Zpos m1 * 2 ^ 53) mod Zpos m2)).
Proof.
  intros H1 H2 He. unfold SFdiv_core_binary, fexp, emin.
  rewrite (Zdigits2_unique (Zpos m1) 53), (Zdigits2_unique (Zpos m2) 53)
    by (cbn; lia).
  replace (Z.min (Z.max (53 + e1 - (53 + e2) - 53) (3 - 1024 - 53)) (e1 - e2))
    with (e1 - e2 - 53) by lia.
  replace (e1 - e2 - (e1 - e2 - 53)) with 53 by lia.
  cbv iota. rewrite Z.shiftl_mul_pow2 by lia.
  unfold Z.div, Z.modulo.
  now destruct (Z.div_eucl (Zpos m1 * 2 ^ 53) (Zpos m2)).
Qed.

(** The quotient of a smaller by a larger number is at most one. *)
Lemma SFdiv_lt_one (m1 m2 : positive) (e1 e2 : Z) :
  2 ^ 52 <= Zpos m1 < 2 ^ 53 -> 2 ^ 52 <= Zpos m2 < 2 ^ 53 ->
  -52 <= e1 <= 1 -> -52 <= e2 <= 1 ->
  e1 < e2 \/ (e1 = e2 /\ Zpos m1 < Zpos m2) ->
  exists m e,
    SFdiv 53 1024 (S754_finite false m1 e1) (S754_finite false m2 e2) =
      S754_finite false m e /\
    2 ^ 52 <= Zpos m < 2 ^ 53 /\ -107 <= e /\
    (e <= -53 \/ (e = -52 /\ Zpos m = 2 ^ 52)).
Proof.
  intros H1 H2 He1 He2 Hlt. unfold SFdiv.
  rewrite SFdiv_core_normal by lia. cbn [xorb].
  set (q := Zpos m1 * 2 ^ 53 / Zpos m2).
  assert (Hq : 2 ^ 52 <= q < 2 ^ 54).
  { unfold q. split.
    - apply Z.div_le_lower_bound; lia.
    - apply Z.div_lt_upper_bound; lia. }
  assert (Hq' : Zpos m1 < Zpos m2 -> q < 2 ^ 53).
  { intros Hm. unfold q. apply Z.div_lt_upper_bound; [lia|nia]. }
  assert (Hd : Zdigits2 q = 53 \/ Zdigits2 q = 54).
  { destruct (Z.lt_ge_cases q (2 ^ 53)).
    - left. apply Zdigits2_unique; lia.
    - right. apply Zdigits2_unique; lia. }
  assert (Hd' : Zpos m1 < Zpos m2 -> Zdigits2 q = 53).
  { intros Hm. apply Zdigits2_unique; [|lia]. specialize (Hq' Hm). lia. }
  destruct (binary_round_aux_normal q (e1 - e2 - 53)
              (new_location (Zpos m2) ((Zpos m1 * 2 ^ 53) mod Zpos m2)))
    as (m & e & E & Hm & Hval & _); try lia.
  exists m, e. split; [exact E|]. split; [exact Hm|].
  destruct Hlt as [Hlt|[-> Hlt]].
  - destruct Hval as [[-> _]|[-> [-> _]]]; lia.
  - specialize (Hd' Hlt). rewrite Hd' in Hval.
    destruct Hval as [[-> _]|[-> [-> _]]]; lia.
Qed.

Lemma new_location_zero (n : Z) : new_location n 0 = loc_Exact.
Proof.
  unfold new_location, new_location_even, new_location_odd.
  now destruct (Z.even n).
Qed.

(** The quotient of a number by itself is one. *)
Lemma SFdiv_self (m : positive) (e : Z) :
  SFdiv 53 1024 (S754_finite false m e) (S754_finite false m e) =
  S754_finite false (2 ^ 52) (-52).
Proof.
  unfold SFdiv, SFdiv_core_binary, fexp, emin.
  replace (Zdigits2 (Zpos m) + e - (Zdigits2 (Zpos m) + e)) with 0 by lia.
  replace (e - e) with 0 by lia.
  replace (Z.min (Z.max (0 - 53) (3 - 1024 - 53)) 0) with (-53) by lia.
  replace (0 - -53) with 53 by lia. cbv iota. cbn [xorb].
  rewrite Z.shiftl_mul_pow2 by lia.
  pose proof (Z.div_mul (2 ^ 53) (Zpos m)) as Hq.
  pose proof (Z.mod_mul (2 ^ 53) (Zpos m)) as Hr.
  rewrite (Z.mul_comm (2 ^ 53)) in Hq, Hr.
  unfold Z.div, Z.modulo in Hq, Hr.
  destruct (Z.div_eucl (Zpos m * 2 ^ 53) (Zpos m)) as [q r].
  rewrite Hq, Hr by lia. rewrite new_location_zero. reflexivity.
Qed.

(** The product with one hundred of a number below one is at most one
    hundred. *)
Lemma SFmul_hundred (m : positive) (e : Z) :
  2 ^ 52 <= Zpos m < 2 ^ 53 -> -107 <= e <= -53 ->
  exists m' e',
    SFmul 53 1024 (S754_finite false m e)
          (S754_finite false 7036874417766400 (-46)) =
      S754_finite false m' e' /\
    2 ^ 52 <= Zpos m' < 2 ^ 53 /\
    (e' <= -47 \/ (e' = -46 /\ Zpos m' <= 7036874417766400)).
Proof.
  intros Hm He. unfold SFmul. cbn [xorb].
  set (P := Zpos (m * 7036874417766400)).
  assert (HP : P = Zpos m * 7036874417766400) by reflexivity.
  assert (Hd : Zdigits2 P = 105 \/ Zdigits2 P = 106).
  { destruct (Z.lt_ge_cases P (2 ^ 105)).
    - left. apply Zdigits2_unique; lia.
    - right. apply Zdigits2_unique; lia. }
  destruct (binary_round_aux_normal P (e + -46) loc_Exact)
    as (m' & e' & E & Hm' & Hval & _); try lia.
  exists m', e'. split; [exact E|]. split; [exact Hm'|].
  destruct Hd as [Hd|Hd]; rewrite Hd in Hval.
  - destruct Hval as [[-> _]|[-> [-> _]]]; lia.
  - assert (Hq : P / 2 ^ (106 - 53) < 7036874417766400).
    { apply Z.div_lt_upper_bound; lia. }
    destruct Hval as [[-> Hb]|[_ [_ Hb]]]; [|lia].
    destruct (Z.eq_dec e (-53)); [right|left]; lia.
Qed.

Lemma Math_round_hundred (m : positive) (e : Z) :
  2 ^ 52 <= Zpos m < 2 ^ 53 ->
  e <= -47 \/ (e = -46 /\ Zpos m <= 7036874417766400) ->
  exists z, Number.Math_round (S754_finite false m e) = Some z /\
            0 <= z <= 100.
Proof.
  intros Hm He. unfold Number.Math_round. eexists. split; [reflexivity|].
  destruct (Z.leb_spec 0 e) as [H|H]; [lia|].
  assert (H47 : 2 ^ 47 <= 2 ^ (1 - e)) by (apply Z.pow_le_mono_r; lia).
  assert (Hpow : 2 ^ (1 - e) = 2 * 2 ^ (- e)).
  { replace (1 - e) with (Z.succ (- e)) by lia. apply Z.pow_succ_r. lia. }
  split.
  - apply Z.div_pos; lia.
  - apply Z.lt_succ_r. apply Z.div_lt_upper_bound; [lia|].
    destruct He as [He|[-> Hm']].
    + assert (2 ^ 48 <= 2 ^ (1 - e)) by (apply Z.pow_le_mono_r; lia). lia.
    + change (2 ^ (1 - -46)) with (2 ^ 47). change (2 ^ (- -46)) with (2 ^ 46).
      lia.
Qed.

Lemma lt_normal (c n : Z) (mc mn : positive) (ec en : Z) :
  c < n ->
  2 ^ 52 <= Zpos mc < 2 ^ 53 -> 2 ^ 52 <= Zpos mn < 2 ^ 53 ->
  -52 <= ec <= 1 -> -52 <= en <= 1 ->
  Zpos mc * 2 ^ (ec + 52) = c * 2 ^ 52 ->
  Zpos mn * 2 ^ (en + 52) = n * 2 ^ 52 ->
  ec < en \/ (ec = en /\ Zpos mc < Zpos mn).
Proof.
  intros Hlt Hmc Hmn Hec Hen Ec En.
  assert (HA : 0 < 2 ^ (en + 52)) by (apply Z.pow_pos_nonneg; lia).
  destruct (Z.lt_trichotomy ec en) as [H|[H|H]]; [now left| |].
  - right. split; [exact H|]. subst ec. nia.
  - exfalso.
    assert (HB : 2 ^ (ec + 52) = 2 ^ (ec - en) * 2 ^ (en + 52)).
    { rewrite <- Z.pow_add_r by lia. f_equal. lia. }
    assert (HC : 2 ^ 1 <= 2 ^ (ec - en)) by (apply Z.pow_le_mono_r; lia).
    change (2 ^ 1) with 2 in HC. nia.
Qed.

(** The writing score of [c] right words out of [n]: an integer from 0 to
    100, and 100 when all are right. *)
Lemma writing_score_range (c n : nat) :
  (c <= n)%nat -> (1 <= n)%nat -> Z.of_nat n <= 2 ^ 53 ->
  exists z, writing_score c n = Some z /\ 0 <= z <= 100 /\
            (c = n -> z = 100).
Proof.
  intros Hcn Hn Hmax. unfold writing_score, Number.div, Number.mul, Number.of_Z.
  unfold Number.prec, Number.emax.
  change (binary_normalize 53 1024 100 0 false)
    with (S754_finite false 7036874417766400 (-46)).
  destruct (of_Z_normal (Z.of_nat n)) as (mn & en & En & Hmn & Hen & Vn);
    [lia|]. rewrite En.
  destruct (Nat.eq_dec c 0%nat) as [->|Hc0].
  { exists 0. cbn. split; [reflexivity|]. split; [lia|]. intros <-. lia. }
  destruct (Nat.eq_dec c n) as [->|Hne].
  { rewrite En, SFdiv_self. exists 100. split; [reflexivity|]. lia. }
  destruct (of_Z_normal (Z.of_nat c)) as (mc & ec & Ec & Hmc & Hec & Vc);
    [lia|]. rewrite Ec.
  assert (Hlex : ec < en \/ (ec = en /\ Zpos mc < Zpos mn)).
  { apply (lt_normal (Z.of_nat c) (Z.of_nat n)); try assumption. lia. }
  destruct (SFdiv_lt_one mc mn ec en) as (m & e & E & Hm & Hlo & Hle);
    try assumption.
  rewrite E.
  destruct Hle as [Hle|[-> Em]].
  - destruct (SFmul_hundred m e Hm) as (m' & e' & E' & Hm' & Hle'); [lia|].
    rewrite E'.
    destruct (Math_round_hundred m' e' Hm' Hle') as (z & Ez & Hz).
    exists z. split; [exact Ez|]. split; [exact Hz|]. intros ->. lia.
  - assert (m = (2 ^ 52)%positive) as -> by lia.
    exists 100. split; [reflexivity|]. split; [lia|reflexivity].
Qed.

(** *** Sums of counts *)






Lemma of_Z_one : Number.of_Z 1 = S754_finite false (2 ^ 52) (-52).
Proof. reflexivity. Qed.


End Binary64.

(** ** Score updates *)

Section Scoring.



End Scoring.

(** ** The writing check *)

Section Writing.

Lemma short_scores_below_hundred : forallb below_hundred (seq 1 199) = true.
Proof. vm_compute. reflexivity. Qed.

Lemma writing_score_short (c n : nat) :
  (c < n)%nat -> (n < 200)%nat -> writing_score c n <> Some 100.
Proof.
  intros Hc Hn.
  pose proof short_scores_below_hundred as H.
  rewrite forallb_forall in H.
  assert (Hin : In n (seq 1 199)) by (apply in_seq; lia).
  specialize (H n Hin). unfold below_hundred in H.
  rewrite forallb_forall in H.
  assert (Hin' : In c (seq 0 n)) by (apply in_seq; lia).
  specialize (H c Hin'). intros E. rewrite E in H. discriminate.
Qed.

(** The score is computed in binary64: 23 right words out of 40 give 57,
    since [0.575 * 100] is [57.49999999999999]. *)
Example writing_score_examples :
  writing_score 2 3 = Some 67 /\ writing_score 1 8 = Some 13 /\
  writing_score 23 40 = Some 57 /\ writing_score 199 200 = Some 100 /\
  writing_score 0 1 = Some 0 /\ writing_score 1 1 = Some 100.
Proof. vm_compute. repeat split. Qed.

Lemma mapWords_length (original userWords targetWords : list string)
  (idx c : nat) :
  length (fst (mapWords original userWords idx targetWords c)) =
  length targetWords.
Proof.
  revert idx c. induction targetWords as [|w rest IH]; intros idx c; cbn;
    [reflexivity|].
  specialize (IH (S idx)
    (if isCorrect (diffItem original userWords idx w) then S c else c)).
  destruct (mapWords original userWords (S idx) rest _) as [items n].
  cbn in *. now rewrite IH.
Qed.

Lemma mapWords_lookup (original userWords targetWords : list string)
  (idx c k : nat) (w : string) :
  targetWords !! k = Some w ->
  fst (mapWords original userWords idx targetWords c) !! k =
  Some (diffItem original userWords (idx + k) w).
Proof.
  revert idx c k. induction targetWords as [|w0 rest IH]; intros idx c k;
    [discriminate|]. cbn.
  specialize (IH (S idx)
    (if isCorrect (diffItem original userWords idx w0) then S c else c)).
  destruct (mapWords original userWords (S idx) rest _) as [items n].
  cbn in *. destruct k as [|k]; cbn.
  - intros [= ->]. now rewrite Nat.add_0_r.
  - intros H. replace (idx + S k)%nat with (S (idx + k)) by lia.
    now apply IH.
Qed.

Lemma mapWords_count (original userWords targetWords : list string)
  (idx c : nat) :
  snd (mapWords original userWords idx targetWords c) =
  (c + correct_count (fst (mapWords original userWords idx targetWords c)))%nat.
Proof.
  revert idx c. induction targetWords as [|w rest IH]; intros idx c;
    cbn [mapWords].
  - unfold correct_count. cbn. lia.
  - set (item := diffItem original userWords idx w).
    specialize (IH (S idx) (if isCorrect item then S c else c)).
    destruct (mapWords original userWords (S idx) rest _) as [items n].
    cbn [fst snd] in *. rewrite IH. unfold correct_count.
    cbn [List.filter]. destruct (isCorrect item); cbn [length]; lia.
Qed.

Lemma correct_count_le (d : list DiffItem) : (correct_count d <= length d)%nat.
Proof. unfold correct_count. apply filter_length_le. Qed.

Lemma correct_count_all (d : list DiffItem) :
  correct_count d = length d <->
  forall k item, d !! k = Some item -> isCorrect item = true.
Proof.
  unfold correct_count. induction d as [|x d IH]; cbn.
  - split; [intros _ k item; discriminate|reflexivity].
  - pose proof (List.filter_length_le isCorrect d) as Hle.
    destruct (isCorrect x) eqn:Ex; cbn.
    + split.
      * intros H [|k] item; cbn; [now intros [= <-]|].
        apply IH. lia.
      * intros H. f_equal. apply IH. intros k item Hk. now apply (H (S k)).
    + split; [lia|]. intros H. specialize (H 0%nat x eq_refl). congruence.
Qed.

Lemma diffItem_correct (original userWords : list string) (idx : nat)
  (w : string) :
  isCorrect (diffItem original userWords idx w) = true <->
  userWords !! idx = Some w.
Proof.
  unfold diffItem. cbn. destruct (userWords !! idx) as [u|].
  - rewrite String.eqb_eq. split; congruence.
  - split; discriminate.
Qed.

Lemma toLowerCase_length (s : string) :
  String.length (toLowerCase s) = String.length s.
Proof. induction s; simpl; congruence. Qed.

Lemma remove_punct_length (s : string) :
  (String.length (remove_punct s) <= String.length s)%nat.
Proof.
  induction s as [|c s IH]; simpl; [lia|]. destruct (is_punct c); simpl; lia.
Qed.

Lemma collapse_length (b : bool) (s : string) :
  (String.length (collapse_from b s) <= String.length s)%nat.
Proof.
  revert b. induction s as [|c s IH]; intros b; simpl; [lia|].
  pose proof (IH true). pose proof (IH false).
  destruct (is_space c); [destruct b|]; simpl; lia.
Qed.

Lemma trimStart_length (s : string) :
  (String.length (trimStart s) <= String.length s)%nat.
Proof.
  induction s as [|c s IH]; simpl; [lia|]. destruct (is_space c); simpl; lia.
Qed.

Lemma trimEnd_length (s : string) :
  (String.length (trimEnd s) <= String.length s)%nat.
Proof.
  induction s as [|c s IH]; simpl; [lia|].
  destruct (trimEnd s); [destruct (is_space c)|]; simpl in *; lia.
Qed.

Lemma normalizeText_length (s : string) :
  (String.length (normalizeText s) <= String.length s)%nat.
Proof.
  unfold normalizeText, trim, collapse_spaces.
  pose proof (trimEnd_length
                (trimStart (collapse_from false (remove_punct (toLowerCase s))))).
  pose proof (trimStart_length
                (collapse_from false (remove_punct (toLowerCase s)))).
  pose proof (collapse_length false (remove_punct (toLowerCase s))).
  pose proof (remove_punct_length (toLowerCase s)).
  pose proof (toLowerCase_length s). lia.
Qed.

Lemma split_space_length (s : string) :
  (1 <= length (split_space s) <= S (String.length s))%nat.
Proof.
  induction s as [|c s IH]; simpl; [lia|].
  destruct (Ascii.eqb c " "); simpl; [lia|].
  destruct (split_space s); simpl in *; lia.
Qed.

Lemma targetWords_length (canonical : string) :
  Z.of_nat (String.length canonical) < 2 ^ 53 ->
  (1 <= length (split_space (normalizeText canonical)))%nat /\
  Z.of_nat (length (split_space (normalizeText canonical))) <= 2 ^ 53.
Proof.
  intros H. pose proof (split_space_length (normalizeText canonical)).
  pose proof (normalizeText_length canonical). lia.
Qed.

(** What [writingCheck] returns, for a canonical text no longer than a string
    can be. *)
Lemma writingCheck_Some (canonical input : string) :
  Z.of_nat (String.length canonical) < 2 ^ 53 ->
  let targetWords := split_space (normalizeText canonical) in
  let userWords := split_space (normalizeText input) in
  let d := fst (mapWords (split_space canonical) userWords 0 targetWords 0) in
  exists z,
    writing_score (correct_count d) (length targetWords) = Some z /\
    writingCheck canonical input = Some (mkWritingResult z d) /\
    0 <= z <= 100 /\
    (correct_count d = length targetWords -> z = 100).
Proof.
  intros Hlen tw uw d.
  destruct (targetWords_length canonical Hlen) as [H1 H2]. fold tw in H1, H2.
  pose proof (mapWords_length (split_space canonical) uw tw 0 0) as Hl.
  pose proof (mapWords_count (split_space canonical) uw tw 0 0) as Hc.
  fold d in Hl, Hc. cbn in Hc.
  pose proof (correct_count_le d) as Hle. rewrite Hl in Hle.
  destruct (writing_score_range (correct_count d) (length tw) Hle H1 H2)
    as (z & Ez & Hz & Hfull).
  exists z. split; [exact Ez|]. split; [|split; assumption].
  unfold writingCheck. fold tw uw. unfold d in *.
  destruct (mapWords (split_space canonical) uw 0 tw 0) as [items n].
  cbn in *. subst n. now rewrite Ez.
Qed.

Lemma all_match_count (canonical input : string) :
  let targetWords := split_space (normalizeText canonical) in
  let userWords := split_space (normalizeText input) in
  let d := fst (mapWords (split_space canonical) userWords 0 targetWords 0) in
  correct_count d = length targetWords <->
  forall idx w, targetWords !! idx = Some w -> userWords !! idx = Some w.
Proof.
  intros tw uw d.
  pose proof (mapWords_length (split_space canonical) uw tw 0 0) as Hl.
  fold d in Hl. rewrite <- Hl, correct_count_all. split.
  - intros H idx w Hw.
    pose proof (mapWords_lookup (split_space canonical) uw tw 0 0 idx w Hw)
      as Hd. fold d in Hd. cbn in Hd.
    apply (diffItem_correct (split_space canonical) uw idx w).
    now apply (H idx).
  - intros H k item Hk.
    assert (Hlt : (k < length tw)%nat).
    { rewrite <- Hl. now apply lookup_lt_Some in Hk. }
    destruct (lookup_lt_is_Some_2 tw k Hlt) as [w Hw].
    pose proof (mapWords_lookup (split_space canonical) uw tw 0 0 k w Hw)
      as Hd. fold d in Hd. cbn in Hd. rewrite Hk in Hd. injection Hd as ->.
    apply diffItem_correct. now apply H.
Qed.

(** C2 (as stated) fails: with 201 canonical words of which the user has 200
    right and the last one wrong, the score is 100. *)
Lemma score_hundred_with_a_wrong_word :
  option_map score (writingCheck long_text long_input) = Some 100 /\
  split_space (normalizeText long_text) !! 200%nat = Some "a" /\
  split_space (normalizeText long_input) !! 200%nat = Some "b".
Proof. vm_compute. repeat split. Qed.

(** C2 (as amended): for a canonical text no longer than a string can be,
    the writing check yields a score that is an integer from 0 to 100; the
    score is 100 when the user has the matching word at every canonical
    position; and a score of 100 means that every position matches provided
    the canonical text has fewer than 200 normalized words. *)
Theorem writing_score_spec (canonical input : string)
  (Hlen : Z.of_nat (String.length canonical) < 2 ^ 53) :
  let targetWords := split_space (normalizeText canonical) in
  let userWords := split_space (normalizeText input) in
  exists wr,
    writingCheck canonical input = Some wr /\
    0 <= score wr <= 100 /\
    ((forall idx w, targetWords !! idx = Some w -> userWords !! idx = Some w) ->
     score wr = 100) /\
    ((length targetWords < 200)%nat -> score wr = 100 ->
     forall idx w, targetWords !! idx = Some w -> userWords !! idx = Some w).
Proof.
  intros tw uw.
  destruct (writingCheck_Some canonical input Hlen) as (z & Ez & E & Hz & Hfull).
  pose proof (all_match_count canonical input) as Hall. cbn zeta in Hall.
  fold tw uw in Ez, Hfull, Hall.
  set (d := fst (mapWords (split_space canonical) uw 0 tw 0)) in *.
  exists (mkWritingResult z d). split; [exact E|]. split; [exact Hz|].
  cbn [score]. split.
  - intros H. apply Hfull. now apply Hall.
  - intros Hshort -> . apply Hall.
    pose proof (mapWords_length (split_space canonical) uw tw 0 0) as Hl.
    fold d in Hl. pose proof (correct_count_le d) as Hle. rewrite Hl in Hle.
    destruct (Nat.eq_dec (correct_count d) (length tw)) as [Heq|Hne];
      [exact Heq|].
    exfalso. apply (writing_score_short (correct_count d) (length tw));
      [lia|exact Hshort|exact Ez].
Qed.

Lemma writing_score_spec_witness :
  Z.of_nat (String.length "The cat sat.") < 2 ^ 53 /\
  exists wr,
    writingCheck "The cat sat." "the cat sit" = Some wr /\
    0 <= score wr <= 100.
Proof.
  assert (H : Z.of_nat (String.length "The cat sat.") < 2 ^ 53)
    by (vm_compute; reflexivity).
  split; [exact H|].
  destruct (writing_score_spec "The cat sat." "the cat sit" H)
    as (wr & E & Hz & _).
  exists wr. split; [exact E|exact Hz].
Defined.

(** C3 (as stated) fails on its example: the third entry of the diff shows
    the canonical word as it was written, "sat.", not the normalized "sat". *)
Lemma diff_shows_original_word :
  writingCheck "The cat sat." "the cat sit" =
    Some (mkWritingResult 67
            [mkDiffItem "The" true; mkDiffItem "cat" true;
             mkDiffItem "sat." false]) /\
  writingCheck "The cat sat." "the cat sit" <>
    Some (mkWritingResult 67
            [mkDiffItem "The" true; mkDiffItem "cat" true;
             mkDiffItem "sat" false]).
Proof. split; [vm_compute; reflexivity|vm_compute; discriminate]. Qed.

(** C3 (as amended): the writing check normalizes both texts and splits them
    at the spaces; its diff has one entry for each canonical word, marked
    correct exactly when the user has that same word at that index (so never
    past the end of the input), and showing the word at that index of the
    canonical text as written (the normalized word when there is none); the
    score is [Math.round] of the number of correct entries divided by the
    number of canonical words and multiplied by 100, in binary64.  For
    "The cat sat." and "the cat sit" the diff is The (right), cat (right),
    "sat." (wrong) and the score is 67. *)
Theorem writingCheck_spec (canonical input : string)
  (Hlen : Z.of_nat (String.length canonical) < 2 ^ 53) :
  let targetWords := split_space (normalizeText canonical) in
  let userWords := split_space (normalizeText input) in
  let original := split_space canonical in
  (exists wr,
     writingCheck canonical input = Some wr /\
     length (diff wr) = length targetWords /\
     (forall idx w, targetWords !! idx = Some w ->
        exists item,
          diff wr !! idx = Some item /\
          (isCorrect item = true <-> userWords !! idx = Some w) /\
          word item = match original !! idx with
                      | Some o => if truthy o then o else w
                      | None => w
                      end) /\
     writing_score (correct_count (diff wr)) (length targetWords) =
       Some (score wr)) /\
  writingCheck "The cat sat." "the cat sit" =
    Some (mkWritingResult 67
            [mkDiffItem "The" true; mkDiffItem "cat" true;
             mkDiffItem "sat." false]).
Proof.
  intros tw uw ow. split; [|vm_compute; reflexivity].
  destruct (writingCheck_Some canonical input Hlen) as (z & Ez & E & _).
  fold tw uw ow in Ez, E.
  set (d := fst (mapWords ow uw 0 tw 0)) in *.
  exists (mkWritingResult z d). split; [exact E|]. cbn [diff score].
  split; [apply mapWords_length|]. split; [|exact Ez].
  intros idx w Hw. exists (diffItem ow uw idx w). split.
  - unfold d. now rewrite (mapWords_lookup ow uw tw 0 0 idx w Hw).
  - split; [apply diffItem_correct|reflexivity].
Qed.

Lemma writingCheck_spec_witness :
  Z.of_nat (String.length "Good morning!") < 2 ^ 53 /\
  exists wr,
    writingCheck "Good morning!" "good" = Some wr /\
    length (diff wr) = 2%nat.
Proof.
  assert (H : Z.of_nat (String.length "Good morning!") < 2 ^ 53)
    by (vm_compute; reflexivity).
  split; [exact H|].
  destruct (writingCheck_spec "Good morning!" "good" H)
    as [(wr & E & Hl & _) _].
  exists wr. split; [exact E|exact Hl].
Defined.

(** C10: for a canonical text no longer than a string can be and any input,
    empty or made of punctuation included, the list of normalized canonical
    words is not empty, the divisor of the score is a finite number that is
    not zero, and [writingCheck] returns a result whose diff has one entry for
    each normalized canonical word. *)
Theorem writingCheck_total (canonical input : string)
  (Hlen : Z.of_nat (String.length canonical) < 2 ^ 53) :
  let targetWords := split_space (normalizeText canonical) in
  (1 <= length targetWords)%nat /\
  (exists m e,
     Number.of_Z (Z.of_nat (length targetWords)) = S754_finite false m e) /\
  exists wr,
    writingCheck canonical input = Some wr /\
    length (diff wr) = length targetWords.
Proof.
  intros tw.
  destruct (targetWords_length canonical Hlen) as [H1 H2]. fold tw in H1, H2.
  split; [exact H1|]. split.
  - destruct (of_Z_normal (Z.of_nat (length tw))) as (m & e & E & _); [lia|].
    now exists m, e.
  - destruct (writingCheck_Some canonical input Hlen) as (z & _ & E & _).
    eexists. split; [exact E|]. apply mapWords_length.
Qed.

Lemma writingCheck_total_witness :
  Z.of_nat (String.length "...") < 2 ^ 53 /\
  split_space (normalizeText "...") = [""] /\
  exists wr,
    writingCheck "..." "" = Some wr /\
    length (diff wr) = length (split_space (normalizeText "...")).
Proof.
  assert (H : Z.of_nat (String.length "...") < 2 ^ 53)
    by (vm_compute; reflexivity).
  split; [exact H|]. split; [reflexivity|].
  destruct (writingCheck_total "..." "" H) as (_ & _ & Hwr). exact Hwr.
Defined.

End Writing.

(** * Further properties *)

(** ** Deleting, saving and scoring *)

Section LibraryMore.

Lemma filter_sublist_bool {A : Type} (f : A -> bool) (l : list A) :
  sublist (List.filter f l) l.
Proof.
  induction l as [|x l IH]; cbn; [constructor|].
  destruct (f x); now constructor.
Qed.

Lemma filter_all_true {A : Type} (f : A -> bool) (l : list A) :
  (forall x, In x l -> f x = true) -> List.filter f l = l.
Proof.
  induction l as [|x l IH]; cbn; intros H; [reflexivity|].
  rewrite (H x) by now left. f_equal. apply IH. intros y Hy. apply H. now right.
Qed.

(** X1: a confirmed [deleteSavedPhrase] keeps exactly the phrases with
    another identifier, in their order, and stores them; it changes nothing
    when no phrase has the identifier or when the user does not confirm. *)
Theorem deleteSavedPhrase_spec (id0 : string) (s : App) :
  let s' := deleteSavedPhrase id0 true s in
  (forall p, In p (savedPhrases s') <-> In p (savedPhrases s) /\ id p <> id0) /\
  sublist (savedPhrases s') (savedPhrases s) /\
  ((forall p, In p (savedPhrases s) -> id p <> id0) ->
   savedPhrases s' = savedPhrases s) /\
  fluentify_phrases s' = Some (savedPhrases s') /\
  targetText s' = targetText s /\ exercise s' = exercise s /\
  deleteSavedPhrase id0 false s = s.
Proof.
  cbn zeta. unfold deleteSavedPhrase. cbn. split; [|split; [|split]].
  - intros p. rewrite filter_In. rewrite negb_true_iff.
    destruct (String.eqb_spec (id p) id0); intuition congruence.
  - apply filter_sublist_bool.
  - intros H. apply filter_all_true. intros p Hp. apply negb_true_iff.
    destruct (String.eqb_spec (id p) id0) as [E|E]; [|reflexivity].
    now elim (H p Hp).
  - repeat split.
Qed.

(** X2: deleting the identifier just drawn for a saved phrase gives back the
    library as it was before the phrase was saved. *)
Theorem save_then_delete (uuid : string) (now : Z) (s : App)
  (Hfresh : forall q, In q (savedPhrases s) -> id q <> uuid) :
  savedPhrases (deleteSavedPhrase uuid true (handleSavePhrase uuid now s)) =
  savedPhrases s.
Proof.
  assert (Hf : List.filter (fun p => negb (String.eqb (id p) uuid))
                           (savedPhrases s) = savedPhrases s).
  { apply filter_all_true. intros p Hp. apply negb_true_iff.
    destruct (String.eqb_spec (id p) uuid) as [E|E]; [|reflexivity].
    now elim (Hfresh p Hp). }
  unfold handleSavePhrase.
  destruct (negb (truthy (trim (targetText s)))); unfold deleteSavedPhrase; cbn.
  - exact Hf.
  - rewrite String.eqb_refl. cbn. exact Hf.
Qed.

Lemma save_then_delete_witness :
  (forall q, In q (savedPhrases app_one) -> id q <> "id-2") /\
  savedPhrases (handleSavePhrase "id-2" 7 app_one) <> savedPhrases app_one /\
  savedPhrases (deleteSavedPhrase "id-2" true
                  (handleSavePhrase "id-2" 7 app_one)) =
  savedPhrases app_one.
Proof.
  assert (H : forall q, In q (savedPhrases app_one) -> id q <> "id-2").
  { intros q [<-|[]]. discriminate. }
  split; [exact H|]. split; [discriminate|].
  exact (save_then_delete "id-2" 7 app_one H).
Defined.

End LibraryMore.

(** ** More on import *)

Section ImportMore.

Lemma first_occurrences_In (t : string) (l : list string) :
  In t (first_occurrences l) <-> In t l.
Proof.
  induction l as [|x l IH]; cbn; [tauto|].
  rewrite filter_In, IH, negb_true_iff.
  destruct (String.eqb_spec t x) as [->|Hne]; [tauto|].
  split; [tauto|]. intros [E|H]; [congruence|auto].
Qed.

Lemma first_occurrences_length (l : list string) :
  (length (first_occurrences l) <= length l)%nat.
Proof.
  induction l as [|x l IH]; cbn; [lia|].
  pose proof (List.filter_length_le (fun y => negb (String.eqb y x))
                (first_occurrences l)). lia.
Qed.

Lemma first_occurrences_fixed (l : list string) :
  NoDup l -> first_occurrences l = l.
Proof.
  induction l as [|x l IH]; cbn; intros Hnd; [reflexivity|].
  apply NoDup_cons in Hnd as [Hx Hl]. rewrite (IH Hl). f_equal.
  apply filter_all_true. intros y Hy. apply negb_true_iff.
  destruct (String.eqb_spec y x) as [->|]; [|reflexivity].
  exfalso. apply Hx. now apply list_elem_of_In.
Qed.

Lemma filter_absent_head (x : string) (a l : list string) :
  List.filter (fun y => negb (String.eqb y x))
              (List.filter (fun y => negb (mem_string y a)) l) =
  List.filter (fun y => negb (mem_string y (x :: a))) l.
Proof.
  induction l as [|y l IH]; [reflexivity|].
  cbn [List.filter].
  assert (E : mem_string y (x :: a) = String.eqb y x || mem_string y a)
    by reflexivity.
  rewrite E. destruct (mem_string y a) eqn:Em; cbn [negb].
  - rewrite orb_true_r. cbn [negb]. exact IH.
  - rewrite orb_false_r. cbn [List.filter].
    destruct (String.eqb y x); cbn [negb]; [exact IH|now rewrite IH].
Qed.

Lemma first_occurrences_app (a b : list string) :
  first_occurrences (a ++ b) =
  first_occurrences a ++
  List.filter (fun y => negb (mem_string y a)) (first_occurrences b).
Proof.
  induction a as [|x a IH]; cbn [app first_occurrences].
  - symmetry. apply filter_all_true. reflexivity.
  - cbn [app]. f_equal. rewrite IH, List.filter_app. f_equal.
    apply filter_absent_head.
Qed.

Lemma filter_absent_nil (a l : list string) :
  (forall y, In y l -> In y a) ->
  List.filter (fun y => negb (mem_string y a)) l = [].
Proof.
  induction l as [|y l IH]; cbn; intros H; [reflexivity|].
  assert (E : mem_string y a = true) by (apply mem_string_In, H; now left).
  rewrite E. cbn. apply IH. intros z Hz. apply H. now right.
Qed.

Lemma filter_absent_twice (a l : list string) :
  List.filter (fun y => negb (mem_string y a))
              (List.filter (fun y => negb (mem_string y a)) l) =
  List.filter (fun y => negb (mem_string y a)) l.
Proof.
  apply filter_all_true. intros y Hy. now apply filter_In in Hy.
Qed.

Lemma first_occurrences_absorb (a b : list string) :
  first_occurrences (a ++ first_occurrences (a ++ b)) =
  first_occurrences (a ++ b).
Proof.
  rewrite (first_occurrences_app a (first_occurrences (a ++ b))).
  rewrite (first_occurrences_fixed (first_occurrences (a ++ b)))
    by apply first_occurrences_NoDup.
  rewrite (first_occurrences_app a b), List.filter_app.
  rewrite filter_absent_twice, filter_absent_nil; [reflexivity|].
  intros y. apply first_occurrences_In.
Qed.

(** The texts of a merge, and where its entities come from. *)
Lemma merge_import_texts (items saved : list SavedPhrase) :
  map text (merge_import items saved) =
  first_occurrences (map text (items ++ saved)).
Proof.
  unfold merge_import, Map_values.
  set (m := Map_new (map (fun item => (text item, item)) (items ++ saved))).
  assert (Htext : map text (map snd m) = map fst m).
  { rewrite map_map. apply map_ext_in. intros [k p] Hin. cbn.
    symmetry. now apply (Map_new_entries_text (items ++ saved)). }
  rewrite Htext. unfold m, Map_new.
  pose proof (Map_keys_fold (entries (items ++ saved)) []) as H.
  unfold Map_keys, entries in H. rewrite H. cbn [map app].
  rewrite map_map. cbn [fst].
  change (map (fun x : SavedPhrase => text x) (items ++ saved))
    with (map text (items ++ saved)).
  apply filter_all_true. reflexivity.
Qed.

Lemma merge_import_last (items saved : list SavedPhrase) (p : SavedPhrase) :
  In p (merge_import items saved) ->
  last_binding (text p) (entries (items ++ saved)) = Some p.
Proof.
  intros Hin.
  pose proof (merge_import_texts items saved) as Ht.
  unfold merge_import, Map_values in Hin, Ht.
  fold (entries (items ++ saved)) in Hin, Ht.
  set (m := Map_new (entries (items ++ saved))) in *.
  apply in_map_iff in Hin as ([k q] & E & Hin). cbn in E. subst q.
  pose proof (Map_new_entries_text _ _ _ Hin) as ->.
  assert (Hkeys : Map_keys m = first_occurrences (map text (items ++ saved))).
  { rewrite <- Ht. unfold Map_keys. rewrite map_map.
    apply map_ext_in. intros [k q] Hq. cbn.
    now apply (Map_new_entries_text (items ++ saved)). }
  assert (Hm : Map_get (text p) m = Some p).
  { apply Map_get_In; [|exact Hin]. rewrite Hkeys.
    apply first_occurrences_NoDup. }
  pose proof (Map_get_fold (text p) (entries (items ++ saved)) []) as H.
  cbn [Map_get] in H. unfold m, Map_new in Hm. rewrite Hm in H.
  now destruct (last_binding _ _).
Qed.

Lemma merge_import_origin (items saved : list SavedPhrase) (p : SavedPhrase) :
  In p (merge_import items saved) -> In p items \/ In p saved.
Proof.
  intros Hin. apply merge_import_last in Hin.
  apply last_binding_entries_In in Hin as [Hin _].
  now apply in_app_iff in Hin.
Qed.

(** Two sequences of phrases with the same texts, all different, are equal
    as soon as the phrases of the first are among those of the second. *)
Lemma phrases_determined (r1 r2 : list SavedPhrase) :
  map text r1 = map text r2 -> NoDup (map text r2) ->
  (forall p, In p r1 -> In p r2) -> r1 = r2.
Proof.
  revert r2. induction r1 as [|p r1 IH]; intros [|q r2] Ht Hnd Hin;
    try discriminate; [reflexivity|].
  cbn in Ht. injection Ht as Epq Ht.
  cbn in Hnd. apply NoDup_cons in Hnd as [Hq Hnd].
  assert (Hq' : forall x, In x r2 -> text x <> text q).
  { intros x Hx E. apply Hq. rewrite <- E. apply list_elem_of_In.
    now apply in_map. }
  assert (p = q) as ->.
  { destruct (Hin p (or_introl eq_refl)) as [E|Hp]; [congruence|].
    now elim (Hq' p Hp). }
  f_equal. apply IH; [exact Ht|exact Hnd|].
  intros x Hx. destruct (Hin x (or_intror Hx)) as [<-|Hx']; [|exact Hx'].
  exfalso. apply Hq. rewrite <- Ht. apply list_elem_of_In. now apply in_map.
Qed.

(** X4: importing the same records a second time changes nothing. *)
Theorem merge_import_again (items saved : list SavedPhrase) :
  merge_import items (merge_import items saved) = merge_import items saved.
Proof.
  set (r := merge_import items saved).
  assert (Ht : map text (merge_import items r) = map text r).
  { rewrite merge_import_texts, map_app. unfold r at 1.
    rewrite merge_import_texts, map_app. unfold r.
    rewrite merge_import_texts, map_app. apply first_occurrences_absorb. }
  apply phrases_determined; [exact Ht| |].
  - unfold r. rewrite merge_import_texts. apply first_occurrences_NoDup.
  - intros p Hp. pose proof (merge_import_last items r p Hp) as Hl.
    unfold entries in Hl. rewrite map_app in Hl.
    fold (entries items) in Hl. fold (entries r) in Hl.
    rewrite last_binding_app in Hl.
    destruct (last_binding (text p) (entries r)) as [p'|] eqn:E.
    + injection Hl as ->. now apply last_binding_entries_In in E.
    + exfalso.
      assert (Hin : In (text p) (map text r)).
      { rewrite <- Ht. now apply in_map. }
      apply in_map_iff in Hin as (q & Eq & Hq).
      apply (last_binding_entries_Some q r Hq). now rewrite Eq.
Qed.

Lemma merge_import_distinct (items saved l : list SavedPhrase) :
  NoDup (map text l) ->
  map text (items ++ saved) = map text l ->
  (forall p, In p items \/ In p saved -> In p l) ->
  merge_import items saved = l.
Proof.
  intros Hnd Ht Hin. apply phrases_determined; [|exact Hnd|].
  - rewrite merge_import_texts, Ht. now apply first_occurrences_fixed.
  - intros p Hp. apply Hin. now apply merge_import_origin.
Qed.

(** X5: importing an empty array leaves the library as it is exactly when
    its texts are all different (otherwise it drops phrases); a library with
    different texts is also what comes out of importing its own export,
    into itself or into the emptied library. *)
Theorem import_of_backup (l : list SavedPhrase) :
  (merge_import [] l = l <-> NoDup (map text l)) /\
  (NoDup (map text l) -> merge_import l [] = l /\ merge_import l l = l) /\
  (length (merge_import [] l) <= length l)%nat.
Proof.
  split; [split|split].
  - intros E. rewrite <- E, merge_import_texts. apply first_occurrences_NoDup.
  - intros Hnd. apply merge_import_distinct; [exact Hnd|reflexivity|].
    intros p [[]|Hp]. exact Hp.
  - intros Hnd. split.
    + apply merge_import_distinct; [exact Hnd|now rewrite app_nil_r|].
      intros p [Hp|[]]. exact Hp.
    + apply phrases_determined; [|exact Hnd|].
      * rewrite merge_import_texts, map_app.
        rewrite (first_occurrences_app (map text l) (map text l)).
        rewrite (first_occurrences_fixed _ Hnd).
        rewrite filter_absent_nil; [apply app_nil_r|auto].
      * intros p Hp. apply merge_import_origin in Hp. tauto.
  - rewrite <- (length_map text (merge_import [] l)), merge_import_texts.
    cbn [app]. rewrite <- (length_map text l).
    apply first_occurrences_length.
Qed.

(** X6: an import loses no text and invents no phrase: the texts of the
    merged library are those of the imported records and of the stored
    phrases, every merged phrase is one of them, and there are no more
    merged phrases than records and phrases together. *)
Theorem merge_import_conserves (items saved : list SavedPhrase) :
  (forall t, In t (map text (merge_import items saved)) <->
             In t (map text items) \/ In t (map text saved)) /\
  (forall p, In p (merge_import items saved) -> In p items \/ In p saved) /\
  (length (merge_import items saved) <= length items + length saved)%nat.
Proof.
  split; [|split].
  - intros t. rewrite merge_import_texts, first_occurrences_In, map_app.
    apply in_app_iff.
  - apply merge_import_origin.
  - rewrite <- (length_map text (merge_import items saved)).
    rewrite merge_import_texts.
    pose proof (first_occurrences_length (map text (items ++ saved))) as H.
    rewrite length_map, length_app in H. exact H.
Qed.

End ImportMore.

(** ** Invariants of the handlers *)

Section Invariants.

Ltac break_match :=
  repeat match goal with
         | |- context [match ?x with _ => _ end] => destruct x eqn:?
         end.

Lemma handle_library_frame (s : App) (ev : Event) :
  match ev with
  | EvSave _ _ | EvDelete _ _ | EvImport _ _ | EvClear _ | EvScore _ _ =>
      exercise (handle s ev) = exercise s /\
      targetText (handle s ev) = targetText s /\
      status (handle s ev) = status s
  | _ => True
  end.
Proof.
  destruct ev; try exact I; cbn [handle];
    unfold handleSavePhrase, deleteSavedPhrase, handleImport, clearLibrary,
      updatePhraseScore;
    break_match; cbn; auto.
Qed.

Lemma persisted_handle (s : App) (ev : Event) :
  persisted s -> persisted (handle s ev).
Proof.
  unfold persisted. intros H. destruct ev; cbn [handle];
    unfold handleSavePhrase, deleteSavedPhrase, handleImport, clearLibrary,
      updatePhraseScore, selectSavedPhrase, startExerciseMode, setUserInput,
      checkWriting, nextExercisePhrase, quitExercise, onGoHome,
      updatePhraseScore;
    break_match; cbn; auto; congruence.
Qed.

(** X7: what the handlers of the library and of the drill store is what they
    leave in the state: a state whose stored sequence is its library stays
    so through any sequence of saves, deletions, imports, clearings, score
    updates, selections and drill steps, so that loading at the next mount
    gives the same library. *)
Theorem library_stays_persisted (events : list Event) (s : App)
  (Hs : persisted s) :
  loadPhrases (fluentify_phrases (run events s)) = savedPhrases (run events s).
Proof.
  revert s Hs. unfold run.
  induction events as [|ev events IH]; intros s Hs; cbn [fold_left].
  - exact Hs.
  - apply IH. now apply persisted_handle.
Qed.

Lemma library_stays_persisted_witness :
  persisted app_one /\
  loadPhrases (fluentify_phrases
                 (run [EvSave "id-2" 7; EvDelete "id-1" true; EvClear true;
                       EvSave "id-3" 8] app_one)) =
  savedPhrases (run [EvSave "id-2" 7; EvDelete "id-1" true; EvClear true;
                     EvSave "id-3" 8] app_one).
Proof.
  assert (H : persisted app_one) by reflexivity.
  split; [exact H|]. exact (library_stays_persisted _ app_one H).
Defined.

Lemma sort_nonempty (l : list SavedPhrase) (r : Random) :
  l <> [] -> fst (sort compareFn l r) <> [].
Proof.
  intros Hl E. destruct (sort_ascending l r) as [_ Hp].
  rewrite E in Hp. apply Permutation_nil in Hp. contradiction.
Qed.

Lemma drill_in_range_handle (s : App) (ev : Event) :
  drill_in_range s -> drill_in_range (handle s ev).
Proof.
  unfold drill_in_range. intros H.
  pose proof (handle_library_frame s ev) as Hframe.
  destruct ev; try (rewrite (proj1 Hframe); exact H).
  - cbn. discriminate.
  - cbn [handle]. unfold startExerciseMode.
    destruct (savedPhrases s) as [|p0 l0] eqn:El; [exact H|].
    pose proof (sort_nonempty (p0 :: l0) r) as Hne.
    destruct (sort compareFn (p0 :: l0) r) as [shuffled r'].
    cbn [fst] in Hne. destruct shuffled as [|first rest].
    + now elim Hne.
    + cbn. intros ex [= <-]. cbn. lia.
  - cbn [handle]. unfold setUserInput.
    destruct (exercise s) as [ex0|] eqn:Ee; [|now rewrite Ee].
    cbn. intros ex [= <-]. cbn. now apply H.
  - cbn [handle]. unfold checkWriting.
    destruct (exercise s) as [ex0|] eqn:Ee; [|now rewrite Ee].
    destruct (shuffledPhrases ex0 !! currentPhraseIndex ex0);
      [|now rewrite Ee].
    destruct (writingCheck _ _); [|now rewrite Ee].
    cbn. intros ex [= <-]. cbn. now apply H.
  - cbn [handle]. unfold nextExercisePhrase.
    destruct (exercise s) as [ex0|] eqn:Ee; [|now rewrite Ee].
    cbn zeta.
    destruct (Nat.ltb_spec (S (currentPhraseIndex ex0))
                (length (shuffledPhrases ex0))) as [Hlt|Hge].
    + destruct (shuffledPhrases ex0 !! S (currentPhraseIndex ex0));
        [|now rewrite Ee].
      cbn. intros ex [= <-]. cbn. exact Hlt.
    + cbn. intros ex [= <-]. cbn. now apply H.
  - cbn. discriminate.
  - cbn. discriminate.
Qed.

(** X8: the index of a drill always points at one of its phrases: whatever
    the sequence of events from a state where it does, the handlers that
    read the current phrase ([checkWriting], the score write-back) find
    it. *)
Theorem drill_stays_in_range (events : list Event) (s : App)
  (Hs : drill_in_range s) :
  forall ex, exercise (run events s) = Some ex ->
    exists current,
      shuffledPhrases ex !! currentPhraseIndex ex = Some current.
Proof.
  assert (G : drill_in_range (run events s)).
  { revert s Hs. unfold run.
    induction events as [|ev events IH]; intros s Hs; cbn [fold_left].
    - exact Hs.
    - apply IH. now apply drill_in_range_handle. }
  intros ex He. apply lookup_lt_is_Some_2. now apply G.
Qed.

Lemma drill_stays_in_range_witness :
  drill_in_range app_two /\
  exists ex current,
    exercise (run [EvStart (constant_draws 0); EvInput "good"; EvCheck;
                   EvNext; EvNext; EvDelete "id-1" true] app_two) = Some ex /\
    shuffledPhrases ex !! currentPhraseIndex ex = Some current.
Proof.
  assert (H : drill_in_range app_two) by (intros ex; discriminate).
  split; [exact H|].
  assert (E : exercise (run [EvStart (constant_draws 0); EvInput "good";
                             EvCheck; EvNext; EvNext; EvDelete "id-1" true]
                          app_two) =
              Some (mkExerciseState 1 [phrase_morning; phrase_hello]
                      Step.FINISHED "" None))
    by (vm_compute; reflexivity).
  destruct (drill_stays_in_range
              [EvStart (constant_draws 0); EvInput "good"; EvCheck;
               EvNext; EvNext; EvDelete "id-1" true] app_two H _ E)
    as [current Hc].
  exists (mkExerciseState 1 [phrase_morning; phrase_hello] Step.FINISHED ""
            None), current.
  split; [exact E|exact Hc].
Defined.

End Invariants.

(** ** The course of a drill *)

Section DrillCourse.

Lemma trim_trimmed (s : string) : trim (trim s) = trim s.
Proof.
  apply trim_fixed.
  - apply trimEnd_starts, trimStart_starts.
  - apply trimEnd_ends.
Qed.

Lemma drill_kept_handle (sh : list SavedPhrase) (s : App) (ev : Event) :
  stays_in_drill ev = true ->
  (exists ex current,
     exercise s = Some ex /\ shuffledPhrases ex = sh /\
     sh !! currentPhraseIndex ex = Some current /\
     targetText s = text current /\ status s = EXERCISE) ->
  exists ex current,
    exercise (handle s ev) = Some ex /\ shuffledPhrases ex = sh /\
    sh !! currentPhraseIndex ex = Some current /\
    targetText (handle s ev) = text current /\
    status (handle s ev) = EXERCISE.
Proof.
  intros Hev (ex & current & He & Hsh & Hcur & Ht & Hst).
  pose proof (handle_library_frame s ev) as Hframe.
  destruct ev; try discriminate;
    try (destruct Hframe as (E1 & E2 & E3); exists ex, current;
         rewrite E1, E2, E3; repeat split; auto).
  - cbn [handle]. unfold setUserInput. rewrite He.
    eexists _, current. cbn. split; [reflexivity|]. cbn. repeat split; auto.
  - cbn [handle]. unfold checkWriting. rewrite He, Hsh, Hcur.
    destruct (writingCheck _ _); [|exists ex, current; repeat split; auto].
    eexists _, current. cbn. split; [reflexivity|]. cbn. repeat split; auto.
  - cbn [handle]. unfold nextExercisePhrase. rewrite He. cbn zeta.
    destruct (S (currentPhraseIndex ex) <? length (shuffledPhrases ex))%nat.
    + destruct (shuffledPhrases ex !! S (currentPhraseIndex ex))
        as [nextPhrase|] eqn:En; [|exists ex, current; repeat split; auto].
      eexists _, nextPhrase. cbn. split; [reflexivity|]. cbn. rewrite <- Hsh. repeat split; auto.
    + eexists _, current. cbn. split; [reflexivity|]. cbn. repeat split; auto.
Qed.

(** X9: the phrases of a drill are fixed when it starts.  Through typing,
    checks, advances and any change of the library (saves, deletions,
    imports, clearings, score updates) the drill keeps the sequence sorted at
    its start, the session stays in EXERCISE and the target text is the text
    of the current phrase of that sequence: the drill does not follow the
    library. *)
Theorem drill_snapshot_fixed (r : Random) (s : App) (events : list Event)
  (Hlib : savedPhrases s <> [])
  (Hev : forallb stays_in_drill events = true) :
  exists ex current,
    exercise (run events (fst (startExerciseMode r s))) = Some ex /\
    shuffledPhrases ex = fst (sort compareFn (savedPhrases s) r) /\
    shuffledPhrases ex !! currentPhraseIndex ex = Some current /\
    targetText (run events (fst (startExerciseMode r s))) = text current /\
    status (run events (fst (startExerciseMode r s))) = EXERCISE.
Proof.
  set (sh := fst (sort compareFn (savedPhrases s) r)).
  assert (H0 : exists ex current,
             exercise (fst (startExerciseMode r s)) = Some ex /\
             shuffledPhrases ex = sh /\
             sh !! currentPhraseIndex ex = Some current /\
             targetText (fst (startExerciseMode r s)) = text current /\
             status (fst (startExerciseMode r s)) = EXERCISE).
  { unfold startExerciseMode, sh.
    destruct (savedPhrases s) as [|p0 l0] eqn:El; [congruence|].
    pose proof (sort_nonempty (p0 :: l0) r) as Hne.
    destruct (sort compareFn (p0 :: l0) r) as [shuffled r'].
    cbn [fst] in *. destruct shuffled as [|first rest]; [now elim Hne|].
    eexists _, first. cbn. split; [reflexivity|]. cbn. repeat split; auto. }
  clearbody sh.
  assert (G : forall s1,
             (exists ex current,
                exercise s1 = Some ex /\ shuffledPhrases ex = sh /\
                sh !! currentPhraseIndex ex = Some current /\
                targetText s1 = text current /\ status s1 = EXERCISE) ->
             exists ex current,
               exercise (run events s1) = Some ex /\ shuffledPhrases ex = sh /\
               sh !! currentPhraseIndex ex = Some current /\
               targetText (run events s1) = text current /\
               status (run events s1) = EXERCISE).
  { unfold run. induction events as [|ev events IH]; intros s1 H1;
      cbn [fold_left]; [exact H1|].
    cbn in Hev. apply andb_true_iff in Hev as [Hev1 Hev2].
    apply (IH Hev2). now apply drill_kept_handle. }
  destruct (G _ H0) as (ex & current & He & Hsh & Hcur & Ht & Hst).
  exists ex, current. rewrite Hsh. repeat split; auto.
Qed.

Lemma drill_snapshot_fixed_witness :
  savedPhrases app_two <> [] /\
  forallb stays_in_drill [EvInput "good"; EvCheck; EvDelete "id-1" true;
                          EvNext] = true /\
  savedPhrases (run [EvInput "good"; EvCheck; EvDelete "id-1" true; EvNext]
                  (fst (startExerciseMode (constant_draws 0) app_two))) =
    [mkSavedPhrase "id-2" "Good morning" "" 2 (Some 50) (Some 1)] /\
  exists ex,
    exercise (run [EvInput "good"; EvCheck; EvDelete "id-1" true; EvNext]
                (fst (startExerciseMode (constant_draws 0) app_two))) =
      Some ex /\
    shuffledPhrases ex = [phrase_morning; phrase_hello].
Proof.
  assert (H1 : savedPhrases app_two <> []) by discriminate.
  assert (H2 : forallb stays_in_drill
                 [EvInput "good"; EvCheck; EvDelete "id-1" true; EvNext]
               = true) by reflexivity.
  split; [exact H1|]. split; [exact H2|]. split; [vm_compute; reflexivity|].
  destruct (drill_snapshot_fixed (constant_draws 0) app_two _ H1 H2)
    as (ex & current & He & Hsh & _).
  exists ex. split; [exact He|]. rewrite Hsh. reflexivity.
Defined.

(** X10: [nextExercisePhrase] walks through the phrases of a drill in their
    order and then finishes: after [k] advances from a drill of [n] phrases
    at its first phrase, the index is [k], the step WRITING with an empty
    input and the target text the text of phrase [k] as long as [k < n];
    from [n] advances on the drill is FINISHED at its last phrase. *)
Theorem drill_walk (k : nat) (s : App) (sh : list SavedPhrase)
  (Hs : exercise s = Some (mkExerciseState 0 sh Step.WRITING "" None))
  (Hsh : sh <> []) :
  exists ex,
    exercise (Nat.iter k nextExercisePhrase s) = Some ex /\
    shuffledPhrases ex = sh /\
    currentPhraseIndex ex = Nat.min k (length sh - 1) /\
    step ex = (if (k <? length sh)%nat then Step.WRITING else Step.FINISHED) /\
    ((0 < k < length sh)%nat ->
     userInput ex = "" /\ writingResult ex = None /\
     Some (targetText (Nat.iter k nextExercisePhrase s)) =
       text <$> sh !! k).
Proof.
  assert (Hn : (0 < length sh)%nat) by (destruct sh; [congruence|cbn; lia]).
  induction k as [|k IH].
  - eexists. split; [exact Hs|]. split; [reflexivity|].
    split; [reflexivity|]. split; [|intros []; lia].
    cbn [step]. destruct (Nat.ltb_spec 0 (length sh)); [reflexivity|lia].
  - change (Nat.iter (S k) nextExercisePhrase s)
      with (nextExercisePhrase (Nat.iter k nextExercisePhrase s)).
    destruct IH as (ex & He & Esh & Ei & Est & _).
    set (sk := Nat.iter k nextExercisePhrase s) in *.
    unfold nextExercisePhrase. rewrite He. cbn zeta. rewrite Esh, Ei.
    destruct (Nat.ltb_spec (S (Nat.min k (length sh - 1))) (length sh))
      as [Hlt|Hge].
    + assert (Hk : (S k < length sh)%nat) by lia.
      replace (Nat.min k (length sh - 1)) with k by lia.
      destruct (lookup_lt_is_Some_2 sh (S k) Hk) as [nextPhrase En].
      rewrite En. eexists. split; [reflexivity|].
      cbn [currentPhraseIndex shuffledPhrases step userInput writingResult].
      split; [reflexivity|]. split; [lia|]. split.
      * destruct (Nat.ltb_spec (S k) (length sh)); [reflexivity|lia].
      * intros _. repeat split.
    + assert (Hk : (length sh <= S k)%nat) by lia.
      eexists. split; [reflexivity|].
      cbn [currentPhraseIndex shuffledPhrases step userInput writingResult].
      split; [reflexivity|]. split; [lia|]. split.
      * destruct (Nat.ltb_spec (S k) (length sh)); [lia|reflexivity].
      * intros []. lia.
Qed.

Lemma drill_walk_witness :
  exercise app_drill =
    Some (mkExerciseState 0 [phrase_morning; phrase_hello] Step.WRITING
            "good morning" None) /\
  exists ex,
    exercise (Nat.iter 2 nextExercisePhrase
                (setUserInput "" app_drill)) = Some ex /\
    currentPhraseIndex ex = 1%nat /\ step ex = Step.FINISHED.
Proof.
  split; [reflexivity|].
  destruct (drill_walk 2 (setUserInput "" app_drill)
              [phrase_morning; phrase_hello] eq_refl)
    as (ex & He & _ & Ei & Est & _); [discriminate|].
  exists ex. split; [exact He|]. split; [exact Ei|exact Est].
Defined.

End DrillCourse.

(** ** The writing check in a drill *)

Section WritingMore.

Lemma scored_in_range (id0 : string) (z : Z) (l : list SavedPhrase) :
  0 <= z <= 100 -> scores_in_range l ->
  scores_in_range (map (scored id0 z) l).
Proof.
  intros Hz Hl p' z' Hin Hs. apply in_map_iff in Hin as (p & <- & Hp).
  unfold scored, scoredWith in Hs. destruct (String.eqb (id p) id0); cbn in Hs.
  - injection Hs as <-. exact Hz.
  - now apply (Hl p).
Qed.

(** X11: a writing check on the current phrase of a drill shows a result
    and writes its score to the library: the drill moves to the RESULT step
    with the input kept, the phrases of the library with the identifier of the
    current phrase get the score shown (a score from 0 to 100, so that scores
    in that range stay in that range) and one more practice, and the sequence
    of the drill itself is not updated. *)
Theorem checkWriting_records_score (s : App) (ex : ExerciseState)
  (current : SavedPhrase)
  (He : exercise s = Some ex)
  (Hcur : shuffledPhrases ex !! currentPhraseIndex ex = Some current)
  (Hlen : Z.of_nat (String.length (text current)) < 2 ^ 53) :
  exists wr,
    writingCheck (text current) (userInput ex) = Some wr /\
    exercise (checkWriting s) =
      Some (mkExerciseState (currentPhraseIndex ex) (shuffledPhrases ex)
              Step.RESULT (userInput ex) (Some wr)) /\
    savedPhrases (checkWriting s) =
      map (scored (id current) (score wr)) (savedPhrases s) /\
    fluentify_phrases (checkWriting s) = Some (savedPhrases (checkWriting s)) /\
    (forall p, In p (savedPhrases (checkWriting s)) -> id p = id current ->
               lastScore p = Some (score wr)) /\
    (scores_in_range (savedPhrases s) ->
     scores_in_range (savedPhrases (checkWriting s))) /\
    targetText (checkWriting s) = targetText s /\
    status (checkWriting s) = status s.
Proof.
  destruct (writingCheck_Some (text current) (userInput ex) Hlen)
    as (z & _ & E & Hz & _).
  eexists. split; [exact E|].
  unfold checkWriting. rewrite He, Hcur, E. cbn.
  split; [reflexivity|]. split; [reflexivity|]. split; [reflexivity|].
  split; [|split; [|split; reflexivity]].
  - intros p Hin Hid. apply in_map_iff in Hin as (q & <- & Hq).
    unfold scored, scoredWith in *. destruct (String.eqb_spec (id q) (id current));
      [reflexivity|]. cbn in Hid. contradiction.
  - now apply scored_in_range.
Qed.

Lemma checkWriting_records_score_witness :
  exercise app_drill =
    Some (mkExerciseState 0 [phrase_morning; phrase_hello] Step.WRITING
            "good morning" None) /\
  exists wr,
    writingCheck "Good morning" "good morning" = Some wr /\
    savedPhrases (checkWriting app_drill) =
      map (scored "id-2" (score wr)) [phrase_hello; phrase_morning].
Proof.
  split; [reflexivity|].
  destruct (checkWriting_records_score app_drill _ phrase_morning
              eq_refl eq_refl) as (wr & E & _ & Hl & _).
  { vm_compute. reflexivity. }
  exists wr. split; [exact E|exact Hl].
Defined.

Lemma startExerciseMode_library (r : Random) (s : App) :
  savedPhrases (fst (startExerciseMode r s)) = savedPhrases s.
Proof.
  unfold startExerciseMode. destruct (savedPhrases s) eqn:El; [exact El|].
  destruct (sort compareFn _ r) as [[|first rest] r']; cbn; exact El.
Qed.

Lemma texts_trimmed_handle (s : App) (ev : Event) :
  (forall file confirmed, ev <> EvImport file confirmed) ->
  texts_trimmed (savedPhrases s) ->
  texts_trimmed (savedPhrases (handle s ev)).
Proof.
  intros Hev H. assert (Hmap : forall id0 z,
    texts_trimmed (map (scored id0 z) (savedPhrases s))).
  { intros id0 z p Hin. apply in_map_iff in Hin as (q & <- & Hq).
    unfold scored, scoredWith. destruct (String.eqb (id q) id0); cbn; now apply H. }
  destruct ev; cbn [handle].
  - unfold handleSavePhrase.
    destruct (trim (targetText s)) as [|c t] eqn:E; [exact H|].
    intros p Hp. cbn in Hp. destruct Hp as [<-|Hp]; [|now apply H].
    cbn [text]. rewrite <- E. split; [apply trim_trimmed|].
    rewrite E. discriminate.
  - unfold deleteSavedPhrase. destruct confirmed; cbn; [|exact H].
    intros p Hp. apply filter_In in Hp as [Hp _]. now apply H.
  - now elim (Hev file confirmed).
  - unfold clearLibrary. destruct confirmed; [|exact H]. intros p [].
  - apply Hmap.
  - exact H.
  - now rewrite startExerciseMode_library.
  - unfold setUserInput. destruct (exercise s); exact H.
  - unfold checkWriting. destruct (exercise s) as [ex|]; [|exact H].
    destruct (shuffledPhrases ex !! currentPhraseIndex ex); [|exact H].
    destruct (writingCheck _ _); [|exact H]. cbn. apply Hmap.
  - unfold nextExercisePhrase. destruct (exercise s) as [ex|]; [|exact H].
    cbn zeta. destruct (_ <? _)%nat; [|exact H].
    destruct (shuffledPhrases ex !! _); exact H.
  - exact H.
  - exact H.
Qed.

(** X12: the texts of the library stay trimmed and not empty: a library
    whose texts are so keeps them so through every sequence of events that
    has no import in it (a save stores the trimmed target text and refuses an
    empty one; an import takes the records as they are). *)
Theorem library_texts_trimmed (events : list Event) (s : App)
  (Hs : texts_trimmed (savedPhrases s))
  (Hev : forall ev file confirmed,
           In ev events -> ev <> EvImport file confirmed) :
  forall p, In p (savedPhrases (run events s)) ->
            trim (text p) = text p /\ text p <> "".
Proof.
  revert s Hs. unfold run.
  induction events as [|ev events IH]; intros s Hs; cbn [fold_left].
  - exact Hs.
  - apply IH.
    + intros ev' file confirmed Hin. apply Hev. now right.
    + apply texts_trimmed_handle; [|exact Hs].
      intros file confirmed. apply Hev. now left.
Qed.

Lemma library_texts_trimmed_witness :
  texts_trimmed (savedPhrases app_one) /\
  forall p,
    In p (savedPhrases (run [EvSave "id-2" 7; EvScore "id-1" 80] app_one)) ->
    trim (text p) = text p /\ text p <> "".
Proof.
  assert (H : texts_trimmed (savedPhrases app_one)).
  { intros p [<-|[]]. split; [reflexivity|discriminate]. }
  split; [exact H|].
  apply (library_texts_trimmed [EvSave "id-2" 7; EvScore "id-1" 80] app_one H).
  intros ev file confirmed [<-|[<-|[]]]; discriminate.
Defined.

End WritingMore.

(** ** The part of chance in the order of a drill *)

Section DrillChance.

Lemma compareFn_distinct (a b : SavedPhrase) (r : Random) :
  scoreOf a <> scoreOf b -> compareFn a b r = (scoreOf a - scoreOf b, r).
Proof.
  intros H. unfold compareFn.
  destruct (Z.eqb_spec (scoreOf a) (scoreOf b)); [contradiction|reflexivity].
Qed.

Lemma insert_back_distinct (element : SavedPhrase)
  (prefix_rev : list SavedPhrase) (r1 r2 : Random) :
  (forall tmp, In tmp prefix_rev -> scoreOf tmp <> scoreOf element) ->
  insert_back compareFn element prefix_rev r1 =
  (fst (insert_back compareFn element prefix_rev r2), r1).
Proof.
  induction prefix_rev as [|tmp rest IH]; intros H; cbn [insert_back];
    [reflexivity|].
  rewrite !compareFn_distinct by (apply H; now left).
  destruct (0 <? scoreOf tmp - scoreOf element); [|reflexivity].
  rewrite IH by (intros x Hx; apply H; now right).
  destruct (insert_back compareFn element rest r2). reflexivity.
Qed.

Lemma insert_back_perm (element : SavedPhrase) (prefix_rev : list SavedPhrase)
  (r : Random) :
  Permutation (fst (insert_back compareFn element prefix_rev r))
              (element :: prefix_rev).
Proof.
  revert r. induction prefix_rev as [|tmp rest IH]; intros r;
    cbn [insert_back]; [reflexivity|].
  destruct (compareFn tmp element r) as [order r1].
  destruct (0 <? order); [|reflexivity].
  specialize (IH r1). destruct (insert_back compareFn element rest r1).
  cbn in *. rewrite IH. apply perm_swap.
Qed.

Lemma sort_from_distinct (prefix_rev todo : list SavedPhrase) (r1 r2 : Random) :
  NoDup (map scoreOf (prefix_rev ++ todo)) ->
  sort_from compareFn prefix_rev todo r1 =
  (fst (sort_from compareFn prefix_rev todo r2), r1).
Proof.
  revert prefix_rev. induction todo as [|element todo IH]; intros prefix_rev Hnd;
    cbn [sort_from]; [reflexivity|].
  assert (Hd : forall tmp, In tmp prefix_rev -> scoreOf tmp <> scoreOf element).
  { intros tmp Hin E. rewrite map_app in Hnd. cbn in Hnd.
    apply NoDup_app in Hnd as (_ & Hdis & _).
    apply (Hdis (scoreOf tmp)).
    - apply list_elem_of_In. now apply in_map.
    - rewrite E. now left. }
  pose proof (insert_back_distinct element prefix_rev r1 r2 Hd) as E1.
  pose proof (insert_back_distinct element prefix_rev r2 r2 Hd) as E2.
  pose proof (insert_back_perm element prefix_rev r2) as Hp.
  destruct (insert_back compareFn element prefix_rev r2) as [P rP].
  cbn [fst] in *. injection E2 as ->. rewrite E1. apply IH.
  rewrite Hp. cbn [app map].
  rewrite map_app in Hnd |- *. cbn [map] in Hnd.
  eapply NoDup_Permutation_proper; [|exact Hnd].
  apply Permutation_middle.
Qed.

Lemma ascending_StronglySorted (l : list SavedPhrase) :
  ascending l -> StronglySorted score_le l.
Proof.
  induction l as [|x l IH]; intros Ha; constructor.
  - apply IH. intros i j p q Hij Hi Hj.
    apply (Ha (S i) (S j) p q); [lia|exact Hi|exact Hj].
  - rewrite List.Forall_forall. intros y Hy.
    apply list_elem_of_In, list_elem_of_lookup_1 in Hy as [j Hj].
    apply (Ha 0%nat (S j) x y); [lia|reflexivity|exact Hj].
Qed.

Lemma distinct_scores_inj (l : list SavedPhrase) (a b : SavedPhrase) :
  NoDup (map scoreOf l) -> In a l -> In b l -> scoreOf a = scoreOf b -> a = b.
Proof.
  induction l as [|x l IH]; cbn [map]; intros Hnd Ha Hb E; [destruct Ha|].
  apply NoDup_cons in Hnd as [Hx Hnd].
  assert (Hin : forall y, In y l -> scoreOf y <> scoreOf x).
  { intros y Hy Ey. apply Hx. rewrite <- Ey.
    apply list_elem_of_In. now apply in_map. }
  destruct Ha as [<-|Ha], Hb as [<-|Hb].
  - reflexivity.
  - now elim (Hin b Hb).
  - now elim (Hin a Ha).
  - now apply IH.
Qed.

(** A library with pairwise different scores has one ascending arrangement
    only. *)
Lemma ascending_arrangement_unique (l1 l2 : list SavedPhrase) :
  NoDup (map scoreOf l1) -> Permutation l1 l2 ->
  StronglySorted score_le l1 -> StronglySorted score_le l2 -> l1 = l2.
Proof.
  revert l2. induction l1 as [|x t IH]; intros l2 Hnd Hp H1 H2.
  - apply Permutation_nil in Hp. now subst.
  - destruct l2 as [|y u].
    { symmetry in Hp. apply Permutation_nil in Hp. discriminate. }
    apply StronglySorted_inv in H1 as [Ht Hx].
    apply StronglySorted_inv in H2 as [Hu Hy].
    rewrite List.Forall_forall in Hx, Hy.
    assert (Exy : x = y).
    { assert (Hyin : In y (x :: t)).
      { apply (Permutation_in _ (Permutation_sym Hp)). now left. }
      assert (Hxin : In x (y :: u)).
      { apply (Permutation_in _ Hp). now left. }
      apply (distinct_scores_inj (x :: t)); [exact Hnd|now left|exact Hyin|].
      assert (scoreOf x <= scoreOf y).
      { destruct Hyin as [<-|Hyin]; [lia|]. now apply Hx. }
      assert (scoreOf y <= scoreOf x).
      { destruct Hxin as [<-|Hxin]; [lia|]. now apply Hy. }
      lia. }
    subst y. f_equal. apply IH; [|now apply Permutation_cons_inv in Hp| |].
    + cbn [map] in Hnd. now apply NoDup_cons in Hnd as [_ Hnd].
    + exact Ht.
    + exact Hu.
Qed.

(** X13: chance enters the order of a drill only through ties.  When the
    scores of the library (absent counting as -1) are pairwise different,
    the comparator draws no number for two different phrases of it, the
    library has one arrangement with ascending scores only, so that it is
    what every procedure that sorts yields, and the sort returns it without
    a draw. *)
Theorem drill_order_chance (l : list SavedPhrase) (r : Random)
  (Hnd : NoDup (map scoreOf l)) :
  (forall a b r0, In a l -> In b l -> a <> b ->
     compareFn a b r0 = (scoreOf a - scoreOf b, r0)) /\
  (forall l', Permutation l' l -> ascending l' ->
     l' = fst (sort compareFn l r)) /\
  snd (sort compareFn l r) = r.
Proof.
  split; [|split].
  - intros a b r0 Ha Hb Hab. apply compareFn_distinct. intros E.
    apply Hab. now apply (distinct_scores_inj l).
  - intros l' Hp Ha. destruct (sort_from_sorted [] l r) as [Hs Hq];
      [constructor|]. cbn [rev app] in Hq.
    apply ascending_arrangement_unique.
    + now rewrite Hp.
    + rewrite Hp. now symmetry.
    + now apply ascending_StronglySorted.
    + exact Hs.
  - unfold sort. now rewrite (sort_from_distinct [] l r r Hnd).
Qed.

Lemma drill_order_chance_witness :
  NoDup (map scoreOf [phrase_hello; phrase_morning]) /\
  (forall l', Permutation l' [phrase_hello; phrase_morning] ->
     ascending l' -> l' = [phrase_morning; phrase_hello]) /\
  drawn (snd (sort compareFn [phrase_hello; phrase_morning]
                (constant_draws 0))) = 0%nat.
Proof.
  assert (H : NoDup (map scoreOf [phrase_hello; phrase_morning])).
  { repeat constructor; rewrite list_elem_of_In; cbn; intuition discriminate. }
  destruct (drill_order_chance [phrase_hello; phrase_morning]
              (constant_draws 0) H) as (_ & Hu & Hr).
  split; [exact H|]. split; [exact Hu|]. now rewrite Hr.
Defined.

End DrillChance.

(** ** Suggested phrases and playback *)

Section Suggestions.




Lemma handlePlayWord_busy (w w' : string) (f : Flags) :
  truthy w = true -> playingWord f = Some w ->
  handlePlayWord w' f = f.
Proof.
  intros Hw Hf. unfold handlePlayWord. now rewrite Hf; cbn; rewrite Hw.
Qed.

(** X15: one word is played at a time, as long as it is not the empty
    word: when no word is playing, a request for a word that is not empty
    makes it the playing word, every further request is ignored until the
    playback has ended, and the end frees the player; a request for the empty
    word, however, does not keep a later request from replacing it. *)
Theorem one_word_at_a_time (w : string) (others : list string) (f : Flags)
  (Hidle : truthy_opt (playingWord f) = false)
  (Hw : truthy w = true) :
  playingWord (fold_left (fun g w' => handlePlayWord w' g) others
                 (handlePlayWord w f)) = Some w /\
  playingWord (playbackEnded
                 (fold_left (fun g w' => handlePlayWord w' g) others
                    (handlePlayWord w f))) = None /\
  forall w', playingWord (handlePlayWord w' (handlePlayWord "" f)) = Some w'.
Proof.
  assert (H1 : playingWord (handlePlayWord w f) = Some w).
  { unfold handlePlayWord. now rewrite Hidle. }
  split; [|split].
  - revert H1. generalize (handlePlayWord w f).
    induction others as [|w' others IH]; intros g Hg; cbn [fold_left];
      [exact Hg|].
    apply IH. now rewrite (handlePlayWord_busy w w' g Hw Hg).
  - reflexivity.
  - intros w'. unfold handlePlayWord. rewrite Hidle. reflexivity.
Qed.

Lemma one_word_at_a_time_witness :
  truthy_opt (playingWord flags_idle) = false /\ truthy "fox" = true /\
  playingWord (fold_left (fun g w' => handlePlayWord w' g) ["dog"; "lazy"]
                 (handlePlayWord "fox" flags_idle)) = Some "fox".
Proof.
  split; [reflexivity|]. split; [reflexivity|].
  apply (one_word_at_a_time "fox" ["dog"; "lazy"] flags_idle eq_refl eq_refl).
Defined.

End Suggestions.

(** ** What the writing check compares *)

Section WritingWords.

Lemma split_space_all (p : ascii -> bool) (t : string) :
  all_chars p t = true ->
  forall w, In w (split_space t) ->
    all_chars (fun c => p c && negb (Ascii.eqb c " ")) w = true.
Proof.
  induction t as [|c t IH]; cbn [split_space all_chars].
  - intros _ w [<-|[]]. reflexivity.
  - intros [Hc Ht]%andb_true_iff w Hw. specialize (IH Ht).
    destruct (Ascii.eqb c " ") eqn:Ec.
    + destruct Hw as [<-|Hw]; [reflexivity|now apply IH].
    + destruct (split_space t) as [|w0 ws].
      * destruct Hw as [<-|[]]. cbn. now rewrite Hc, Ec.
      * destruct Hw as [<-|Hw]; [|apply IH; now right].
        cbn [all_chars]. rewrite Hc, Ec. cbn. apply IH. now left.
Qed.

Lemma single_spaced_all (b : bool) (t : string) :
  single_spaced b t = true ->
  all_chars (fun c => negb (is_space c) || Ascii.eqb c " ") t = true.
Proof.
  revert b. induction t as [|c t IH]; intros b; cbn; [reflexivity|].
  destruct (is_space c).
  - intros [[-> _]%andb_true_iff H]%andb_true_iff. cbn. now apply (IH true).
  - intros H. cbn. now apply (IH false).
Qed.

Lemma all_chars_and (p q : ascii -> bool) (t : string) :
  all_chars p t = true -> all_chars q t = true ->
  all_chars (fun c => p c && q c) t = true.
Proof.
  induction t as [|c t IH]; cbn; [reflexivity|].
  intros [-> Hp]%andb_true_iff [-> Hq]%andb_true_iff. cbn. now apply IH.
Qed.

Lemma all_chars_impl (p q : ascii -> bool) (t : string) :
  (forall c, p c = true -> q c = true) ->
  all_chars p t = true -> all_chars q t = true.
Proof.
  intros Hpq. induction t as [|c t IH]; cbn; [reflexivity|].
  intros [Hc Ht]%andb_true_iff. now rewrite (Hpq c Hc), IH.
Qed.

(** The words of a single-spaced text that does not end with a space: only
    the first can be empty, and only when the text is empty or starts with a
    space. *)
Lemma split_space_words (t : string) :
  single_spaced false t = true -> ends_space t = false ->
  match split_space t with
  | [] => False
  | w :: ws =>
      (forall w', In w' ws -> w' <> "") /\
      (w = "" -> t = "" \/ starts_space t = true)
  end.
Proof.
  induction t as [|c t IH]; [cbn; intros _ _; split; [intros ? []|auto]|].
  intros Hs He.
  assert (Hs' : single_spaced false t = true).
  { cbn in Hs. destruct (is_space c); [|exact Hs].
    apply andb_true_iff in Hs as [_ Hs]. now apply single_spaced_weaken. }
  destruct t as [|d t'].
  - cbn in He. cbn. destruct (Ascii.eqb_spec c " ") as [->|Hc].
    + discriminate.
    + split; [intros ? []|discriminate].
  - assert (He' : ends_space (String d t') = false) by exact He.
    specialize (IH Hs' He').
    cbn [split_space] in *.
    destruct (Ascii.eqb_spec c " ") as [->|Hc].
    + destruct (if Ascii.eqb d " " then _ else _) as [|w ws] eqn:Esp;
        [contradiction|].
      destruct IH as [Hws Hw]. split; [|intros _; right; reflexivity].
      intros w' [<-|Hw']; [|now apply Hws].
      intros E. destruct (Hw E) as [Hemp|Hst]; [discriminate Hemp|].
      cbn in Hs, Hst. rewrite Hst in Hs. cbn in Hs.
      destruct (Ascii.eqb d " "); discriminate.
    + assert (Hns : is_space c = false).
      { destruct (is_space c) eqn:Ei; [|reflexivity]. cbn in Hs.
        rewrite Ei in Hs. apply andb_true_iff in Hs as [Hs _].
        apply andb_true_iff in Hs as [Hs _].
        apply Ascii.eqb_eq in Hs. contradiction. }
      destruct (if Ascii.eqb d " " then _ else _) as [|w ws] eqn:Esp;
        [contradiction|].
      destruct IH as [Hws _]. split; [exact Hws|discriminate].
Qed.

(** The words of a normalized text, in the 8-bit model: unless the whole
    text normalizes to the empty string, none is empty and none holds a
    white-space character, a punctuation mark of the class removed or a
    capital letter. *)
Lemma normalized_words_latin1 (s : string) :
  (normalizeText s = "" -> split_space (normalizeText s) = [""]) /\
  (normalizeText s <> "" ->
   forall w, In w (split_space (normalizeText s)) ->
     w <> "" /\
     all_chars (fun c => negb (is_space c) && negb (is_punct c) && is_folded c)
               w = true).
Proof.
  split; [now intros ->|]. intros Hne w Hw.
  set (t := normalizeText s) in *.
  assert (Hfold : all_chars is_folded t = true).
  { apply trimEnd_all, trimStart_all, collapse_all; [reflexivity|].
    apply remove_punct_all, toLowerCase_folded. }
  assert (Hpunct : all_chars (fun c => negb (is_punct c)) t = true).
  { apply trimEnd_all, trimStart_all, collapse_all; [reflexivity|].
    apply remove_punct_clean. }
  assert (Hsp : single_spaced false t = true).
  { apply trimEnd_single_spaced, trimStart_single_spaced,
      collapse_single_spaced. }
  assert (Hst : starts_space t = false).
  { apply trimEnd_starts, trimStart_starts. }
  assert (Hen : ends_space t = false) by apply trimEnd_ends.
  split.
  - pose proof (split_space_words t Hsp Hen) as Hwords.
    destruct (split_space t) as [|w0 ws]; [contradiction|].
    destruct Hwords as [Hws Hw0]. destruct Hw as [<-|Hw]; [|now apply Hws].
    intros E. destruct (Hw0 E) as [|H]; [contradiction|congruence].
  - pose proof (all_chars_and _ _ t (single_spaced_all _ _ Hsp)
                  (all_chars_and _ _ t Hpunct Hfold)) as Hall.
    pose proof (split_space_all _ t Hall w Hw) as Hclean.
    revert Hclean. apply all_chars_impl. intros c.
    destruct (is_space c), (is_punct c), (is_folded c), (Ascii.eqb c " ");
      cbn; congruence.
Qed.

Lemma writing_score_zero (n : nat) :
  (1 <= n)%nat -> Z.of_nat n <= 2 ^ 53 -> writing_score 0 n = Some 0.
Proof.
  intros Hn Hmax. unfold writing_score, Number.div, Number.mul, Number.of_Z.
  unfold Number.prec, Number.emax.
  destruct (of_Z_normal (Z.of_nat n)) as (mn & en & En & _); [lia|].
  rewrite En. reflexivity.
Qed.

Lemma correct_count_none (d : list DiffItem) :
  (forall item, In item d -> isCorrect item = false) -> correct_count d = 0%nat.
Proof.
  unfold correct_count. induction d as [|x d IH]; cbn; intros H; [reflexivity|].
  rewrite (H x) by now left. apply IH. intros y Hy. apply H. now right.
Qed.

(** X17: the writing check does not look at case, punctuation or spacing:
    an input that normalizes to the same text as the canonical phrase gets
    every word marked correct and a score of 100.  A blank input gets no word
    right and a score of 0 when the phrase has a word at all, and 100 when the
    phrase itself normalizes to the empty text. *)
Theorem writingCheck_normalized (canonical input : string)
  (Hlen : Z.of_nat (String.length canonical) < 2 ^ 53) :
  (normalizeText input = normalizeText canonical ->
   exists wr,
     writingCheck canonical input = Some wr /\ score wr = 100 /\
     forall item, In item (diff wr) -> isCorrect item = true) /\
  (normalizeText input = "" -> normalizeText canonical <> "" ->
   exists wr,
     writingCheck canonical input = Some wr /\ score wr = 0 /\
     forall item, In item (diff wr) -> isCorrect item = false).
Proof.
  destruct (writingCheck_Some canonical input Hlen) as (z & Ez & E & Hz & Hfull).
  pose proof (all_match_count canonical input) as Hall. cbn zeta in Hall.
  set (tw := split_space (normalizeText canonical)) in *.
  set (d := fst (mapWords (split_space canonical)
                   (split_space (normalizeText input)) 0 tw 0)) in *.
  pose proof (mapWords_length (split_space canonical)
                (split_space (normalizeText input)) tw 0 0) as Hl.
  fold d in Hl.
  split.
  - intros En. rewrite En in Hall. fold tw in Hall.
    assert (Hc : correct_count d = length tw) by (apply Hall; auto).
    exists (mkWritingResult z d). split; [exact E|]. cbn [score diff].
    split; [now apply Hfull|].
    intros item Hin. apply list_elem_of_In, list_elem_of_lookup in Hin
      as [k Hk].
    rewrite <- Hl in Hc. now apply (proj1 (correct_count_all d) Hc k).
  - intros Eb Hne.
    assert (Hnone : forall item, In item d -> isCorrect item = false).
    { intros item Hin.
      apply list_elem_of_In, list_elem_of_lookup in Hin as [k Hk].
      assert (Hlt : (k < length tw)%nat).
      { rewrite <- Hl. now apply lookup_lt_Some in Hk. }
      destruct (lookup_lt_is_Some_2 tw k Hlt) as [w Hw].
      pose proof (mapWords_lookup (split_space canonical)
                    (split_space (normalizeText input)) tw 0 0 k w Hw) as Hd.
      fold d in Hd. cbn in Hd. rewrite Hk in Hd. injection Hd as ->.
      destruct (isCorrect _) eqn:Ec; [|reflexivity].
      apply diffItem_correct in Ec. rewrite Eb in Ec.
      destruct k as [|k]; [|discriminate]. cbn in Ec. injection Ec as <-.
      destruct (proj2 (normalized_words_latin1 canonical) Hne "") as [Hw' _];
        [|congruence].
      apply list_elem_of_In. now apply list_elem_of_lookup_2 in Hw. }
    destruct (targetWords_length canonical Hlen) as [H1 H2]. fold tw in H1, H2.
    rewrite (correct_count_none d Hnone) in Ez.
    rewrite (writing_score_zero (length tw) H1 H2) in Ez. injection Ez as <-.
    exists (mkWritingResult 0 d). split; [exact E|]. split; [reflexivity|].
    exact Hnone.
Qed.

Lemma writingCheck_normalized_witness :
  Z.of_nat (String.length "The cat sat.") < 2 ^ 53 /\
  normalizeText "  the CAT,  sat " = normalizeText "The cat sat." /\
  exists wr,
    writingCheck "The cat sat." "  the CAT,  sat " = Some wr /\ score wr = 100.
Proof.
  assert (H : Z.of_nat (String.length "The cat sat.") < 2 ^ 53)
    by (vm_compute; reflexivity).
  split; [exact H|]. split; [reflexivity|].
  destruct (writingCheck_normalized "The cat sat." "  the CAT,  sat " H)
    as [Hsame _].
  destruct (Hsame eq_refl) as (wr & E & Hs & _).
  exists wr. split; [exact E|exact Hs].
Defined.

End WritingWords.

(** ** The recorder and the render it comes from *)

Section Closures.


(** The events that leave the target text as it is. *)
Lemma handle_keeps_target (s : App) (ev : Event) :
  keeps_target ev = true -> targetText (handle s ev) = targetText s.
Proof.
  destruct ev; cbn [keeps_target]; try discriminate; intros _; cbn [handle];
    unfold handleSavePhrase, deleteSavedPhrase, handleImport, clearLibrary,
      updatePhraseScore, setUserInput, checkWriting, quitExercise, onGoHome;
    repeat match goal with
           | |- context [match ?x with _ => _ end] => destruct x eqn:?
           end; reflexivity.
Qed.

Lemma pageRun_app (a b : list PageEvent) (pg : Page) :
  pageRun (a ++ b) pg =
  match pageRun a pg with
  | Some pg' => pageRun b pg'
  | None => None
  end.
Proof.
  revert pg. induction a as [|ev a IH]; intros pg; cbn [app pageRun];
    [reflexivity|].
  destruct (pageStep pg ev); [apply IH|reflexivity].
Qed.

(** Handlers that keep the target text leave [startRecording], the recorder
    and the analyses under way as they are. *)
Lemma pageRun_keeps_memo (events : list Event) (pg : Page) :
  Forall (fun ev => keeps_target ev = true) events ->
  targetText (memoized pg) = targetText (latest pg) ->
  exists s',
    pageRun (map PgHandle events) pg =
      Some (mkPage s' (memoized pg) (recorder pg) (analysing pg)) /\
    targetText s' = targetText (latest pg).
Proof.
  revert pg. induction events as [|ev events IH]; intros pg Hev Hm.
  - exists (latest pg). split; [now destruct pg|reflexivity].
  - apply Forall_cons in Hev as [Hk Hev]. cbn [map pageRun pageStep].
    pose proof (handle_keeps_target (latest pg) ev Hk) as Ht.
    set (pg1 := rendered (handle (latest pg) ev) pg).
    assert (E1 : pg1 = mkPage (handle (latest pg) ev) (memoized pg)
                         (recorder pg) (analysing pg)).
    { unfold pg1, rendered. rewrite Ht, <- Hm, String.eqb_refl. reflexivity. }
    destruct (IH pg1 Hev) as (s' & Hrun & Hs').
    { rewrite E1. cbn. now rewrite Hm, Ht. }
    exists s'. rewrite Hrun, Hs', E1. cbn. split; [reflexivity|exact Ht].
Qed.

Lemma rendered_same (s' : App) (pg : Page) :
  targetText s' = targetText (memoized pg) ->
  rendered s' pg = mkPage s' (memoized pg) (recorder pg) (analysing pg).
Proof. intros E. unfold rendered. now rewrite E, String.eqb_refl. Qed.

(** X3: the speaking check of a drill writes the library of the render in
    which its phrase became the target text.  After a drill has started with
    a first phrase whose text is not the target text of before, and after
    any handlers that keep the target text (typing, the writing check, saves,
    deletions, imports, clearing the library, leaving the drill), a recording
    whose analysis yields the score [z] leaves as the library the library
    of the start of the drill with [z] set for the first phrase: every
    change made to the library in between is undone, the writing check
    included, so that the two checks of a phrase add one practice, not
    two. *)
Theorem speaking_check_restores_library (pg : Page) (r : Random)
  (events : list Event) (analysis : json) (z : Z)
  (first : SavedPhrase) (rest : list SavedPhrase)
  (Hmemo : targetText (memoized pg) = targetText (latest pg))
  (Hnone : analysing pg = [])
  (Hsort : fst (sort compareFn (savedPhrases (latest pg)) r) = first :: rest)
  (Hnew : text first <> targetText (latest pg))
  (Hev : Forall (fun ev => keeps_target ev = true) events)
  (Hz : accuracyScore analysis = Resolved (Some (JNumber z))) :
  exists pg',
    pageRun (PgHandle (EvStart r) :: map PgHandle events ++
             [PgRecord true; PgStop;
              PgAnalysed 0 (Resolved (Text (Some analysis)))]) pg = Some pg' /\
    savedPhrases (latest pg') =
      map (scored (id first) z) (savedPhrases (latest pg)) /\
    fluentify_phrases (latest pg') = Some (savedPhrases (latest pg')) /\
    status (latest pg') = RESULT /\
    result (latest pg') = nullable analysis /\
    (forall (i : nat) (p : SavedPhrase),
       savedPhrases (latest pg) !! i = Some p -> id p = id first ->
       exists p', savedPhrases (latest pg') !! i = Some p' /\
         lastScore p' = Some z /\
         practiceCount p' =
           Some (Number.increment (default 0 (practiceCount p)))).
Proof.
  cbn [pageRun pageStep handle].
  set (s := latest pg) in *.
  assert (Hne : savedPhrases s <> []).
  { intros E. rewrite E in Hsort. discriminate. }
  (* the render after the start of the drill *)
  set (s1 := fst (startExerciseMode r s)).
  assert (E1 : s1 = setResult None
                      (setStatus EXERCISE
                         (setTargetText (text first)
                            (setExercise
                               (Some (mkExerciseState 0 (first :: rest)
                                        Step.WRITING "" None)) s)))).
  { unfold s1, startExerciseMode.
    destruct (savedPhrases s) as [|p0 l0] eqn:El; [congruence|].
    destruct (sort compareFn (p0 :: l0) r) as [shuffled r'].
    cbn [fst] in Hsort. subst shuffled. reflexivity. }
  set (pg1 := rendered s1 pg).
  assert (Ep1 : pg1 = mkPage s1 s1 (recorder pg) []).
  { unfold pg1, rendered. rewrite Hmemo, Hnone.
    destruct (String.eqb_spec (targetText s1) (targetText s)) as [E|E];
      [|reflexivity].
    rewrite E1 in E. cbn in E. congruence. }
  destruct (pageRun_keeps_memo events pg1 Hev) as (s2 & Hrun & Hs2).
  { now rewrite Ep1. }
  rewrite pageRun_app, Hrun, Ep1. cbn [memoized recorder analysing].
  rewrite Ep1 in Hs2. cbn [latest] in Hs2.
  set (s3 := startRecording true s2).
  set (s4 := handleProcessing_begin s3).
  set (s5 := updatePhraseScore s1 (id first) (Some z)
               (setStatus RESULT (setResult (nullable analysis) s4))).
  assert (S3 : pageStep (mkPage s2 s1 (recorder pg) []) (PgRecord true) =
               Some (mkPage s3 s1 (Some s1) [])).
  { cbn [pageStep latest memoized recorder analysing].
    rewrite rendered_same; [reflexivity|]. cbn. exact Hs2. }
  assert (S4 : pageStep (mkPage s3 s1 (Some s1) []) PgStop =
               Some (mkPage s4 s1 (Some s1) [s1])).
  { cbn [pageStep latest memoized recorder analysing].
    change (status s3) with RECORDING. cbn iota.
    rewrite rendered_same; [reflexivity|]. cbn. exact Hs2. }
  assert (Ex : exercise s1 =
               Some (mkExerciseState 0 (first :: rest) Step.WRITING "" None))
    by (rewrite E1; reflexivity).
  assert (S5 : pageStep (mkPage s4 s1 (Some s1) [s1])
                 (PgAnalysed 0 (Resolved (Text (Some analysis)))) =
               Some (mkPage s5 s1 (Some s1) [])).
  { cbn [pageStep latest memoized recorder analysing].
    change ([s1] !! 0%nat) with (Some s1). cbn iota.
    cbn [analyzeSpeech handleProcessing_end]. rewrite Ex.
    cbn [shuffledPhrases currentPhraseIndex].
    change ((first :: rest) !! 0%nat) with (Some first). cbn iota.
    rewrite Hz. cbn [scoreArgument].
    rewrite rendered_same; [reflexivity|]. cbn. exact Hs2. }
  cbn [pageRun]. rewrite S3. cbn [pageRun]. rewrite S4. cbn [pageRun].
  rewrite S5. eexists. split; [reflexivity|].
  assert (El : savedPhrases s1 = savedPhrases s) by (rewrite E1; reflexivity).
  cbn [latest]. unfold s5, updatePhraseScore.
  cbn [savedPhrases fluentify_phrases status result storePhrases
         setSavedPhrases setStatus setResult].
  rewrite El. split; [reflexivity|]. split; [reflexivity|].
  split; [reflexivity|]. split; [reflexivity|].
  intros i p Hi Hid. exists (scored (id first) z p). split.
  - change (map (scoredWith (id first) (Some z)) (savedPhrases s))
      with (scored (id first) z <$> savedPhrases s).
    now rewrite list_lookup_fmap, Hi.
  - unfold scored, scoredWith. rewrite Hid, String.eqb_refl. split; reflexivity.
Qed.

Lemma speaking_check_restores_library_witness :
  savedPhrases (latest (mount (Some [phrase_hello; phrase_morning]))) =
    [phrase_hello; phrase_morning] /\
  (exists pg,
     pageRun (PgHandle (EvStart (constant_draws 0)) ::
              map PgHandle [EvInput "good morning"; EvCheck; EvQuit;
                            EvDelete "id-2" true])
             (mount (Some [phrase_hello; phrase_morning])) = Some pg /\
     savedPhrases (latest pg) = [phrase_hello] /\
     exercise (latest pg) = None) /\
  exists pg',
    pageRun (PgHandle (EvStart (constant_draws 0)) ::
             map PgHandle [EvInput "good morning"; EvCheck; EvQuit;
                           EvDelete "id-2" true] ++
             [PgRecord true; PgStop;
              PgAnalysed 0 (Resolved (Text (Some analysis_85)))])
            (mount (Some [phrase_hello; phrase_morning])) = Some pg' /\
    savedPhrases (latest pg') =
      [phrase_hello;
       mkSavedPhrase "id-2" "Good morning" "" 2 (Some 85) (Some 1)].
Proof.
  split; [reflexivity|]. split.
  { eexists. split; [vm_compute; reflexivity|]. split; reflexivity. }
  destruct (speaking_check_restores_library
              (mount (Some [phrase_hello; phrase_morning]))
              (constant_draws 0)
              [EvInput "good morning"; EvCheck; EvQuit; EvDelete "id-2" true]
              analysis_85 85 phrase_morning [phrase_hello])
    as (pg' & Hrun & Hlib & _);
    try reflexivity; [discriminate|repeat constructor|].
  exists pg'. split; [exact Hrun|]. rewrite Hlib. reflexivity.
Defined.

End Closures.
